(** * Transformer encoder from scratch: a shallow embedding of [tf_from_scratch.ipynb]

    The notebook defines eight [nn.Module] classes on top of PyTorch.  This
    development embeds them over the real numbers: a float tensor is a shape
    together with its elements in row-major order, every PyTorch primitive the
    notebook calls is a (fallible) function on such tensors, a Python
    exception is a value of type [exn], and the global random generator that
    [nn.Dropout] draws from is threaded explicitly.

    Floating-point rounding is not modelled: [R] stands for [float32], so
    every statement below is about the exact real-number semantics of the
    formulas the code evaluates. *)

From Stdlib Require Import String.
From Stdlib Require Import List Arith ZArith QArith Qreals Reals Lia Lra Bool.
Import ListNotations.
Close Scope Q_scope.
Close Scope R_scope.
Close Scope Z_scope.
Open Scope string_scope.
Open Scope list_scope.
Open Scope nat_scope.

Set Implicit Arguments.

(* ================================================================== *)
(** * Python exceptions and the two monads of the embedding *)
(* ================================================================== *)

(** The exceptions the notebook and the PyTorch primitives it calls can
    raise.  The string is the message, kept to tell the raising sites
    apart. *)
Inductive exn : Type :=
| AssertionError (msg : string)
| TypeError (msg : string)
| RuntimeError (msg : string)
| IndexError (msg : string)
| ValueError (msg : string)
| ZeroDivisionError (msg : string).

Inductive result (A : Type) : Type :=
| Ok (a : A)
| Raise (e : exn).
Arguments Ok {A} a.
Arguments Raise {A} e.

Definition rbind {A B} (r : result A) (f : A -> result B) : result B :=
  match r with
  | Ok a => f a
  | Raise e => Raise e
  end.

Definition is_ok {A} (r : result A) : bool :=
  match r with Ok _ => true | Raise _ => false end.

Declare Scope result_scope.
Delimit Scope result_scope with res.
Notation "x <- c ;; k" := (rbind c (fun x => k))
  (at level 61, c at next level, right associativity) : result_scope.

(** The state of the global random generator: an infinite sequence of
    uniform samples in [0,1) and the number of samples already consumed. *)
Record Rng : Type := mkRng { cursor : nat; uniform : nat -> Q }.

(** Code that may draw random numbers and may raise. *)
Definition M (A : Type) : Type := Rng -> result A * Rng.

Definition ret {A} (a : A) : M A := fun g => (Ok a, g).

Definition bind {A B} (m : M A) (f : A -> M B) : M B :=
  fun g => match m g with
           | (Ok a, g') => f a g'
           | (Raise e, g') => (Raise e, g')
           end.

Definition lift {A} (r : result A) : M A := fun g => (r, g).

Declare Scope m_scope.
Delimit Scope m_scope with M.
Notation "x <- c ;; k" := (bind c (fun x => k))
  (at level 61, c at next level, right associativity) : m_scope.

(* ================================================================== *)
(** * Tensors *)
(* ================================================================== *)

(** A tensor: its shape and its elements in row-major order.  Every
    operation below returns a freshly laid out tensor, so that strides and
    contiguity do not appear. *)
Record tensor (A : Type) : Type := mkT { shape : list nat; data : list A }.
Arguments mkT {A} shape data.

Definition Tensor := tensor R.

Definition numel (sh : list nat) : nat := fold_right Nat.mul 1%nat sh.

(** The representation invariant: as many elements as the shape announces. *)
Definition wf {A} (t : tensor A) : Prop := length (data t) = numel (shape t).

Definition tabulate {A} (sh : list nat) (f : nat -> A) : tensor A :=
  mkT sh (map f (seq 0 (numel sh))).

Definition tmap {A B} (f : A -> B) (t : tensor A) : tensor B :=
  mkT (shape t) (map f (data t)).

(** [chunks n k l]: the first [k] consecutive blocks of [n] elements of [l]. *)
Fixpoint chunks {A} (n k : nat) (l : list A) : list (list A) :=
  match k with
  | O => []
  | S k' => firstn n l :: chunks n k' (skipn n l)
  end.

Fixpoint map2 {A B C} (f : A -> B -> C) (l1 : list A) (l2 : list B) : list C :=
  match l1, l2 with
  | a :: l1', b :: l2' => f a b :: map2 f l1' l2'
  | _, _ => []
  end.

Fixpoint imap {A B} (f : nat -> A -> B) (i : nat) (l : list A) : list B :=
  match l with
  | [] => []
  | a :: l' => f i a :: imap f (S i) l'
  end.

Definition Rsum (l : list R) : R := fold_right Rplus 0%R l.

(** ** Broadcasting *)

(** Broadcast two shapes, aligned on the right; the lists are reversed. *)
Fixpoint bshape_rev (a b : list nat) : option (list nat) :=
  match a, b with
  | [], _ => Some b
  | _, [] => Some a
  | x :: a', y :: b' =>
      match bshape_rev a' b' with
      | None => None
      | Some r =>
          if Nat.eqb x y then Some (x :: r)
          else if Nat.eqb x 1 then Some (y :: r)
          else if Nat.eqb y 1 then Some (x :: r)
          else None
      end
  end.

Definition broadcast_shapes (a b : list nat) : result (list nat) :=
  match bshape_rev (rev a) (rev b) with
  | Some r => Ok (rev r)
  | None => Raise (RuntimeError "The size of tensor a must match the size of tensor b")
  end.

Definition pad_left (r : nat) (sh : list nat) : list nat :=
  repeat 1%nat (r - length sh) ++ sh.

(** [expandable src tgt]: shapes of equal rank, each source dimension equal
    to the target's or 1 (a 1 also expands to 0). *)
Fixpoint expandable (src tgt : list nat) : bool :=
  match src, tgt with
  | [], [] => true
  | s :: src', t :: tgt' => (Nat.eqb s t || Nat.eqb s 1) && expandable src' tgt'
  | _, _ => false
  end.

Fixpoint expand_data {A} (src tgt : list nat) (d : list A) : list A :=
  match src, tgt with
  | s :: src', t :: tgt' =>
      if Nat.eqb s t
      then flat_map (expand_data src' tgt') (chunks (numel src') s d)
      else concat (repeat (expand_data src' tgt' d) t)
  | _, _ => d
  end.

(** [Tensor.expand]: the source may have fewer dimensions than the target. *)
Definition expand {A} (t : tensor A) (tgt : list nat) : result (tensor A) :=
  let src := pad_left (length tgt) (shape t) in
  if expandable src tgt
  then Ok (mkT tgt (expand_data src tgt (data t)))
  else Raise (RuntimeError "The expanded size of the tensor must match the existing size at non-singleton dimension").

(** An elementwise binary operation with broadcasting. *)
Definition zip_with {A B C} (f : A -> B -> C) (x : tensor A) (y : tensor B)
  : result (tensor C) :=
  (sh <- broadcast_shapes (shape x) (shape y) ;;
   x' <- expand x sh ;;
   y' <- expand y sh ;;
   Ok (mkT sh (map2 f (data x') (data y'))))%res.

(* ================================================================== *)
(** * The PyTorch primitives the notebook calls *)
(* ================================================================== *)

(** A Python [int] used as a tensor size. *)
Definition size_of_int (what : string) (z : Z) : result nat :=
  if (z <? 0)%Z then Raise (RuntimeError what) else Ok (Z.to_nat z).

Fixpoint sizes_of_ints (zs : list Z) : result (list nat) :=
  match zs with
  | [] => Ok []
  | z :: zs' =>
      (n <- size_of_int "Trying to create tensor with negative dimension" z ;;
       ns <- sizes_of_ints zs' ;;
       Ok (n :: ns))%res
  end.

(** [torch.zeros(dims...)]. *)
Definition torch_zeros (dims : list Z) : result Tensor :=
  (sh <- sizes_of_ints dims ;;
   Ok (mkT sh (repeat 0%R (numel sh))))%res.

(** [torch.arange(start, stop, step, dtype=torch.float32)] for a positive
    [step], the only kind the notebook uses. *)
Definition torch_arange (start stop : Z) (step : positive) : result Tensor :=
  if (stop <? start)%Z
  then Raise (RuntimeError "upper bound and larger bound inconsistent with step sign")
  else
    let n := Z.to_nat ((stop - start + Z.pos step - 1) / Z.pos step) in
    Ok (mkT [n] (map (fun k => IZR (start + Z.of_nat k * Z.pos step)) (seq 0 n))).

(** [t.unsqueeze(dim)] for a non-negative [dim]. *)
Definition unsqueeze {A} (t : tensor A) (dim : nat) : result (tensor A) :=
  if length (shape t) <? dim
  then Raise (IndexError "Dimension out of range")
  else Ok (mkT (firstn dim (shape t) ++ 1 :: skipn dim (shape t)) (data t)).

(** A dimension argument, possibly negative, resolved against a rank.  A
    0-dimensional tensor accepts the dimensions of a 1-dimensional one. *)
Definition norm_dim (rank : nat) (d : Z) : result nat :=
  let r := Z.of_nat (Nat.max rank 1) in
  if ((d <? - r) || (r <=? d))%Z
  then Raise (IndexError "Dimension out of range")
  else Ok (Z.to_nat (if (d <? 0)%Z then d + r else d)%Z).

(** [t.size(dim)]. *)
Definition size {A} (t : tensor A) (d : Z) : result nat :=
  match shape t with
  | [] => Raise (IndexError "Dimension specified but tensor has no dimensions")
  | _ => (i <- norm_dim (length (shape t)) d ;; Ok (nth i (shape t) 0))%res
  end.

(** [t.shape[i]] for a literal non-negative [i]: indexing a Python tuple. *)
Definition shape_at {A} (t : tensor A) (i : nat) : result nat :=
  match nth_error (shape t) i with
  | Some n => Ok n
  | None => Raise (IndexError "tuple index out of range")
  end.

(** ** Reshaping *)

Definition Zprod (l : list Z) : Z := fold_right Z.mul 1%Z l.

(** [t.view(dims...)]; one of the [dims] may be [-1] and is then inferred.
    The notebook calls it on contiguous tensors only. *)
Definition view {A} (t : tensor A) (dims : list Z) : result (tensor A) :=
  let n := Z.of_nat (numel (shape t)) in
  if existsb (fun d => (d <? -1)%Z) dims
  then Raise (RuntimeError "invalid shape dimension")
  else
    match count_occ Z.eq_dec dims (-1)%Z with
    | 0 =>
        if (Zprod dims =? n)%Z
        then Ok (mkT (map Z.to_nat dims) (data t))
        else Raise (RuntimeError "shape is invalid for input of this size")
    | 1 =>
        let known := Zprod (remove Z.eq_dec (-1)%Z dims) in
        if (known =? 0)%Z
        then Raise (RuntimeError "the unspecified dimension size -1 can be any value and is ambiguous")
        else if (n mod known =? 0)%Z
        then Ok (mkT (map (fun d => Z.to_nat (if (d =? -1)%Z then n / known else d)%Z) dims)
                     (data t))
        else Raise (RuntimeError "shape is invalid for input of this size")
    | _ => Raise (RuntimeError "only one dimension can be inferred")
    end.

(** Row-major position of a multi-index, and back. *)
Fixpoint ravel (sh idx : list nat) : nat :=
  match sh, idx with
  | _ :: sh', i :: idx' => i * numel sh' + ravel sh' idx'
  | _, _ => 0
  end.

Fixpoint unravel (sh : list nat) (k : nat) : list nat :=
  match sh with
  | [] => []
  | _ :: sh' => k / numel sh' :: unravel sh' (k mod numel sh')
  end.

Definition swap (i j : nat) (l : list nat) : list nat :=
  imap (fun k x => if k =? i then nth j l x else if k =? j then nth i l x else x) 0 l.

(** [t.transpose(d0, d1)], laid out afresh (as [.contiguous()] would). *)
Definition transpose {A} (t : tensor A) (d0 d1 : Z) : result (tensor A) :=
  (i <- norm_dim (length (shape t)) d0 ;;
   j <- norm_dim (length (shape t)) d1 ;;
   let sh' := swap i j (shape t) in
   Ok (mkT sh'
         (flat_map (fun k => match nth_error (data t) (ravel (shape t) (swap i j (unravel sh' k))) with
                             | Some a => [a]
                             | None => []
                             end)
                   (seq 0 (numel sh')))))%res.

(** [t.contiguous()]: the layout is already row-major. *)
Definition contiguous {A} (t : tensor A) : tensor A := t.

(** ** Reductions along the last axis *)

Definition last_dim (sh : list nat) : nat := last sh 1.

(** The rows of a tensor: its blocks along the last axis. *)
Definition rows_of {A} (t : tensor A) : list (list A) :=
  chunks (last_dim (shape t)) (numel (removelast (shape t))) (data t).

(** The shape of a reduction along the last axis with [keepdim=True]. *)
Definition keepdim_shape (sh : list nat) : list nat :=
  match sh with
  | [] => []
  | _ => removelast sh ++ [1]
  end.

Definition mean_row (row : list R) : R :=
  (Rsum row / INR (length row))%R.

(** [torch.std] defaults to the unbiased estimator (Bessel's correction).
    On a row of fewer than two elements [torch.std] returns [nan], a value
    [R] does not have: there [std_row] stands for nothing the code
    computes, and every statement made with it is about rows of at least
    two elements. *)
Definition std_row (row : list R) : R :=
  let m := mean_row row in
  sqrt (Rsum (map (fun x => (x - m) ^ 2) row) / INR (length row - 1))%R.

(** [t.mean(dim=-1, keepdim=True)] and [t.std(dim=-1, keepdim=True)]. *)
Definition mean_last (t : Tensor) : Tensor :=
  mkT (keepdim_shape (shape t)) (map mean_row (rows_of t)).

Definition std_last (t : Tensor) : Tensor :=
  mkT (keepdim_shape (shape t)) (map std_row (rows_of t)).

Definition softmax_row (row : list R) : list R :=
  let z := Rsum (map exp row) in
  map (fun x => exp x / z)%R row.

(** [t.softmax(dim=-1)]. *)
Definition softmax_last (t : Tensor) : Tensor :=
  mkT (shape t) (flat_map softmax_row (rows_of t)).

(** ** Matrix product *)

(** The product of an [n x m] and an [m x p] matrix, both row-major. *)
Definition mm (n m p : nat) (a b : list R) : list R :=
  flat_map
    (fun i => map (fun j => Rsum (map (fun k => nth (i * m + k) a 0 * nth (k * p + j) b 0)%R
                                      (seq 0 m)))
                  (seq 0 p))
    (seq 0 n).

(** [torch.matmul]: a 1-D first operand is a row, a 1-D second operand a
    column, and the leading (batch) dimensions broadcast. *)
Definition torch_matmul (a b : Tensor) : result Tensor :=
  match shape a, shape b with
  | [], _ | _, [] =>
      Raise (RuntimeError "both arguments to matmul need to be at least 1D")
  | _, _ =>
      let veca := length (shape a) =? 1 in
      let vecb := length (shape b) =? 1 in
      let sa := if veca then 1 :: shape a else shape a in
      let sb := if vecb then shape b ++ [1] else shape b in
      let ba := firstn (length sa - 2) sa in
      let bb := firstn (length sb - 2) sb in
      let n := nth (length sa - 2) sa 0 in
      let m := nth (length sa - 1) sa 0 in
      let m' := nth (length sb - 2) sb 0 in
      let p := nth (length sb - 1) sb 0 in
      if m =? m'
      then
        (bs <- broadcast_shapes ba bb ;;
         a' <- expand (mkT sa (data a)) (bs ++ [n; m]) ;;
         b' <- expand (mkT sb (data b)) (bs ++ [m; p]) ;;
         Ok (mkT (bs ++ (if veca then [] else [n]) ++ (if vecb then [] else [p]))
               (concat (map2 (mm n m p)
                             (chunks (n * m) (numel bs) (data a'))
                             (chunks (m * p) (numel bs) (data b'))))))%res
      else Raise (RuntimeError "mat1 and mat2 shapes cannot be multiplied")
  end.

(** ** Dropout *)

Record Dropout : Type := mkDropout { p : Q; training : bool }.

(** [nn.Dropout(p)]; a fresh module is in training mode. *)
Definition Dropout_init (p : Q) : result Dropout :=
  if Qle_bool 0 p && Qle_bool p 1
  then Ok (mkDropout p true)
  else Raise (ValueError "dropout probability has to be between 0 and 1").

(** Calling the module: the identity outside training, for [p = 0] and on
    empty tensors; otherwise each element is kept with probability [1 - p]
    and the survivors are scaled by [1 / (1 - p)]. *)
Definition Dropout_forward (d : Dropout) (x : Tensor) : M Tensor :=
  fun g =>
    if negb (training d) || Qeq_bool (p d) 0 || (length (data x) =? 0)
    then (Ok x, g)
    else if Qeq_bool (p d) 1
    then (Ok (tmap (fun v => v * 0)%R x), g)
    else
      let noise i :=
        ((if Qle_bool (p d) (uniform g (cursor g + i)) then 1 else 0) / Q2R (1 - p d))%R in
      (Ok (mkT (shape x) (imap (fun i v => v * noise i)%R 0 (data x))),
       mkRng (cursor g + length (data x)) (uniform g)).

(** ** Python objects reaching [masked_fill] *)

(** What the [mask] parameter of [attention] can be bound to: a boolean
    tensor, a module, or (after a comparison) a Python [bool]. *)
Inductive PyObj : Type :=
| PyBoolTensor (t : tensor bool)
| PyModule (d : Dropout)
| PyBool (b : bool).

(** [mask == 0].  On a boolean tensor it is elementwise; [nn.Module] does
    not define [__eq__], so a module compares by identity with the integer
    and the answer is the Python [False]. *)
Definition py_eq_zero (o : PyObj) : PyObj :=
  match o with
  | PyBoolTensor t => PyBoolTensor (tmap negb t)
  | PyModule _ => PyBool false
  | PyBool b => PyBool (negb b)
  end.

(** [t.masked_fill(mask, value)]: the mask must be a tensor; both operands
    broadcast. *)
Definition masked_fill (t : Tensor) (mask : PyObj) (value : R) : result Tensor :=
  match mask with
  | PyBoolTensor c => zip_with (fun x (b : bool) => if b then value else x) t c
  | _ => Raise (TypeError "masked_fill(): argument 'mask' must be Tensor")
  end.

(** ** Linear layers and embeddings *)

Record Linear : Type := mkLinear {
  in_features : nat;
  out_features : nat;
  weight : Tensor;          (* (out_features, in_features) *)
  lbias : option Tensor     (* (out_features) *)
}.

(** [nn.Linear(in_features, out_features, bias)].  The initial values of the
    parameters come from [w] and [b]. *)
Definition Linear_init (w b : nat -> R) (inf outf : Z) (use_bias : bool) : result Linear :=
  (i <- size_of_int "Trying to create tensor with negative dimension" inf ;;
   o <- size_of_int "Trying to create tensor with negative dimension" outf ;;
   Ok (mkLinear i o (tabulate [o; i] w)
                (if use_bias then Some (tabulate [o] b) else None)))%res.

Definition dot (u v : list R) : R := Rsum (map2 Rmult u v).

(** Calling the layer: [x @ weight^T + bias] on every row of [x]. *)
Definition Linear_forward (l : Linear) (x : Tensor) : result Tensor :=
  match shape x with
  | [] => Raise (RuntimeError "both arguments to linear need to be at least 1D")
  | sh =>
      if last_dim sh =? in_features l
      then
        let ws := chunks (in_features l) (out_features l) (data (weight l)) in
        let out_row row :=
          imap (fun j wrow =>
                  match lbias l with
                  | Some b => (dot row wrow + nth j (data b) 0)%R
                  | None => dot row wrow
                  end) 0 ws in
        Ok (mkT (removelast sh ++ [out_features l]) (flat_map out_row (rows_of x)))
      else Raise (RuntimeError "mat1 and mat2 shapes cannot be multiplied")
  end.

Record Embedding : Type := mkEmbedding {
  num_embeddings : nat;
  embedding_dim : nat;
  eweight : Tensor          (* (num_embeddings, embedding_dim) *)
}.

Definition Embedding_init (w : nat -> R) (num dim : Z) : result Embedding :=
  (n <- size_of_int "Trying to create tensor with negative dimension" num ;;
   d <- size_of_int "Trying to create tensor with negative dimension" dim ;;
   Ok (mkEmbedding n d (tabulate [n; d] w)))%res.

(** The rows that [index_select] copies from a table that holds elements:
    each index is checked in turn. *)
Fixpoint select_rows (e : Embedding) (ids : list Z) : result (list R) :=
  match ids with
  | [] => Ok []
  | id :: ids' =>
      if ((id <? 0) || (Z.of_nat (num_embeddings e) <=? id))%Z
      then Raise (IndexError "index out of range in self")
      else
        (rest <- select_rows e ids' ;;
         Ok (firstn (embedding_dim e)
                    (skipn (Z.to_nat id * embedding_dim e) (data (eweight e))) ++ rest))%res
  end.

Definition in_table (e : Embedding) (id : Z) : bool :=
  ((0 <=? id) && (id <? Z.of_nat (num_embeddings e)))%Z.

(** The lookup behind [nn.Embedding], [weight.index_select(0, ids)].
    Without any index nothing is checked.  A table without elements (no
    row, or rows of width 0) is handled apart: [index_select] refuses a
    table without rows and checks the indices against the number of rows,
    both with [RuntimeError]; there is nothing to copy. *)
Definition lookup_rows (e : Embedding) (ids : list Z) : result (list R) :=
  match ids with
  | [] => Ok []
  | _ :: _ =>
      if numel (shape (eweight e)) =? 0
      then
        if num_embeddings e =? 0
        then Raise (RuntimeError "index_select(): self indexing axis dim should be positive")
        else if forallb (in_table e) ids
        then Ok []
        else Raise (RuntimeError "INDICES element is out of DATA bounds")
      else select_rows e ids
  end.

(** Calling the embedding on a tensor of token ids. *)
Definition Embedding_forward (e : Embedding) (x : tensor Z) : result Tensor :=
  (d <- lookup_rows e (data x) ;;
   Ok (mkT (shape x ++ [embedding_dim e]) d))%res.

(** ** Strided column assignment *)

(** The number of indices selected by the slice [start::step] of an axis of
    length [n]. *)
Definition slice_len (n start step : nat) : nat :=
  (n - start + step - 1) / step.

(** The row [old] with [new] written at the positions [start::step]. *)
Definition set_strided {A} (start step : nat) (old new : list A) : list A :=
  imap (fun j o =>
          if (start <=? j) && ((j - start) mod step =? 0)
          then nth ((j - start) / step) new o
          else o) 0 old.

(** Leading dimensions of size 1 are dropped from the assigned value. *)
Fixpoint strip_ones (sh : list nat) : list nat :=
  match sh with
  | 1 :: sh' => strip_ones sh'
  | _ => sh
  end.

(** [t[:, start::step] = value] on a matrix [t]: the value is expanded to
    the shape of the selected sub-matrix, then copied.  The notebook assigns
    into the matrix [pe] only; a tensor of fewer dimensions has too many
    indices, and tensors of more than two dimensions are left out. *)
Definition setitem_cols (t : Tensor) (start : nat) (step : positive) (value : Tensor)
  : result Tensor :=
  match shape t with
  | [rows; cols] =>
      let cnt := slice_len cols start (Pos.to_nat step) in
      (v <- expand (mkT (strip_ones (shape value)) (data value)) [rows; cnt] ;;
       Ok (mkT [rows; cols]
             (concat (map2 (set_strided start (Pos.to_nat step))
                           (chunks cols rows (data t))
                           (chunks cnt rows (data v))))))%res
  | _ => Raise (IndexError "too many indices for tensor")
  end.

(* ================================================================== *)
(** * The modules of the notebook *)
(* ================================================================== *)

(** The initial value of every learned parameter, by parameter name and
    row-major position: what the framework's random initialisation chose.
    The random numbers that initialisation consumes are not counted in
    [Rng], which only feeds [nn.Dropout]. *)
Definition ParamInit : Type := string -> nat -> R.

(** [math.sqrt] of a Python [int]. *)
Definition math_sqrt (z : Z) : result R :=
  if (z <? 0)%Z then Raise (ValueError "math domain error") else Ok (sqrt (IZR z)).

(** ** InputEmbedding *)

Module InputEmbedding.

Record t : Type := mk {
  d_model : Z;
  vocab_size : Z;
  embedding : Embedding
}.

Definition init (theta : ParamInit) (d_model vocab_size : Z) : result t :=
  (e <- Embedding_init (theta "embedding.weight") vocab_size d_model ;;
   Ok (mk d_model vocab_size e))%res.

Definition forward (self : t) (x : tensor Z) : result Tensor :=
  (e <- Embedding_forward (embedding self) x ;;
   s <- math_sqrt (d_model self) ;;
   Ok (tmap (fun v => v * s)%R e))%res.

End InputEmbedding.

(** ** PositionalEncoding *)

Module PositionalEncoding.

Record t : Type := mk {
  d_model : Z;
  seq_len : Z;
  dropout : Dropout;
  pe : Tensor             (* the registered buffer, (1, seq_len, d_model) *)
}.

(** [-math.log(10000.0) / d_model]: a Python float divided by an [int]. *)
Definition neg_log_over (d_model : Z) : result R :=
  if (d_model =? 0)%Z
  then Raise (ZeroDivisionError "float division by zero")
  else Ok (- ln 10000 / IZR d_model)%R.

Definition init (d_model seq_len : Z) (dropout : Q) : result t :=
  (drop <- Dropout_init dropout ;;
   pe <- torch_zeros [seq_len; d_model] ;;
   ar <- torch_arange 0 seq_len 1 ;;
   position <- unsqueeze ar 1 ;;
   vector <- torch_arange 0 d_model 2 ;;
   c <- neg_log_over d_model ;;
   let denominator_harvard := tmap exp (tmap (fun v => v * c)%R vector) in
   even_arg <- zip_with Rmult position denominator_harvard ;;
   pe <- setitem_cols pe 0 2 (tmap sin even_arg) ;;
   odd_arg <- zip_with Rmult position denominator_harvard ;;
   pe <- setitem_cols pe 1 2 (tmap cos odd_arg) ;;
   pe <- unsqueeze pe 0 ;;
   Ok (mk d_model seq_len drop pe))%res.

(** [self.pe[:, :n]] on the buffer of shape (1, seq_len, d_model). *)
Definition pe_prefix (self : t) (n : nat) : Tensor :=
  match shape (pe self) with
  | [one; s; d] =>
      mkT [one; Nat.min n s; d]
          (flat_map (firstn (Nat.min n s * d)) (chunks (s * d) one (data (pe self))))
  | _ => pe self
  end.

Definition forward (self : t) (x : Tensor) : M Tensor :=
  (n <- lift (size x 1) ;;
   x <- lift (zip_with Rplus x (pe_prefix self n)) ;;
   Dropout_forward (dropout self) x)%M.

End PositionalEncoding.

(** ** LayerNormalization *)

Module LayerNormalization.

Record t : Type := mk {
  eps : R;
  alpha : Tensor;         (* nn.Parameter(torch.ones(1)) *)
  bias : Tensor           (* nn.Parameter(torch.zeros(1)) *)
}.

Definition default_eps : R := (1 / 1000000)%R.

Definition init (eps : R) : t := mk eps (mkT [1] [1%R]) (mkT [1] [0%R]).

(** The division is the total division of [R].  Where the code divides by
    zero it returns [nan] or [inf], values [R] does not have: the
    statements about [forward] are about rows whose divisor
    [std^2 + eps] is not zero. *)
Definition forward (self : t) (x : Tensor) : result Tensor :=
  let mean := mean_last x in
  let std := std_last x in
  (centred <- zip_with Rminus x mean ;;
   let denom := tmap (fun s => s ^ 2 + eps self)%R std in
   normed <- zip_with Rdiv centred denom ;;
   scaled <- zip_with Rmult (alpha self) normed ;;
   zip_with Rplus scaled (bias self))%res.

End LayerNormalization.

(** ** PositionWiseFeedForward *)

Module PositionWiseFeedForward.

Record t : Type := mk {
  linear1 : Linear;
  linear2 : Linear;
  dropout : Dropout
}.

Definition init (theta : ParamInit) (d_model d_ff : Z) (dropout : Q) : result t :=
  (l1 <- Linear_init (theta "linear1.weight") (theta "linear1.bias") d_model d_ff true ;;
   l2 <- Linear_init (theta "linear2.weight") (theta "linear2.bias") d_ff d_model true ;;
   drop <- Dropout_init dropout ;;
   Ok (mk l1 l2 drop))%res.

Definition relu (x : Tensor) : Tensor := tmap (Rmax 0) x.

Definition forward (self : t) (x : Tensor) : M Tensor :=
  (x <- lift (Linear_forward (linear1 self) x) ;;
   let x := relu x in
   x <- Dropout_forward (dropout self) x ;;
   lift (Linear_forward (linear2 self) x))%M.

End PositionWiseFeedForward.

(** ** MultiHeadAttentionBlock *)

Module MultiHeadAttentionBlock.

Record t : Type := mk {
  d_model : Z;
  h : Z;
  d_k : Z;
  wq : Linear;
  wk : Linear;
  wv : Linear;
  wo : Linear;
  dropout : Dropout
}.

Definition init (theta : ParamInit) (d_model h : Z) (dropout : Q) : result t :=
  if (h =? 0)%Z
  then Raise (ZeroDivisionError "integer division or modulo by zero")
  else if negb (d_model mod h =? 0)%Z
  then Raise (AssertionError "d_model is not divisible by h")
  else
    let d_k := (d_model / h)%Z in
    (wq <- Linear_init (theta "wq.weight") (theta "wq.bias") d_model d_model false ;;
     wk <- Linear_init (theta "wk.weight") (theta "wk.bias") d_model d_model false ;;
     wv <- Linear_init (theta "wv.weight") (theta "wv.bias") d_model d_model false ;;
     wo <- Linear_init (theta "wo.weight") (theta "wo.bias") d_model d_model false ;;
     drop <- Dropout_init dropout ;;
     Ok (mk d_model h d_k wq wk wv wo drop))%res.

(** The static method.  It returns the attended values and the
    probability matrix. *)
Definition attention (query key value : Tensor)
           (mask : option PyObj) (dropout : option Dropout) : M (Tensor * Tensor) :=
  (d_k <- lift (size query (-1)) ;;
   kt <- lift (transpose key (-2) (-1)) ;;
   qk <- lift (torch_matmul query kt) ;;
   let attention_scores := tmap (fun s => s / sqrt (INR d_k))%R qk in
   attention_scores <-
     match mask with
     | Some m => lift (masked_fill attention_scores (py_eq_zero m) (-1000000000)%R)
     | None => ret attention_scores
     end ;;
   let attention_scores := softmax_last attention_scores in
   attention_scores <-
     match dropout with
     | Some d => Dropout_forward d attention_scores
     | None => ret attention_scores
     end ;;
   out <- lift (torch_matmul attention_scores value) ;;
   ret (out, attention_scores))%M.

(** [t.view(t.shape[0], t.shape[1], self.h, self.d_k).transpose(1, 2)]. *)
Definition split_heads (self : t) (x : Tensor) : result Tensor :=
  (b <- shape_at x 0 ;;
   s <- shape_at x 1 ;;
   x <- view x [Z.of_nat b; Z.of_nat s; h self; d_k self] ;;
   transpose x 1 2)%res.

(** The result pairs the value returned with the probability matrix that
    the call leaves in [self.attention_scores].  The [mask] parameter is
    not mentioned by the body: the fourth positional argument of
    [attention] is [self.dropout]. *)
Definition forward (self : t) (q k v : Tensor) (mask : option PyObj)
  : M (Tensor * Tensor) :=
  (query <- lift (Linear_forward (wq self) q) ;;
   key <- lift (Linear_forward (wk self) k) ;;
   value <- lift (Linear_forward (wv self) v) ;;
   query <- lift (split_heads self query) ;;
   key <- lift (split_heads self key) ;;
   value <- lift (split_heads self value) ;;
   r <- attention query key value (Some (PyModule (dropout self))) None ;;
   let '(x, attention_scores) := r in
   xt <- lift (transpose x 1 2) ;;
   b <- lift (shape_at x 0) ;;
   x <- lift (view (contiguous xt) [Z.of_nat b; (-1)%Z; (h self * d_k self)%Z]) ;;
   out <- lift (Linear_forward (wo self) x) ;;
   ret (out, attention_scores))%M.

End MultiHeadAttentionBlock.

(** ** ResidualConnection *)

(** A positional argument of a constructor call: Python does not enforce
    the annotations, only the number of arguments. *)
Inductive PyArg : Type :=
| PyInt (z : Z)
| PyFloat (q : Q).

Definition float_of (a : PyArg) : Q :=
  match a with
  | PyInt z => inject_Z z
  | PyFloat q => q
  end.

Module ResidualConnection.

Record t : Type := mk {
  dropout : Dropout;
  norm : LayerNormalization.t
}.

(** [__init__(self, dropout)]. *)
Definition init (dropout : PyArg) : result t :=
  (drop <- Dropout_init (float_of dropout) ;;
   Ok (mk drop (LayerNormalization.init LayerNormalization.default_eps)))%res.

(** The call [ResidualConnection(args...)]: the positional arguments are
    bound to the parameters of [__init__] that follow [self]. *)
Definition new (args : list PyArg) : result t :=
  match args with
  | [] => Raise (TypeError "__init__() missing 1 required positional argument: 'dropout'")
  | [dropout] => init dropout
  | [_; _] => Raise (TypeError "__init__() takes 2 positional arguments but 3 were given")
  | _ => Raise (TypeError "__init__() takes 2 positional arguments but more were given")
  end.

Definition forward (self : t) (x : Tensor) (sublayer : Tensor -> M Tensor) : M Tensor :=
  (n <- lift (LayerNormalization.forward (norm self) x) ;;
   y <- sublayer n ;;
   y <- Dropout_forward (dropout self) y ;;
   lift (zip_with Rplus x y))%M.

End ResidualConnection.

(** ** EncoderBlock *)

(** A list comprehension over [range(n)] whose element may raise. *)
Fixpoint comprehension {A} (n : nat) (elt : result A) : result (list A) :=
  match n with
  | O => Ok []
  | S n' => (a <- elt ;; rest <- comprehension n' elt ;; Ok (a :: rest))%res
  end.

(** [l[i]] on a module list. *)
Definition getitem {A} (l : list A) (i : nat) : result A :=
  match nth_error l i with
  | Some a => Ok a
  | None => Raise (IndexError "index out of range")
  end.

Module EncoderBlock.

Record t : Type := mk {
  selfattn_block : MultiHeadAttentionBlock.t;
  feedforward_block : PositionWiseFeedForward.t;
  res_con : list ResidualConnection.t
}.

Definition init (features : Z) (selfattn_block : MultiHeadAttentionBlock.t)
           (feedforward_block : PositionWiseFeedForward.t) (dropout : Q) : result t :=
  (rcs <- comprehension 2 (ResidualConnection.new [PyInt features; PyFloat dropout]) ;;
   Ok (mk selfattn_block feedforward_block rcs))%res.

Definition forward (self : t) (x : Tensor) (src_mask : option PyObj) : M Tensor :=
  (rc0 <- lift (getitem (res_con self) 0) ;;
   x <- ResidualConnection.forward rc0 x
          (fun x => r <- MultiHeadAttentionBlock.forward (selfattn_block self) x x x src_mask ;;
                    ret (fst r)) ;;
   rc1 <- lift (getitem (res_con self) 1) ;;
   x <- ResidualConnection.forward rc1 x
          (PositionWiseFeedForward.forward (feedforward_block self)) ;;
   ret x)%M.

End EncoderBlock.

(** ** Encoder *)

Module Encoder.

Record t : Type := mk {
  layers : list EncoderBlock.t;
  norm : LayerNormalization.t
}.

Definition init (layers : list EncoderBlock.t) : t :=
  mk layers (LayerNormalization.init LayerNormalization.default_eps).

Fixpoint run_layers (ls : list EncoderBlock.t) (x : Tensor) (mask : option PyObj)
  : M Tensor :=
  match ls with
  | [] => ret x
  | layer :: ls' =>
      (x <- EncoderBlock.forward layer x mask ;; run_layers ls' x mask)%M
  end.

Definition forward (self : t) (x : Tensor) (mask : option PyObj) : M Tensor :=
  (x <- run_layers (layers self) x mask ;;
   lift (LayerNormalization.forward (norm self) x))%M.

End Encoder.

(** ** The end-to-end pipeline of the specification *)

(** Token ids through InputEmbedding, PositionalEncoding, one EncoderBlock
    and the Encoder's final normalisation: every module is constructed, then
    the forward calls are chained. *)
Definition end_to_end (theta : ParamInit) (d_model seq_len vocab_size h d_ff : Z)
           (dropout : Q) (ids : tensor Z) (mask : option PyObj) : M Tensor :=
  (emb <- lift (InputEmbedding.init theta d_model vocab_size) ;;
   pos <- lift (PositionalEncoding.init d_model seq_len dropout) ;;
   attn <- lift (MultiHeadAttentionBlock.init theta d_model h dropout) ;;
   ffn <- lift (PositionWiseFeedForward.init theta d_model d_ff dropout) ;;
   block <- lift (EncoderBlock.init d_model attn ffn dropout) ;;
   let encoder := Encoder.init [block] in
   x <- lift (InputEmbedding.forward emb ids) ;;
   x <- PositionalEncoding.forward pos x ;;
   Encoder.forward encoder x mask)%M.

(* ================================================================== *)
(** * Reference definitions for the statements below *)
(* ================================================================== *)

Module LayerNormalizationSpec.

(** The contract in the specification's words, for one row:
    [alpha * (x - mean) / (std^2 + eps) + bias]. *)
Definition normalized_row (a b e : R) (row : list R) : list R :=
  map (fun x => a * (x - mean_row row) / (std_row row ^ 2 + e) + b)%R row.

End LayerNormalizationSpec.

(** The row of the specification's worked example. *)
Definition example_row : list R := [1; 2; 3; 4]%R.

Module PositionalEncodingSpec.

(** The table in the specification's words: for even [i],
    [sin(pos / 10000^(i/d_model))]; for odd [i],
    [cos(pos / 10000^((i-1)/d_model))]. *)
Definition entry (d_model : Z) (pos i : nat) : R :=
  if Nat.even i
  then sin (INR pos / Rpower 10000 (INR i / IZR d_model))
  else cos (INR pos / Rpower 10000 (INR (i - 1) / IZR d_model)).

(** The shared divisor [exp(i * (-ln(10000) / d_model))], as a factor. *)
Definition divisor (d_model : Z) (i : nat) : R :=
  exp (INR i * (- ln 10000 / IZR d_model)).

(** The same entry through the shared divisor. *)
Definition entry_stable (d_model : Z) (pos i : nat) : R :=
  if Nat.even i
  then sin (INR pos * divisor d_model i)
  else cos (INR pos * divisor d_model (i - 1)).

End PositionalEncodingSpec.

(** The exception [masked_fill] raises on a mask that is not a tensor. *)
Definition mask_type_error : exn :=
  TypeError "masked_fill(): argument 'mask' must be Tensor".

(** A block as a successful construction with a positive number of heads
    leaves it: the heads tile the model width and the three input
    projections are square of that width. *)
Definition block_ready (blk : MultiHeadAttentionBlock.t) : Prop :=
  let d := Z.to_nat (MultiHeadAttentionBlock.d_model blk) in
  (0 < MultiHeadAttentionBlock.h blk)%Z
  /\ (0 <= MultiHeadAttentionBlock.d_k blk)%Z
  /\ (MultiHeadAttentionBlock.h blk * MultiHeadAttentionBlock.d_k blk
      = MultiHeadAttentionBlock.d_model blk)%Z
  /\ Forall (fun l => in_features l = d /\ out_features l = d)
        [MultiHeadAttentionBlock.wq blk; MultiHeadAttentionBlock.wk blk;
         MultiHeadAttentionBlock.wv blk].

(** [MultiHeadAttentionBlock.forward] with the call of the static method
    left open: everything before and after it, around [att]. *)
Definition forward_around (att : Tensor -> Tensor -> Tensor -> M (Tensor * Tensor))
           (self : MultiHeadAttentionBlock.t) (q k v : Tensor) : M (Tensor * Tensor) :=
  (query <- lift (Linear_forward (MultiHeadAttentionBlock.wq self) q) ;;
   key <- lift (Linear_forward (MultiHeadAttentionBlock.wk self) k) ;;
   value <- lift (Linear_forward (MultiHeadAttentionBlock.wv self) v) ;;
   query <- lift (MultiHeadAttentionBlock.split_heads self query) ;;
   key <- lift (MultiHeadAttentionBlock.split_heads self key) ;;
   value <- lift (MultiHeadAttentionBlock.split_heads self value) ;;
   r <- att query key value ;;
   let '(x, attention_scores) := r in
   xt <- lift (transpose x 1 2) ;;
   b <- lift (shape_at x 0) ;;
   x <- lift (view (contiguous xt)
                [Z.of_nat b; (-1)%Z;
                 (MultiHeadAttentionBlock.h self * MultiHeadAttentionBlock.d_k self)%Z]) ;;
   out <- lift (Linear_forward (MultiHeadAttentionBlock.wo self) x) ;;
   ret (out, attention_scores))%M.

(** A block of width 2 with one head, as [init theta 2 1 0] builds it. *)
Definition small_block (theta : ParamInit) : MultiHeadAttentionBlock.t :=
  MultiHeadAttentionBlock.mk 2 1 2
    (mkLinear 2 2 (tabulate [2; 2] (theta "wq.weight")) None)
    (mkLinear 2 2 (tabulate [2; 2] (theta "wk.weight")) None)
    (mkLinear 2 2 (tabulate [2; 2] (theta "wv.weight")) None)
    (mkLinear 2 2 (tabulate [2; 2] (theta "wo.weight")) None)
    (mkDropout 0 true).

(** A block of width 8 with four heads, as [init theta 8 4 0] builds it. *)
Definition wide_block (theta : ParamInit) : MultiHeadAttentionBlock.t :=
  MultiHeadAttentionBlock.mk 8 4 2
    (mkLinear 8 8 (tabulate [8; 8] (theta "wq.weight")) None)
    (mkLinear 8 8 (tabulate [8; 8] (theta "wk.weight")) None)
    (mkLinear 8 8 (tabulate [8; 8] (theta "wv.weight")) None)
    (mkLinear 8 8 (tabulate [8; 8] (theta "wo.weight")) None)
    (mkDropout 0 true).

Module ResidualConnectionSpec.

(** The contract in the specification's words,
    [x + dropout(sublayer(norm(x)))], evaluated from the inside out: the
    normalisation of [x] first, the sublayer on the normalised tensor, the
    dropout on the sublayer's result, and the sum with [x] last. *)
Definition pre_norm_residual (norm : Tensor -> result Tensor)
           (dropout sublayer : Tensor -> M Tensor) (x : Tensor) : M Tensor :=
  fun g =>
    match norm x with
    | Raise e => (Raise e, g)
    | Ok n =>
        match sublayer n g with
        | (Raise e, g1) => (Raise e, g1)
        | (Ok y, g1) =>
            match dropout y g1 with
            | (Raise e, g2) => (Raise e, g2)
            | (Ok z, g2) => (zip_with Rplus x z, g2)
            end
        end
    end.

End ResidualConnectionSpec.

(** The exception of a call [ResidualConnection(features, dropout)]. *)
Definition arity_error : exn :=
  TypeError "__init__() takes 2 positional arguments but 3 were given".

(** The argument of [sin] and [cos] that [PositionalEncoding.init] computes
    for position [r] and the [k]-th even column, from the two [arange]s. *)
Definition angle (c0 : R) (r k : nat) : R :=
  (IZR (0 + Z.of_nat r * 1) * exp (IZR (0 + Z.of_nat k * 2) * c0))%R.

Definition sin_row (c0 : R) (c r : nat) : list R :=
  map (fun k => sin (angle c0 r k)) (seq 0 c).

Definition cos_row (c0 : R) (c r : nat) : list R :=
  map (fun k => cos (angle c0 r k)) (seq 0 c).

(** Row [r] of the table once the even columns are written. *)
Definition half_row (c0 : R) (d r : nat) : list R :=
  set_strided 0 2 (repeat 0%R d) (sin_row c0 ((d + 1) / 2) r).

(** Row [r] of the finished table. *)
Definition table_row (c0 : R) (d r : nat) : list R :=
  set_strided 1 2 (half_row c0 d r) (cos_row c0 ((d + 1) / 2) r).

(** [dummyfn2] of the notebook.  [randn] stands for the values that
    [torch.randn(d_model, seq_len)] returns after [torch.manual_seed(42)];
    the generator state is the one the dropout of the call finds. *)
Definition dummyfn2 (randn : nat -> R) : M Tensor :=
  let seq_len := 4%Z in
  let d_model := 4%Z in
  let dropout := (2 # 10)%Q in
  let x := tabulate [Z.to_nat d_model; Z.to_nat seq_len] randn in
  (obj <- lift (PositionalEncoding.init d_model seq_len dropout) ;;
   PositionalEncoding.forward obj x)%M.

(** One row through a linear layer: [y_j = sum_i x_i * W[j][i] + b_j]. *)
Definition affine_row (l : Linear) (row : list R) : list R :=
  imap (fun j wrow =>
          match lbias l with
          | Some b => (dot row wrow + nth j (data b) 0)%R
          | None => dot row wrow
          end) 0
       (chunks (in_features l) (out_features l) (data (weight l))).

(** One position through the feed-forward block with its dropout off:
    [linear2(relu(linear1(row)))]. *)
Definition ffn_row (ffn : PositionWiseFeedForward.t) (row : list R) : list R :=
  affine_row (PositionWiseFeedForward.linear2 ffn)
    (map (Rmax 0) (affine_row (PositionWiseFeedForward.linear1 ffn) row)).

(** The scores [attention] computes before any masking:
    [matmul(query, key.transpose(-2, -1)) / sqrt(d_k)]. *)
Definition scaled_scores (query key : Tensor) : result Tensor :=
  (d_k <- size query (-1) ;;
   kt <- transpose key (-2) (-1) ;;
   qk <- torch_matmul query kt ;;
   Ok (tmap (fun s => s / sqrt (INR d_k))%R qk))%res.

(** The scores after [masked_fill(mask == 0, -1e9)] with a mask of their
    own shape, or as they are without a mask. *)
Definition masked_scores (mask : option (list bool)) (scores : list R) : list R :=
  match mask with
  | Some md => map2 (fun x (m : bool) => if m then x else (-1000000000)%R) scores md
  | None => scores
  end.

(** The [mask] argument of [attention] for a boolean mask of the scores'
    shape. *)
Definition mask_argument (sh : list nat) (mask : option (list bool)) : option PyObj :=
  match mask with
  | Some md => Some (PyBoolTensor (mkT sh md))
  | None => None
  end.

(** The concatenation of the heads in [MultiHeadAttentionBlock.forward]:
    [x.transpose(1, 2).contiguous().view(x.shape[0], -1, self.h * self.d_k)]. *)
Definition merge_heads (self : MultiHeadAttentionBlock.t) (x : Tensor) : result Tensor :=
  (xt <- transpose x 1 2 ;;
   b <- shape_at x 0 ;;
   view (contiguous xt)
        [Z.of_nat b; (-1)%Z;
         (MultiHeadAttentionBlock.h self * MultiHeadAttentionBlock.d_k self)%Z])%res.

(** Where [t.transpose(1, 2)] of a 4-dimensional tensor of shape
    [n0; n1; n2; n3] finds its element number [k]. *)
Definition transposed_from (n0 n1 n2 n3 k : nat) : nat :=
  ravel [n0; n1; n2; n3] (swap 1 2 (unravel [n0; n2; n1; n3] k)).

(* ================================================================== *)
(** * Facts about blocks, broadcasting and rows *)
(* ================================================================== *)

Section ListFacts.

Context {A : Type}.

Lemma chunks_length (n k : nat) (l : list A) : length (chunks n k l) = k.
Proof. revert l; induction k; intros; simpl; auto. Qed.

Lemma chunks_each (n k : nat) (l : list A) :
  length l = k * n -> Forall (fun c => length c = n) (chunks n k l).
Proof.
  revert l; induction k; intros l Hl; simpl; constructor.
  - rewrite length_firstn. simpl in Hl. lia.
  - apply IHk. rewrite length_skipn. simpl in Hl. lia.
Qed.

Lemma concat_chunks (n k : nat) (l : list A) :
  length l = k * n -> concat (chunks n k l) = l.
Proof.
  revert l; induction k; intros l Hl; simpl.
  - destruct l; [reflexivity | discriminate].
  - rewrite IHk by (rewrite length_skipn; simpl in Hl; lia).
    apply firstn_skipn.
Qed.

Lemma chunks_concat (n : nat) (rows : list (list A)) :
  Forall (fun c => length c = n) rows ->
  chunks n (length rows) (concat rows) = rows.
Proof.
  induction 1 as [|r rows Hr _ IH]; simpl; [reflexivity|].
  rewrite firstn_app, skipn_app, Hr, Nat.sub_diag, firstn_all2, skipn_all2 by lia.
  simpl. rewrite app_nil_r, IH. reflexivity.
Qed.

Lemma length_concat_rows (n : nat) (rows : list (list A)) :
  Forall (fun c => length c = n) rows -> length (concat rows) = length rows * n.
Proof.
  induction 1 as [|r rows Hr _ IH]; simpl; [reflexivity|].
  rewrite length_app, IH, Hr. reflexivity.
Qed.

Lemma flat_map_ext_Forall {B} (P : A -> Prop) (f g : A -> list B) (l : list A) :
  Forall P l -> (forall a, P a -> f a = g a) -> flat_map f l = flat_map g l.
Proof.
  induction 1 as [|a l Ha _ IH]; intros Hfg; simpl; [reflexivity|].
  rewrite (Hfg a Ha), IH by assumption. reflexivity.
Qed.

Lemma flat_map_id (l : list (list A)) : flat_map (fun c => c) l = concat l.
Proof. induction l; simpl; [reflexivity | now rewrite IHl]. Qed.

Lemma imap_length {B} (f : nat -> A -> B) (i : nat) (l : list A) :
  length (imap f i l) = length l.
Proof. revert i; induction l; intros; simpl; auto. Qed.

Lemma map2_length {B C} (f : A -> B -> C) (l1 : list A) (l2 : list B) :
  length (map2 f l1 l2) = Nat.min (length l1) (length l2).
Proof.
  revert l2; induction l1 as [|a l1 IH]; intros [|b l2]; simpl; auto.
Qed.

Lemma concat_repeat_single (a : A) (n : nat) : concat (repeat [a] n) = repeat a n.
Proof. induction n; simpl; [reflexivity | now rewrite IHn]. Qed.

End ListFacts.

Lemma numel_app (a b : list nat) : numel (a ++ b) = numel a * numel b.
Proof.
  induction a as [|x a IH]; simpl; [lia|]. rewrite IH. lia.
Qed.

Lemma numel_repeat_one (r : nat) : numel (repeat 1 r) = 1.
Proof. induction r; simpl; [reflexivity | rewrite IHr; reflexivity]. Qed.

Section Broadcasting.

Context {A : Type}.

Lemma expandable_refl (sh : list nat) : expandable sh sh = true.
Proof.
  induction sh as [|s sh IH]; simpl; [reflexivity|].
  now rewrite Nat.eqb_refl, IH.
Qed.

Lemma pad_left_same (sh : list nat) : pad_left (length sh) sh = sh.
Proof. unfold pad_left. now rewrite Nat.sub_diag. Qed.

Lemma bshape_rev_refl (l : list nat) : bshape_rev l l = Some l.
Proof.
  induction l as [|x l IH]; simpl; [reflexivity|].
  now rewrite IH, Nat.eqb_refl.
Qed.

Lemma broadcast_shapes_refl (sh : list nat) : broadcast_shapes sh sh = Ok sh.
Proof.
  unfold broadcast_shapes. now rewrite bshape_rev_refl, rev_involutive.
Qed.

(** Expanding to the shape a tensor already has changes nothing. *)
Lemma expand_data_id (sh : list nat) (d : list A) :
  length d = numel sh -> expand_data sh sh d = d.
Proof.
  revert d; induction sh as [|s sh IH]; intros d Hd; simpl; [reflexivity|].
  rewrite Nat.eqb_refl.
  rewrite flat_map_ext_Forall
    with (P := fun c => length c = numel sh) (g := fun c => c).
  - rewrite flat_map_id. apply concat_chunks. exact Hd.
  - apply chunks_each. exact Hd.
  - intros c Hc. apply IH. exact Hc.
Qed.

Lemma expand_same (sh : list nat) (d : list A) :
  length d = numel sh -> expand (mkT sh d) sh = Ok (mkT sh d).
Proof.
  intros Hd. unfold expand. simpl.
  now rewrite pad_left_same, expandable_refl, expand_data_id.
Qed.

(** A trailing axis of length 1 expanded to length [n]: every element is
    repeated [n] times. *)
Lemma expand_data_last (sh : list nat) (n : nat) (d : list A) :
  length d = numel sh ->
  expand_data (sh ++ [1]) (sh ++ [n]) d = flat_map (fun a => repeat a n) d.
Proof.
  revert d; induction sh as [|s sh IH]; intros d Hd.
  - simpl in Hd. destruct d as [|a [|b d]]; try discriminate.
    simpl. destruct n as [|[|n]]; simpl; try reflexivity.
    rewrite app_nil_r. f_equal. f_equal. now rewrite concat_repeat_single.
  - simpl. rewrite Nat.eqb_refl.
    rewrite flat_map_ext_Forall
      with (P := fun c => length c = numel sh) (g := flat_map (fun a => repeat a n)).
    + rewrite <- (concat_chunks (numel sh) s d) at 2 by exact Hd.
      rewrite numel_app. simpl. rewrite Nat.mul_1_r.
      generalize (chunks (numel sh) s d). intros cs.
      induction cs as [|c cs IHc]; simpl; [reflexivity|].
      now rewrite flat_map_app, IHc.
    + rewrite numel_app. simpl. rewrite Nat.mul_1_r. apply chunks_each. exact Hd.
    + intros c Hc. apply IH. exact Hc.
Qed.

Lemma expandable_last (sh : list nat) (n : nat) :
  expandable (sh ++ [1]) (sh ++ [n]) = true.
Proof.
  induction sh as [|s sh IH]; simpl.
  - now rewrite orb_true_r.
  - now rewrite Nat.eqb_refl, IH.
Qed.

(** A one-element tensor expanded to any shape fills it. *)
Lemma expand_data_scalar (tgt : list nat) (a : A) :
  expand_data (repeat 1 (length tgt)) tgt [a] = repeat a (numel tgt).
Proof.
  induction tgt as [|t tgt IH]; [reflexivity|].
  cbn [length repeat expand_data].
  rewrite numel_repeat_one.
  destruct (Nat.eqb_spec 1 t) as [<-|Hne].
  - simpl. rewrite app_nil_r, Nat.add_0_r. exact IH.
  - rewrite IH. clear. cbn [numel fold_right]. fold (numel tgt).
    induction t; simpl; [reflexivity|].
    now rewrite IHt, repeat_app.
Qed.

Lemma expandable_scalar (tgt : list nat) :
  expandable (repeat 1 (length tgt)) tgt = true.
Proof.
  induction tgt as [|t tgt IH]; simpl; [reflexivity|].
  now rewrite IH, orb_true_r.
Qed.

End Broadcasting.

Section ZipWith.

Context {A B C : Type}.
Variable f : A -> B -> C.

Lemma map2_app_repeat (row xs : list A) (m : B) (ys : list B) :
  map2 f (row ++ xs) (repeat m (length row) ++ ys)
  = map (fun v => f v m) row ++ map2 f xs ys.
Proof.
  induction row as [|v row IHr]; simpl; [reflexivity | now rewrite IHr].
Qed.

Lemma map2_rowwise (rows : list (list A)) (ms : list B) (d : nat) :
  Forall (fun c => length c = d) rows ->
  map2 f (concat rows) (flat_map (fun m => repeat m d) ms)
  = concat (map2 (fun row m => map (fun v => f v m) row) rows ms).
Proof.
  intros Hrows; revert ms.
  induction Hrows as [|row rows Hrow _ IH]; intros ms; [reflexivity|].
  destruct ms as [|m ms].
  - simpl. clear. generalize (row ++ concat rows). now intros [|? ?].
  - simpl. rewrite <- IH, <- Hrow. apply map2_app_repeat.
Qed.

Lemma map2_repeat_l (a : A) (n : nat) (l : list B) :
  length l <= n -> map2 f (repeat a n) l = map (f a) l.
Proof.
  revert n; induction l as [|b l IH]; intros [|n] Hn; simpl in *; try reflexivity; try lia.
  now rewrite IH by lia.
Qed.

Lemma map2_repeat_r (b : B) (n : nat) (l : list A) :
  length l <= n -> map2 f l (repeat b n) = map (fun v => f v b) l.
Proof.
  revert n; induction l as [|a l IH]; intros [|n] Hn; simpl in *; try reflexivity; try lia.
  now rewrite IH by lia.
Qed.

Lemma broadcast_shapes_last (sh : list nat) (d : nat) :
  broadcast_shapes (sh ++ [d]) (sh ++ [1]) = Ok (sh ++ [d]).
Proof.
  unfold broadcast_shapes. rewrite !rev_app_distr. simpl.
  rewrite bshape_rev_refl.
  destruct (Nat.eqb_spec d 1) as [->|_]; simpl; now rewrite rev_involutive.
Qed.

Lemma broadcast_shapes_one_l (sh : list nat) :
  sh <> [] -> broadcast_shapes [1] sh = Ok sh.
Proof.
  intros Hsh. unfold broadcast_shapes.
  destruct (rev sh) as [|y r] eqn:E.
  - apply (f_equal (@rev nat)) in E. rewrite rev_involutive in E. contradiction.
  - rewrite <- (rev_involutive sh), E. cbn [rev app bshape_rev].
    destruct (Nat.eqb_spec 1 y) as [<-|_]; reflexivity.
Qed.

Lemma broadcast_shapes_one_r (sh : list nat) :
  sh <> [] -> broadcast_shapes sh [1] = Ok sh.
Proof.
  intros Hsh. unfold broadcast_shapes.
  destruct (rev sh) as [|y r] eqn:E.
  - apply (f_equal (@rev nat)) in E. rewrite rev_involutive in E. contradiction.
  - rewrite <- (rev_involutive sh), E. cbn [rev app bshape_rev].
    destruct r as [|z r]; cbn [bshape_rev];
      (destruct (Nat.eqb_spec y 1) as [->|_]; reflexivity).
Qed.

Lemma pad_left_one (sh : list nat) :
  sh <> [] -> pad_left (length sh) [1] = repeat 1 (length sh).
Proof.
  intros Hsh. unfold pad_left. destruct sh as [|s sh]; [contradiction|].
  simpl. rewrite Nat.sub_0_r. now rewrite <- repeat_cons.
Qed.

(** A tensor against one value per row. *)
Lemma zip_with_rowwise (sh : list nat) (d : nat) (xd : list A) (md : list B) :
  length xd = numel sh * d -> length md = numel sh ->
  zip_with f (mkT (sh ++ [d]) xd) (mkT (sh ++ [1]) md)
  = Ok (mkT (sh ++ [d])
          (concat (map2 (fun row m => map (fun v => f v m) row)
                        (chunks d (numel sh) xd) md))).
Proof.
  intros Hx Hm. unfold zip_with. simpl.
  rewrite broadcast_shapes_last. simpl.
  rewrite expand_same by (rewrite numel_app; simpl; lia). simpl.
  unfold expand. simpl.
  replace (pad_left (length (sh ++ [d])) (sh ++ [1])) with (sh ++ [1])
    by (unfold pad_left; rewrite !length_app; simpl; now rewrite Nat.sub_diag).
  rewrite expandable_last. simpl.
  rewrite expand_data_last by exact Hm.
  rewrite <- (concat_chunks d (numel sh) xd) at 1 by exact Hx.
  rewrite map2_rowwise by (apply chunks_each; exact Hx).
  reflexivity.
Qed.

(** A one-element tensor against a tensor. *)
Lemma zip_with_scalar_l (a : A) (sh : list nat) (d : list B) :
  sh <> [] -> length d = numel sh ->
  zip_with f (mkT [1] [a]) (mkT sh d) = Ok (mkT sh (map (f a) d)).
Proof.
  intros Hsh Hd. unfold zip_with. simpl.
  rewrite broadcast_shapes_one_l by exact Hsh. simpl.
  unfold expand at 1. simpl.
  rewrite pad_left_one by exact Hsh.
  rewrite expandable_scalar, expand_data_scalar. simpl.
  rewrite expand_same by exact Hd. simpl.
  now rewrite map2_repeat_l by lia.
Qed.

Lemma zip_with_scalar_r (b : B) (sh : list nat) (d : list A) :
  sh <> [] -> length d = numel sh ->
  zip_with f (mkT sh d) (mkT [1] [b]) = Ok (mkT sh (map (fun v => f v b) d)).
Proof.
  intros Hsh Hd. unfold zip_with. simpl.
  rewrite broadcast_shapes_one_r by exact Hsh. simpl.
  rewrite expand_same by exact Hd. simpl.
  unfold expand. simpl.
  rewrite pad_left_one by exact Hsh.
  rewrite expandable_scalar, expand_data_scalar. simpl.
  now rewrite map2_repeat_r by lia.
Qed.

(** Two tensors of one shape. *)
Lemma zip_with_same (sh : list nat) (xd : list A) (yd : list B) :
  length xd = numel sh -> length yd = numel sh ->
  zip_with f (mkT sh xd) (mkT sh yd) = Ok (mkT sh (map2 f xd yd)).
Proof.
  intros Hx Hy. unfold zip_with. simpl.
  rewrite broadcast_shapes_refl. simpl.
  now rewrite !expand_same by assumption.
Qed.

End ZipWith.

(* ================================================================== *)
(** * The primitives on small inputs *)
(* ================================================================== *)

Example transpose_matrix :
  transpose (mkT [2; 3] [1; 2; 3; 4; 5; 6]) 0 1 = Ok (mkT [3; 2] [1; 4; 2; 5; 3; 6]).
Proof. reflexivity. Qed.

Example transpose_heads :
  transpose (mkT [1; 2; 2; 2] [1; 2; 3; 4; 5; 6; 7; 8]) 1 2
  = Ok (mkT [1; 2; 2; 2] [1; 2; 5; 6; 3; 4; 7; 8]).
Proof. reflexivity. Qed.

Example transpose_last_two :
  transpose (mkT [1; 2; 2; 2] [1; 2; 3; 4; 5; 6; 7; 8]) (-2) (-1)
  = Ok (mkT [1; 2; 2; 2] [1; 3; 2; 4; 5; 7; 6; 8]).
Proof. reflexivity. Qed.

Example view_inferred :
  view (mkT [2; 4] [1; 2; 3; 4; 5; 6; 7; 8]) [2; -1; 2]%Z
  = Ok (mkT [2; 2; 2] [1; 2; 3; 4; 5; 6; 7; 8]).
Proof. reflexivity. Qed.

Example view_refused :
  view (mkT [2; 4] [1; 2; 3; 4; 5; 6; 7; 8]) [3; -1]%Z
  = Raise (RuntimeError "shape is invalid for input of this size").
Proof. reflexivity. Qed.

Example broadcast_column_row :
  zip_with Nat.add (mkT [2; 1] [10; 20]) (mkT [3] [1; 2; 3])
  = Ok (mkT [2; 3] [11; 12; 13; 21; 22; 23]).
Proof. reflexivity. Qed.

Example broadcast_refused :
  zip_with Nat.add (mkT [2; 3] [1; 2; 3; 4; 5; 6]) (mkT [2] [10; 20])
  = Raise (RuntimeError "The size of tensor a must match the size of tensor b").
Proof. reflexivity. Qed.

Example expand_one_to_zero :
  expand (mkT [2; 1] [1; 2]) [2; 0] = Ok (mkT [2; 0] []).
Proof. reflexivity. Qed.

Example expand_two_to_one :
  expand (mkT [2; 2] [1; 2; 3; 4]) [2; 1]
  = Raise (RuntimeError "The expanded size of the tensor must match the existing size at non-singleton dimension").
Proof. reflexivity. Qed.

Example strided_even : set_strided 0 2 [0; 0; 0; 0; 0] [7; 8; 9] = [7; 0; 8; 0; 9].
Proof. reflexivity. Qed.

Example strided_odd : set_strided 1 2 [0; 0; 0; 0; 0] [7; 8] = [0; 7; 0; 8; 0].
Proof. reflexivity. Qed.

Example slice_lengths :
  (slice_len 5 0 2, slice_len 5 1 2, slice_len 4 1 2, slice_len 1 1 2) = (3, 2, 2, 0).
Proof. reflexivity. Qed.

Example matmul_identity (a b c d : R) :
  torch_matmul (mkT [2; 2] [1; 0; 0; 1]%R) (mkT [2; 2] [a; b; c; d])
  = Ok (mkT [2; 2] [1 * a + (0 * c + 0); 1 * b + (0 * d + 0);
                    0 * a + (1 * c + 0); 0 * b + (1 * d + 0)]%R).
Proof. reflexivity. Qed.

Example heads_must_be_positive (theta : ParamInit) (x : list R) :
  exists blk,
    MultiHeadAttentionBlock.init theta 8 (-4) 0 = Ok blk
    /\ MultiHeadAttentionBlock.split_heads blk (mkT [1; 1; 8] x)
       = Raise (RuntimeError "invalid shape dimension").
Proof. eexists. split; reflexivity. Qed.

(** Dropout with [p = 1/2]: the first element is dropped, the second kept
    and doubled; two samples are consumed. *)
Example dropout_half :
  Dropout_forward (mkDropout (1 # 2) true) (mkT [2] [2; 4]%R)
                  (mkRng 0 (fun i => if Nat.even i then 0%Q else 1%Q))
  = (Ok (mkT [2] [2 * (0 / Q2R (1 - (1 # 2))); 4 * (1 / Q2R (1 - (1 # 2)))]%R),
     mkRng 2 (fun i => if Nat.even i then 0%Q else 1%Q)).
Proof. reflexivity. Qed.

Example dropout_half_values :
  (2 * (0 / Q2R (1 - (1 # 2))) = 0 /\ 4 * (1 / Q2R (1 - (1 # 2))) = 8)%R.
Proof.
  replace (Q2R (1 - (1 # 2))) with (1 / 2)%R.
  - split; field.
  - unfold Q2R. simpl. lra.
Qed.

(* ================================================================== *)
(** * LayerNormalization *)
(* ================================================================== *)

Section LayerNormProofs.

Import LayerNormalization.

Lemma last_dim_app (sh : list nat) (d : nat) : last_dim (sh ++ [d]) = d.
Proof. unfold last_dim. apply last_last. Qed.

Lemma keepdim_shape_app (sh : list nat) (d : nat) :
  keepdim_shape (sh ++ [d]) = sh ++ [1].
Proof.
  unfold keepdim_shape. rewrite removelast_last.
  destruct sh; reflexivity.
Qed.

Lemma rows_of_app {A} (sh : list nat) (d : nat) (xd : list A) :
  rows_of (mkT (sh ++ [d]) xd) = chunks d (numel sh) xd.
Proof. unfold rows_of. simpl. now rewrite last_dim_app, removelast_last. Qed.

Lemma app_one_neq_nil (sh : list nat) (d : nat) : sh ++ [d] <> [].
Proof. destruct sh; discriminate. Qed.

Lemma concat_map2_rows {A B C} (g : A -> B -> C) (rows : list (list A)) (ms : list B) (d : nat) :
  Forall (fun c => length c = d) rows ->
  Forall (fun c => length c = d) (map2 (fun row m => map (fun v => g v m) row) rows ms).
Proof.
  intros H; revert ms; induction H as [|r rows Hr _ IH]; intros [|m ms]; simpl;
    constructor; [now rewrite length_map | apply IH].
Qed.

(** On each row the chain of broadcast operations of [forward] performs
    the row-wise normalisation. *)
Lemma forward_rows (a b e : R) (rows : list (list R)) :
  map (fun v => v + b)%R
    (map (Rmult a)
       (concat (map2 (fun row s => map (fun v => v / s)%R row)
                     (map2 (fun row m => map (fun v => v - m)%R row) rows (map mean_row rows))
                     (map (fun s => s ^ 2 + e)%R (map std_row rows)))))
  = flat_map (LayerNormalizationSpec.normalized_row a b e) rows.
Proof.
  induction rows as [|row rows IH]; [reflexivity|].
  cbn [map map2 concat flat_map].
  rewrite !map_app, IH. f_equal.
  unfold LayerNormalizationSpec.normalized_row.
  rewrite !map_map. apply map_ext. intros v.
  unfold Rdiv. ring.
Qed.

Lemma forward_correct (sh : list nat) (d : nat) (xd : list R) (a b e : R) :
  length xd = numel sh * d ->
  forward (mk e (mkT [1] [a]) (mkT [1] [b])) (mkT (sh ++ [d]) xd)
  = Ok (mkT (sh ++ [d])
          (flat_map (LayerNormalizationSpec.normalized_row a b e)
                    (chunks d (numel sh) xd))).
Proof.
  intros Hx. unfold forward, mean_last, std_last, tmap.
  cbn [eps alpha bias shape data].
  rewrite keepdim_shape_app, rows_of_app.
  set (rows := chunks d (numel sh) xd).
  assert (Hrows : Forall (fun c => length c = d) rows) by (apply chunks_each; exact Hx).
  assert (Hlen : length rows = numel sh) by apply chunks_length.
  rewrite zip_with_rowwise by (try exact Hx; now rewrite length_map).
  fold rows. cbn [rbind shape data].
  set (centred := map2 _ rows (map mean_row rows)).
  assert (Hc : Forall (fun c => length c = d) centred)
    by (apply concat_map2_rows; exact Hrows).
  assert (Hcl : length centred = numel sh)
    by (unfold centred; rewrite map2_length, length_map, Hlen; apply Nat.min_id).
  rewrite zip_with_rowwise
    by (rewrite ?length_map; rewrite ?(length_concat_rows Hc); congruence).
  rewrite <- Hcl, chunks_concat by exact Hc.
  cbn [rbind shape data].
  set (normed := map2 _ centred _).
  assert (Hn : Forall (fun c => length c = d) normed)
    by (apply concat_map2_rows; exact Hc).
  assert (Hnl : length normed = numel sh).
  { unfold normed. rewrite map2_length, !length_map, Hcl, Hlen. apply Nat.min_id. }
  rewrite zip_with_scalar_l;
    [| apply app_one_neq_nil
     | rewrite (length_concat_rows Hn), numel_app, Hnl; simpl; lia].
  cbn [rbind shape data].
  rewrite zip_with_scalar_r;
    [| apply app_one_neq_nil
     | rewrite length_map, (length_concat_rows Hn), numel_app, Hnl; simpl; lia].
  do 2 f_equal. apply forward_rows.
Qed.

End LayerNormProofs.

Section LayerNormExample.

Import LayerNormalization.
Local Open Scope R_scope.

Lemma example_mean : mean_row example_row = 5 / 2.
Proof. unfold mean_row, example_row, Rsum. simpl. lra. Qed.

Lemma example_var : std_row example_row ^ 2 = 5 / 3.
Proof.
  unfold std_row. rewrite example_mean.
  unfold example_row, Rsum. simpl fold_right. simpl length. simpl INR.
  rewrite pow2_sqrt; [cbn [map fold_right]; lra|].
  cbn [map fold_right]. apply Rmult_le_pos; [nra|].
  apply Rlt_le, Rinv_0_lt_compat. lra.
Qed.

(** The worked example: the divisor is [5/3 + eps], the unbiased variance
    plus [eps]. *)
Lemma example_forward :
  forward (init default_eps) (mkT [4%nat] example_row)
  = Ok (mkT [4%nat]
          [ (-3/2) / (5/3 + 1/1000000); (-1/2) / (5/3 + 1/1000000);
            (1/2) / (5/3 + 1/1000000); (3/2) / (5/3 + 1/1000000) ]).
Proof.
  unfold init. rewrite (forward_correct [] 4 example_row) by reflexivity.
  cbn [app numel fold_right chunks firstn skipn flat_map example_row].
  fold example_row. rewrite app_nil_r.
  unfold LayerNormalizationSpec.normalized_row.
  rewrite example_var, example_mean. unfold example_row, default_eps.
  cbn [map]. do 2 f_equal.
  repeat (apply (f_equal2 (@cons R)); [field; lra|]). reflexivity.
Qed.

End LayerNormExample.

(* ================================================================== *)
(** * PositionalEncoding *)
(* ================================================================== *)

Section TableFacts.

Context {A : Type}.

Lemma map2_app {B C} (f : A -> B -> C) (l1 a : list A) (l2 b : list B) :
  length l1 = length l2 ->
  map2 f (l1 ++ a) (l2 ++ b) = map2 f l1 l2 ++ map2 f a b.
Proof.
  revert l2; induction l1 as [|x l1 IH]; intros [|y l2] H; simpl in *;
    try discriminate; [reflexivity|].
  now rewrite IH by lia.
Qed.

Lemma map2_map_map {B C X} (f : A -> B -> C) (g1 : X -> A) (g2 : X -> B) (l : list X) :
  map2 f (map g1 l) (map g2 l) = map (fun x => f (g1 x) (g2 x)) l.
Proof. induction l; simpl; [reflexivity | now rewrite IHl]. Qed.

Lemma chunks_flat_map {X} (g : X -> list A) (n : nat) (l : list X) :
  (forall x, length (g x) = n) ->
  chunks n (length l) (flat_map g l) = map g l.
Proof.
  intros Hg. rewrite flat_map_concat_map.
  rewrite <- (length_map g l). apply chunks_concat.
  apply Forall_forall. intros c Hc. apply in_map_iff in Hc.
  destruct Hc as [x [<- _]]. apply Hg.
Qed.

Lemma nth_flat_map_rows (g : nat -> list A) (d s r i : nat) (dflt : A) :
  (forall x, length (g x) = d) -> r < s -> i < d ->
  nth (r * d + i) (flat_map g (seq 0 s)) dflt = nth i (g r) dflt.
Proof.
  intros Hg Hr Hi.
  assert (H : forall k o, r < k ->
            nth (r * d + i) (flat_map g (seq o k)) dflt = nth i (g (o + r)) dflt).
  { clear s Hr. induction r as [|r IH]; intros k o Hk.
    - destruct k; [lia|]. simpl. rewrite app_nth1 by (rewrite Hg; lia).
      now rewrite Nat.add_0_r.
    - destruct k; [lia|]. simpl. rewrite app_nth2 by (rewrite Hg; lia).
      rewrite Hg. replace (d + r * d + i - d) with (r * d + i) by lia.
      rewrite IH by lia. f_equal. f_equal. lia. }
  now rewrite H.
Qed.

Lemma imap_nth {B} (f : nat -> A -> B) (i j : nat) (l : list A) (d1 : B) (d2 : A) :
  j < length l -> nth j (imap f i l) d1 = f (i + j) (nth j l d2).
Proof.
  revert i j; induction l as [|a l IH]; intros i [|j] Hj; simpl in *; try lia.
  - now rewrite Nat.add_0_r.
  - rewrite IH by lia. f_equal. lia.
Qed.

Lemma set_strided_length (start step : nat) (old new : list A) :
  length (set_strided start step old new) = length old.
Proof. apply imap_length. Qed.

Lemma set_strided_nth (start step j : nat) (old new : list A) (dflt : A) :
  j < length old ->
  nth j (set_strided start step old new) dflt
  = if (start <=? j) && ((j - start) mod step =? 0)
    then nth ((j - start) / step) new (nth j old dflt)
    else nth j old dflt.
Proof.
  intros Hj. unfold set_strided. now rewrite imap_nth with (d2 := dflt).
Qed.

Lemma strip_ones_length (sh : list nat) : length (strip_ones sh) <= length sh.
Proof.
  induction sh as [|x sh IH]; simpl; [lia|].
  destruct x as [|[|x]]; simpl; lia.
Qed.

Lemma pad_left_strip_ones (sh : list nat) :
  pad_left (length sh) (strip_ones sh) = sh.
Proof.
  unfold pad_left. induction sh as [|x sh IH]; [reflexivity|].
  destruct x as [|[|x]]; cbn [strip_ones length];
    try (now rewrite Nat.sub_diag).
  pose proof (strip_ones_length sh).
  replace (S (length sh) - length (strip_ones sh))
    with (S (length sh - length (strip_ones sh))) by lia.
  cbn [repeat app]. now rewrite IH.
Qed.

(** A column against a row: the outer product. *)
Lemma zip_with_outer {B C} (f : A -> B -> C) (s c : nat) (xs : list A) (ys : list B) :
  length xs = s -> length ys = c ->
  zip_with f (mkT [s; 1] xs) (mkT [c] ys)
  = Ok (mkT [s; c] (flat_map (fun x => map (f x) ys) xs)).
Proof.
  intros Hx Hy. unfold zip_with. cbn [shape data].
  assert (Hb : broadcast_shapes [s; 1] [c] = Ok [s; c]).
  { unfold broadcast_shapes. cbn [rev app bshape_rev].
    destruct (Nat.eqb_spec 1 c) as [<-|_]; reflexivity. }
  rewrite Hb. cbn [rbind].
  assert (Hex : expand (mkT [s; 1] xs) [s; c]
                = Ok (mkT [s; c] (flat_map (fun a => repeat a c) xs))).
  { unfold expand. cbn [shape data length].
    change (pad_left 2 [s; 1]) with [s; 1].
    rewrite (expandable_last [s] c : expandable [s; 1] [s; c] = true).
    f_equal. f_equal. apply (expand_data_last [s] c xs). simpl. lia. }
  assert (He : expand (mkT [c] ys) [s; c] = Ok (mkT [s; c] (concat (repeat ys s)))).
  { unfold expand. cbn [shape data length].
    change (pad_left 2 [c]) with [1; c].
    cbn [expandable]. rewrite !Nat.eqb_refl, !orb_true_r. cbn [andb].
    f_equal. f_equal.
    cbn [expand_data]. rewrite Nat.eqb_refl.
    assert (Hc : flat_map (fun d : list B => d) (chunks 1 c ys) = ys).
    { rewrite flat_map_id. apply concat_chunks. lia. }
    destruct (Nat.eqb_spec 1 s) as [<-|_].
    - cbn [numel fold_right chunks flat_map repeat concat].
      rewrite Nat.mul_1_r, firstn_all2 by lia.
      rewrite Hc. reflexivity.
    - cbn [numel fold_right]. rewrite Hc. reflexivity. }
  rewrite Hex, He. cbn [rbind data]. f_equal. f_equal.
  subst s. clear Hb He Hex.
  induction xs as [|x xs IH]; [reflexivity|].
  cbn [flat_map length repeat concat].
  rewrite map2_app by (rewrite repeat_length; lia).
  rewrite IH. f_equal. apply map2_repeat_l. lia.
Qed.

End TableFacts.

Section PositionalEncodingProofs.

Import PositionalEncoding.

Lemma repeat_mul {A} (a : A) (s d : nat) :
  repeat a (s * d) = flat_map (fun _ => repeat a d) (seq 0 s).
Proof.
  generalize 0. induction s as [|s IH]; intros o; simpl; [reflexivity|].
  now rewrite repeat_app, (IH (S o)).
Qed.

Lemma chunks_flat_map_seq {A} (g : nat -> list A) (n s : nat) :
  (forall x, length (g x) = n) ->
  chunks n s (flat_map g (seq 0 s)) = map g (seq 0 s).
Proof.
  intros Hg. pose proof (chunks_flat_map g (seq 0 s) Hg) as H.
  now rewrite length_seq in H.
Qed.

Lemma length_flat_map_seq {A} (g : nat -> list A) (n s : nat) :
  (forall x, length (g x) = n) -> length (flat_map g (seq 0 s)) = s * n.
Proof.
  intros Hg. rewrite flat_map_concat_map.
  rewrite length_concat_rows with (n := n).
  - now rewrite length_map, length_seq.
  - apply Forall_forall. intros c Hc. apply in_map_iff in Hc.
    destruct Hc as [x [<- _]]. apply Hg.
Qed.

Lemma torch_zeros_matrix (s d : nat) :
  torch_zeros [Z.of_nat s; Z.of_nat d] = Ok (mkT [s; d] (repeat 0%R (s * d))).
Proof.
  unfold torch_zeros, sizes_of_ints, size_of_int.
  replace (Z.of_nat s <? 0)%Z with false by (symmetry; apply Z.ltb_ge; lia).
  replace (Z.of_nat d <? 0)%Z with false by (symmetry; apply Z.ltb_ge; lia).
  cbn [rbind]. rewrite !Nat2Z.id. cbn [numel fold_right].
  now rewrite Nat.mul_1_r.
Qed.

Lemma torch_arange_unit (s : nat) :
  torch_arange 0 (Z.of_nat s) 1
  = Ok (mkT [s] (map (fun k => IZR (0 + Z.of_nat k * 1)) (seq 0 s))).
Proof.
  unfold torch_arange.
  replace (Z.of_nat s <? 0)%Z with false by (symmetry; apply Z.ltb_ge; lia).
  replace (Z.to_nat ((Z.of_nat s - 0 + 1 - 1) / 1)) with s
    by (rewrite Z.div_1_r; lia).
  reflexivity.
Qed.

Lemma torch_arange_even (d : nat) :
  torch_arange 0 (Z.of_nat d) 2
  = Ok (mkT [(d + 1) / 2] (map (fun k => IZR (0 + Z.of_nat k * 2)) (seq 0 ((d + 1) / 2)))).
Proof.
  unfold torch_arange.
  replace (Z.of_nat d <? 0)%Z with false by (symmetry; apply Z.ltb_ge; lia).
  replace (Z.to_nat ((Z.of_nat d - 0 + 2 - 1) / 2)) with ((d + 1) / 2).
  - reflexivity.
  - replace (Z.of_nat d - 0 + 2 - 1)%Z with (Z.of_nat (d + 1)) by lia.
    change 2%Z with (Z.of_nat 2). now rewrite <- Nat2Z.inj_div, Nat2Z.id.
Qed.

(** The assignment [t[:, start::step] = value] for a matrix-shaped value:
    it succeeds exactly when the value expands to the selected columns. *)
Lemma setitem_cols_matrix (rows cols r c start : nat) (step : positive) (td vd : list R) :
  setitem_cols (mkT [rows; cols] td) start step (mkT [r; c] vd)
  = if expandable [r; c] [rows; slice_len cols start (Pos.to_nat step)]
    then Ok (mkT [rows; cols]
               (concat (map2 (set_strided start (Pos.to_nat step))
                          (chunks cols rows td)
                          (chunks (slice_len cols start (Pos.to_nat step)) rows
                             (expand_data [r; c]
                                [rows; slice_len cols start (Pos.to_nat step)] vd)))))
    else Raise (RuntimeError "The expanded size of the tensor must match the existing size at non-singleton dimension").
Proof.
  unfold setitem_cols, expand. cbn [shape data length].
  change (pad_left 2 (strip_ones [r; c]))
    with (pad_left (length [r; c]) (strip_ones [r; c])).
  rewrite (pad_left_strip_ones [r; c]).
  destruct (expandable [r; c] _); reflexivity.
Qed.

Lemma sin_row_length c0 c r : length (sin_row c0 c r) = c.
Proof. unfold sin_row. now rewrite length_map, length_seq. Qed.

Lemma cos_row_length c0 c r : length (cos_row c0 c r) = c.
Proof. unfold cos_row. now rewrite length_map, length_seq. Qed.

Lemma half_row_length c0 d r : length (half_row c0 d r) = d.
Proof. unfold half_row. now rewrite set_strided_length, repeat_length. Qed.

Lemma table_row_length c0 d r : length (table_row c0 d r) = d.
Proof. unfold table_row. now rewrite set_strided_length, half_row_length. Qed.

Lemma valid_dropout (p : Q) :
  (0 <= p)%Q -> (p <= 1)%Q -> Dropout_init p = Ok (mkDropout p true).
Proof.
  intros H0 H1. unfold Dropout_init.
  now rewrite (proj2 (Qle_bool_iff 0 p) H0), (proj2 (Qle_bool_iff p 1) H1).
Qed.

Lemma map_outer (g : R -> R) (pz e : nat -> R) (s c : nat) :
  map g (flat_map (fun x => map (Rmult x) (map e (seq 0 c))) (map pz (seq 0 s)))
  = flat_map (fun r => map (fun k => g (pz r * e k)%R) (seq 0 c)) (seq 0 s).
Proof.
  generalize (seq 0 s). intros l.
  induction l as [|r l IH]; simpl; [reflexivity|].
  now rewrite map_app, IH, !map_map.
Qed.

(** Everything [init] does up to and including the sine assignment, for
    sizes that are natural numbers and a width that is not zero. *)
Lemma init_up_to_sin (s d : nat) (p : Q) :
  (0 <= p)%Q -> (p <= 1)%Q -> 0 < d ->
  let c0 := (- ln 10000 / IZR (Z.of_nat d))%R in
  init (Z.of_nat d) (Z.of_nat s) p
  = (pe <- setitem_cols (mkT [s; d] (flat_map (half_row c0 d) (seq 0 s))) 1 2
             (mkT [s; (d + 1) / 2] (flat_map (cos_row c0 ((d + 1) / 2)) (seq 0 s))) ;;
     pe <- unsqueeze pe 0 ;;
     Ok (mk (Z.of_nat d) (Z.of_nat s) (mkDropout p true) pe))%res.
Proof.
  intros H0 H1 Hd c0. unfold init.
  rewrite valid_dropout by assumption. cbn [rbind].
  rewrite torch_zeros_matrix. cbn [rbind].
  rewrite torch_arange_unit. cbn [rbind].
  change (unsqueeze (mkT [s] ?x) 1) with (Ok (mkT [s; 1] x)). cbn [rbind].
  rewrite torch_arange_even. cbn [rbind].
  unfold neg_log_over.
  replace (Z.of_nat d =? 0)%Z with false by (symmetry; apply Z.eqb_neq; lia).
  cbn [rbind]. fold c0. unfold tmap. cbn [shape data].
  rewrite !map_map.
  rewrite zip_with_outer by (now rewrite length_map, length_seq).
  cbn [rbind shape data].
  rewrite !map_outer.
  change (flat_map _ (seq 0 s)) with (flat_map (sin_row c0 ((d + 1) / 2)) (seq 0 s)) at 1.
  change (flat_map _ (seq 0 s)) with (flat_map (cos_row c0 ((d + 1) / 2)) (seq 0 s)) at 2.
  rewrite setitem_cols_matrix.
  change (Pos.to_nat 2) with 2.
  replace (slice_len d 0 2) with ((d + 1) / 2)
    by (unfold slice_len; f_equal; lia).
  rewrite expandable_refl.
  rewrite expand_data_id
    by (rewrite length_flat_map_seq with (n := (d + 1) / 2);
        [simpl; lia | intros; apply sin_row_length]).
  cbn [rbind].
  rewrite repeat_mul.
  rewrite chunks_flat_map_seq by (intros; apply repeat_length).
  rewrite chunks_flat_map_seq by (intros; apply sin_row_length).
  rewrite map2_map_map.
  rewrite <- flat_map_concat_map.
  reflexivity.
Qed.

Lemma even_half (d : nat) : Nat.even d = true -> (d + 1) / 2 = d / 2.
Proof.
  intros H. apply Nat.even_spec in H. destruct H as [k ->].
  rewrite (Nat.mul_comm 2 k), Nat.div_add_l, Nat.div_mul by lia.
  simpl. lia.
Qed.

Lemma slice_len_odd_cols (d : nat) : 0 < d -> slice_len d 1 2 = d / 2.
Proof. intros Hd. unfold slice_len. f_equal. lia. Qed.

(** For an even width the cosine assignment fits and the table is built. *)
Lemma init_even (s d : nat) (p : Q) :
  (0 <= p)%Q -> (p <= 1)%Q -> 0 < d -> Nat.even d = true ->
  init (Z.of_nat d) (Z.of_nat s) p
  = Ok (mk (Z.of_nat d) (Z.of_nat s) (mkDropout p true)
          (mkT [1; s; d]
             (flat_map (table_row (- ln 10000 / IZR (Z.of_nat d)) d) (seq 0 s)))).
Proof.
  intros H0 H1 Hd He. rewrite init_up_to_sin by assumption.
  set (c0 := (- ln 10000 / IZR (Z.of_nat d))%R).
  rewrite setitem_cols_matrix. change (Pos.to_nat 2) with 2.
  rewrite slice_len_odd_cols by exact Hd.
  rewrite even_half by exact He.
  rewrite expandable_refl.
  rewrite expand_data_id
    by (rewrite length_flat_map_seq with (n := d / 2);
        [simpl; lia | intros; apply cos_row_length]).
  cbn [rbind].
  rewrite chunks_flat_map_seq by (intros; apply half_row_length).
  rewrite chunks_flat_map_seq by (intros; apply cos_row_length).
  rewrite map2_map_map, <- flat_map_concat_map.
  unfold table_row. rewrite even_half by exact He.
  reflexivity.
Qed.

(** For an odd width of at least 3 the cosine assignment is refused: the
    value has one column more than the odd columns of the table. *)
Lemma init_odd (s d : nat) (p : Q) :
  (0 <= p)%Q -> (p <= 1)%Q -> 3 <= d -> Nat.odd d = true ->
  init (Z.of_nat d) (Z.of_nat s) p
  = Raise (RuntimeError "The expanded size of the tensor must match the existing size at non-singleton dimension").
Proof.
  intros H0 H1 Hd Ho. rewrite init_up_to_sin by (assumption || lia).
  rewrite setitem_cols_matrix. change (Pos.to_nat 2) with 2.
  rewrite slice_len_odd_cols by lia.
  apply Nat.odd_spec in Ho. destruct Ho as [k ->].
  replace ((2 * k + 1 + 1) / 2) with (S k)
    by (replace (2 * k + 1 + 1) with (S k * 2) by lia; now rewrite Nat.div_mul).
  replace ((2 * k + 1) / 2) with k
    by (rewrite (Nat.mul_comm 2 k), Nat.div_add_l by lia; simpl; lia).
  cbn [expandable].
  replace (S k =? k) with false by (symmetry; apply Nat.eqb_neq; lia).
  replace (S k =? 1) with false by (symmetry; apply Nat.eqb_neq; lia).
  rewrite andb_false_r. reflexivity.
Qed.

Lemma flat_map_repeat_zero {A} (l : list A) :
  flat_map (fun a => repeat a 0) l = [].
Proof. induction l; simpl; auto. Qed.

Lemma chunks_of_nil {A} (s o : nat) :
  chunks 0 s (@nil A) = map (fun _ => @nil A) (seq o s).
Proof.
  revert o; induction s as [|s IH]; intros o; simpl; [reflexivity|].
  now rewrite (IH (S o)).
Qed.

(** For a width of 1 the single cosine column expands to the empty set of
    odd columns, and the assignment writes nothing. *)
Lemma init_one (s : nat) (p : Q) :
  (0 <= p)%Q -> (p <= 1)%Q ->
  init 1 (Z.of_nat s) p
  = Ok (mk 1 (Z.of_nat s) (mkDropout p true)
          (mkT [1; s; 1] (flat_map (half_row (- ln 10000 / 1) 1) (seq 0 s)))).
Proof.
  intros H0 H1. change 1%Z with (Z.of_nat 1) at 1.
  rewrite init_up_to_sin by (assumption || lia).
  change (IZR (Z.of_nat 1)) with 1%R.
  set (c0 := (- ln 10000 / 1)%R).
  rewrite setitem_cols_matrix. change (Pos.to_nat 2) with 2.
  change (slice_len 1 1 2) with 0. change ((1 + 1) / 2) with 1.
  rewrite (expandable_last [s] 0 : expandable [s; 1] [s; 0] = true).
  rewrite (expand_data_last [s] 0)
    by (rewrite length_flat_map_seq with (n := 1);
        [simpl; lia | intros; apply cos_row_length]).
  cbn [rbind].
  rewrite chunks_flat_map_seq by (intros; apply half_row_length).
  rewrite flat_map_repeat_zero, (chunks_of_nil s 0).
  rewrite map2_map_map, <- flat_map_concat_map.
  reflexivity.
Qed.

Lemma nth_map_seq {A} (f : nat -> A) (c k : nat) (dflt : A) :
  k < c -> nth k (map f (seq 0 c)) dflt = f k.
Proof.
  intros Hk. rewrite nth_indep with (d' := f 0) by (now rewrite length_map, length_seq).
  rewrite map_nth, seq_nth by exact Hk. reflexivity.
Qed.

Lemma even_mod2 (i : nat) : Nat.even i = true -> i mod 2 = 0.
Proof.
  intros H. apply Nat.even_spec in H. destruct H as [k ->].
  now rewrite Nat.mul_comm, Nat.Div0.mod_mul.
Qed.

Lemma odd_mod2 (i : nat) : Nat.even i = false -> i mod 2 = 1.
Proof.
  intros H. assert (Ho : Nat.odd i = true) by (unfold Nat.odd; now rewrite H).
  apply Nat.odd_spec in Ho. destruct Ho as [k ->].
  rewrite Nat.add_comm, Nat.mul_comm, Nat.Div0.mod_add. reflexivity.
Qed.

(** The entries of a finished row, by the parity of the column. *)
Lemma table_row_nth (c0 : R) (d r i : nat) :
  Nat.even d = true -> i < d ->
  nth i (table_row c0 d r) 0%R
  = if Nat.even i then sin (angle c0 r (i / 2)) else cos (angle c0 r ((i - 1) / 2)).
Proof.
  intros He Hi. unfold table_row.
  rewrite set_strided_nth by (now rewrite half_row_length).
  unfold half_row at 2. rewrite set_strided_nth by (now rewrite repeat_length).
  rewrite Nat.sub_0_r. change (0 <=? i) with true. cbn [andb].
  assert (Hd2 : d mod 2 = 0) by (apply even_mod2; exact He).
  assert (Hc : (d + 1) / 2 = d / 2) by (apply even_half; exact He).
  pose proof (Nat.div_mod_eq d 2) as Hdd.
  pose proof (Nat.div_mod_eq i 2) as Hii.
  destruct (Nat.even i) eqn:Ei.
  - pose proof (even_mod2 i Ei) as Hi2. rewrite Hi2. cbn [Nat.eqb].
    assert (Hn : (1 <=? i) && ((i - 1) mod 2 =? 0) = false).
    { destruct i as [|i]; [reflexivity|]. cbn [Nat.leb andb].
      apply Nat.eqb_neq. replace (S i - 1) with i by lia.
      pose proof (Nat.div_mod_eq i 2). pose proof (Nat.mod_upper_bound i 2).
      lia. }
    rewrite Hn. unfold sin_row. rewrite nth_map_seq by lia. reflexivity.
  - pose proof (odd_mod2 i Ei) as Hi2.
    assert (Hy : (1 <=? i) && ((i - 1) mod 2 =? 0) = true).
    { destruct i as [|i]; [discriminate|]. cbn [Nat.leb andb].
      apply Nat.eqb_eq. replace (S i - 1) with i by lia.
      pose proof (Nat.div_mod_eq i 2). pose proof (Nat.mod_upper_bound i 2).
      lia. }
    rewrite Hy. unfold cos_row.
    pose proof (Nat.div_mod_eq (i - 1) 2).
    pose proof (Nat.mod_upper_bound (i - 1) 2).
    rewrite nth_map_seq by lia. reflexivity.
Qed.

Lemma Rpower_divisor (dz : Z) (i : nat) :
  (/ Rpower 10000 (INR i / IZR dz) = PositionalEncodingSpec.divisor dz i)%R.
Proof.
  unfold PositionalEncodingSpec.divisor, Rpower.
  rewrite <- exp_Ropp. f_equal. unfold Rdiv. ring.
Qed.

Lemma angle_even (dz : Z) (r i : nat) :
  Nat.even i = true ->
  (angle (- ln 10000 / IZR dz) r (i / 2) = INR r * PositionalEncodingSpec.divisor dz i)%R.
Proof.
  intros Ei. unfold angle, PositionalEncodingSpec.divisor.
  rewrite !INR_IZR_INZ. f_equal; [f_equal; lia|].
  f_equal. f_equal. f_equal.
  pose proof (even_mod2 i Ei). pose proof (Nat.div_mod_eq i 2). lia.
Qed.

Lemma angle_odd (dz : Z) (r i : nat) :
  Nat.even i = false ->
  (angle (- ln 10000 / IZR dz) r ((i - 1) / 2)
   = INR r * PositionalEncodingSpec.divisor dz (i - 1))%R.
Proof.
  intros Ei. unfold angle, PositionalEncodingSpec.divisor.
  rewrite !INR_IZR_INZ. f_equal; [f_equal; lia|].
  f_equal. f_equal. f_equal.
  pose proof (odd_mod2 i Ei). pose proof (Nat.div_mod_eq i 2).
  pose proof (Nat.div_mod_eq (i - 1) 2). pose proof (Nat.mod_upper_bound (i - 1) 2).
  assert ((i - 1) mod 2 = 0); [|lia].
  destruct i as [|i]; [discriminate|]. replace (S i - 1) with i in * by lia.
  pose proof (Nat.mod_upper_bound i 2). lia.
Qed.

(** The two readings of the specification's formula agree. *)
Lemma entry_stable_eq (dz : Z) (pos i : nat) :
  PositionalEncodingSpec.entry dz pos i = PositionalEncodingSpec.entry_stable dz pos i.
Proof.
  unfold PositionalEncodingSpec.entry, PositionalEncodingSpec.entry_stable.
  destruct (Nat.even i); unfold Rdiv at 1; now rewrite Rpower_divisor.
Qed.

Lemma table_row_entry (dz : Z) (d r i : nat) :
  Nat.even d = true -> i < d ->
  nth i (table_row (- ln 10000 / IZR dz) d r) 0%R = PositionalEncodingSpec.entry dz r i.
Proof.
  intros He Hi. rewrite table_row_nth by assumption.
  rewrite entry_stable_eq. unfold PositionalEncodingSpec.entry_stable.
  destruct (Nat.even i) eqn:Ei.
  - now rewrite angle_even.
  - now rewrite angle_odd.
Qed.

(** At position 0 both arguments vanish. *)
Lemma entry_position_zero (dz : Z) (i : nat) :
  PositionalEncodingSpec.entry dz 0 i = if Nat.even i then 0%R else 1%R.
Proof.
  rewrite entry_stable_eq. unfold PositionalEncodingSpec.entry_stable.
  destruct (Nat.even i); simpl INR; rewrite Rmult_0_l; [apply sin_0 | apply cos_0].
Qed.

(** Construction succeeds only on a valid probability, a non-negative
    length and a positive width. *)
Lemma init_ok_inv (d_model seq_len : Z) (p : Q) (t : PositionalEncoding.t) :
  init d_model seq_len p = Ok t ->
  (0 <= p)%Q /\ (p <= 1)%Q /\ (0 <= seq_len)%Z /\ (0 < d_model)%Z.
Proof.
  unfold init, Dropout_init, torch_zeros, sizes_of_ints, size_of_int.
  destruct (Qle_bool 0 p) eqn:E0; [|discriminate].
  destruct (Qle_bool p 1) eqn:E1; [|discriminate].
  cbn [andb rbind].
  destruct (seq_len <? 0)%Z eqn:Es; [discriminate|].
  destruct (d_model <? 0)%Z eqn:Ed; [discriminate|].
  cbn [rbind]. unfold torch_arange. rewrite Es, Ed. cbn [rbind].
  change (unsqueeze (mkT [?n] ?x) 1) with (Ok (mkT [n; 1] x)). cbn [rbind].
  unfold neg_log_over.
  destruct (d_model =? 0)%Z eqn:Ez; [discriminate|].
  intros _. apply Qle_bool_iff in E0. apply Qle_bool_iff in E1.
  apply Z.ltb_ge in Es. apply Z.ltb_ge in Ed. apply Z.eqb_neq in Ez.
  repeat split; try assumption. lia.
Qed.

Lemma even_to_nat (z : Z) : (0 <= z)%Z -> Z.even z = true -> Nat.even (Z.to_nat z) = true.
Proof.
  intros Hz He. apply Z.even_spec in He. destruct He as [k ->].
  apply Nat.even_spec. exists (Z.to_nat k). lia.
Qed.

Lemma odd_to_nat (z : Z) : (0 <= z)%Z -> Z.odd z = true -> Nat.odd (Z.to_nat z) = true.
Proof.
  intros Hz He. apply Z.odd_spec in He. destruct He as [k ->].
  apply Nat.odd_spec. exists (Z.to_nat k). lia.
Qed.

End PositionalEncodingProofs.

(* ================================================================== *)
(** * The claims about LayerNormalization and PositionalEncoding *)
(* ================================================================== *)

Lemma close_to (x t : R) : (t - 1 / 1000000 < x < t + 1 / 1000000)%R ->
  (Rabs (x - t) < 1 / 1000000)%R.
Proof. intros [H1 H2]. apply Rabs_def1; lra. Qed.

Lemma wf_rows {A} (sh : list nat) (d : nat) (xd : list A) :
  wf (mkT (sh ++ [d]) xd) <-> length xd = numel sh * d.
Proof.
  unfold wf. cbn [shape data]. rewrite numel_app. simpl. rewrite Nat.mul_1_r.
  reflexivity.
Qed.

(** The divisor of a row is positive as soon as [eps] is. *)
Lemma divisor_nonzero (e : R) (rows : list (list R)) :
  (0 < e)%R -> Forall (fun row => (std_row row ^ 2 + e)%R <> 0%R) rows.
Proof.
  intros He. apply Forall_forall. intros row _.
  pose proof (pow2_ge_0 (std_row row)). lra.
Qed.

(** C5: on every input of shape (..., d_model) whose rows have at least
    two elements (so that the standard deviation exists) and a divisor
    [std^2 + eps] that is not zero, [LayerNormalization.forward] returns,
    row by row along the last axis,
    [alpha * (x - mean) / (std^2 + eps) + bias], where [mean] and [std] are
    the mean and the (unbiased) standard deviation of the row: the divisor
    is the square of [std] plus [eps].  With [alpha = 1], [bias = 0] and
    [eps = 1e-6] the row [1,2,3,4] becomes [-1.5,-0.5,0.5,1.5] divided by
    [5/3 + eps], which is within [1e-6] of [-0.9,-0.3,0.3,0.9]. *)
Theorem layer_norm_contract (sh : list nat) (d : nat) (xd : list R) (a b e : R) :
  wf (mkT (sh ++ [d]) xd) ->
  2 <= d ->
  Forall (fun row => (std_row row ^ 2 + e)%R <> 0%R) (chunks d (numel sh) xd) ->
  LayerNormalization.forward
    (LayerNormalization.mk e (mkT [1] [a]) (mkT [1] [b])) (mkT (sh ++ [d]) xd)
  = Ok (mkT (sh ++ [d])
          (flat_map (LayerNormalizationSpec.normalized_row a b e)
                    (chunks d (numel sh) xd)))
  /\ (exists y0 y1 y2 y3 : R,
        LayerNormalization.forward
          (LayerNormalization.init LayerNormalization.default_eps) (mkT [4] example_row)
        = Ok (mkT [4] [y0; y1; y2; y3])
        /\ y0 = ((-3/2) / (std_row example_row ^ 2 + 1/1000000))%R
        /\ (std_row example_row ^ 2 = 5 / 3)%R
        /\ (Rabs (y0 - (-9/10)) < 1/1000000)%R
        /\ (Rabs (y1 - (-3/10)) < 1/1000000)%R
        /\ (Rabs (y2 - 3/10) < 1/1000000)%R
        /\ (Rabs (y3 - 9/10) < 1/1000000)%R).
Proof.
  intros Hx _ _. apply wf_rows in Hx.
  split; [apply forward_correct; exact Hx|].
  eexists _, _, _, _. split; [apply example_forward|].
  rewrite example_var.
  repeat split; try reflexivity; apply close_to; lra.
Qed.

Lemma layer_norm_contract_witness :
  LayerNormalization.forward
    (LayerNormalization.mk (1 / 1000000) (mkT [1] [1%R]) (mkT [1] [0%R]))
    (mkT ([2] ++ [2]) [1; 2; 3; 4]%R)
  = Ok (mkT ([2] ++ [2])
          (flat_map (LayerNormalizationSpec.normalized_row 1 0 (1 / 1000000))
                    (chunks 2 (numel [2]) [1; 2; 3; 4]%R))).
Proof.
  refine (proj1 (@layer_norm_contract [2] 2 [1; 2; 3; 4]%R 1 0 (1 / 1000000)%R
                   eq_refl _ _)).
  - lia.
  - apply divisor_nonzero. lra.
Defined.

Lemma init_even_Z (d_model seq_len : Z) (p : Q) :
  (0 <= p)%Q -> (p <= 1)%Q -> (0 <= seq_len)%Z -> (0 < d_model)%Z ->
  Z.even d_model = true ->
  PositionalEncoding.init d_model seq_len p
  = Ok (PositionalEncoding.mk d_model seq_len (mkDropout p true)
          (mkT [1; Z.to_nat seq_len; Z.to_nat d_model]
             (flat_map (table_row (- ln 10000 / IZR d_model) (Z.to_nat d_model))
                       (seq 0 (Z.to_nat seq_len))))).
Proof.
  intros H0 H1 Hs Hd He.
  pose proof (@init_even (Z.to_nat seq_len) (Z.to_nat d_model) p H0 H1) as H.
  rewrite !Z2Nat.id in H by lia.
  apply H; [lia | apply even_to_nat; [lia | exact He]].
Qed.

(** C6: for every even d_model and every seq_len, the table that
    [PositionalEncoding.init] builds has, at position [pos] and column [i],
    [sin(pos / 10000^(i/d_model))] for even [i] and
    [cos(pos / 10000^((i-1)/d_model))] for odd [i]; this is the value
    obtained through the shared divisor [exp(i * (-ln(10000)/d_model))];
    and the row at position 0 is [0, 1, 0, 1, ...].  The table is built
    whenever the dropout probability is valid, the length is not negative
    and the width is positive. *)
Theorem positional_encoding_table (d_model seq_len : Z) (p : Q) :
  Z.even d_model = true ->
  ((0 <= p)%Q -> (p <= 1)%Q -> (0 <= seq_len)%Z -> (0 < d_model)%Z ->
   exists t, PositionalEncoding.init d_model seq_len p = Ok t)
  /\ (forall t, PositionalEncoding.init d_model seq_len p = Ok t ->
      shape (PositionalEncoding.pe t) = [1; Z.to_nat seq_len; Z.to_nat d_model]
      /\ (forall pos i, pos < Z.to_nat seq_len -> i < Z.to_nat d_model ->
          nth (pos * Z.to_nat d_model + i) (data (PositionalEncoding.pe t)) 0%R
          = PositionalEncodingSpec.entry d_model pos i
          /\ PositionalEncodingSpec.entry d_model pos i
             = PositionalEncodingSpec.entry_stable d_model pos i)
      /\ (forall i, 0 < Z.to_nat seq_len -> i < Z.to_nat d_model ->
          nth i (data (PositionalEncoding.pe t)) 0%R
          = if Nat.even i then 0%R else 1%R)).
Proof.
  intros He. split.
  - intros H0 H1 Hs Hd. eexists. apply init_even_Z; assumption.
  - intros t Ht.
    destruct (@init_ok_inv _ _ _ _ Ht) as (H0 & H1 & Hs & Hd).
    rewrite init_even_Z in Ht by assumption.
    injection Ht as <-. cbn [PositionalEncoding.pe shape data].
    assert (Hen : Nat.even (Z.to_nat d_model) = true)
      by (apply even_to_nat; [lia | exact He]).
    assert (Hnth : forall pos i, pos < Z.to_nat seq_len -> i < Z.to_nat d_model ->
              nth (pos * Z.to_nat d_model + i)
                  (flat_map (table_row (- ln 10000 / IZR d_model) (Z.to_nat d_model))
                            (seq 0 (Z.to_nat seq_len))) 0%R
              = PositionalEncodingSpec.entry d_model pos i).
    { intros pos i Hpos Hi.
      rewrite nth_flat_map_rows with (d := Z.to_nat d_model)
        by (try assumption; intros; apply table_row_length).
      apply table_row_entry; assumption. }
    split; [reflexivity|]. split.
    + intros pos i Hpos Hi. split; [now apply Hnth | apply entry_stable_eq].
    + intros i Hs' Hi. rewrite <- entry_position_zero with (dz := d_model).
      rewrite <- (Hnth 0 i) by assumption. reflexivity.
Qed.

Lemma positional_encoding_table_witness :
  exists t, PositionalEncoding.init 4 4 0 = Ok t.
Proof.
  apply (proj1 (@positional_encoding_table 4 4 0 eq_refl)).
  - discriminate.
  - discriminate.
  - lia.
  - lia.
Defined.

Lemma init_odd_Z (d_model seq_len : Z) (p : Q) :
  (0 <= p)%Q -> (p <= 1)%Q -> (0 <= seq_len)%Z -> (3 <= d_model)%Z ->
  Z.odd d_model = true ->
  PositionalEncoding.init d_model seq_len p
  = Raise (RuntimeError "The expanded size of the tensor must match the existing size at non-singleton dimension").
Proof.
  intros H0 H1 Hs Hd Ho.
  pose proof (@init_odd (Z.to_nat seq_len) (Z.to_nat d_model) p H0 H1) as H.
  rewrite !Z2Nat.id in H by lia.
  apply H; [lia | apply odd_to_nat; [lia | exact Ho]].
Qed.

(** C10, amended: for every odd d_model other than 1, and every seq_len,
    [PositionalEncoding.init] fails; when the other arguments are valid and
    d_model is at least 3 it fails in the cosine assignment, whose value has
    [ceil(d_model/2)] columns for the [floor(d_model/2)] odd columns of the
    table.  For d_model = 1 the one computed column expands to the empty
    set of odd columns and construction succeeds. *)
Theorem odd_width_construction (d_model seq_len : Z) (p : Q) :
  Z.odd d_model = true ->
  (d_model <> 1%Z -> is_ok (PositionalEncoding.init d_model seq_len p) = false)
  /\ ((0 <= p)%Q -> (p <= 1)%Q -> (0 <= seq_len)%Z -> (3 <= d_model)%Z ->
      PositionalEncoding.init d_model seq_len p
      = Raise (RuntimeError "The expanded size of the tensor must match the existing size at non-singleton dimension"))
  /\ ((0 <= p)%Q -> (p <= 1)%Q -> (0 <= seq_len)%Z -> d_model = 1%Z ->
      is_ok (PositionalEncoding.init d_model seq_len p) = true).
Proof.
  intros Ho. split; [|split].
  - intros Hne.
    destruct (PositionalEncoding.init d_model seq_len p) as [t|e] eqn:E; [|reflexivity].
    exfalso. destruct (@init_ok_inv _ _ _ _ E) as (H0 & H1 & Hs & Hd).
    assert (H3 : (3 <= d_model)%Z).
    { apply Z.odd_spec in Ho. destruct Ho as [k Hk]. lia. }
    rewrite init_odd_Z in E by assumption. discriminate.
  - intros H0 H1 Hs Hd. apply init_odd_Z; assumption.
  - intros H0 H1 Hs ->.
    pose proof (@init_one (Z.to_nat seq_len) p H0 H1) as H.
    rewrite Z2Nat.id in H by lia. now rewrite H.
Qed.

Lemma odd_width_construction_witness :
  is_ok (PositionalEncoding.init 3 4 0) = false.
Proof.
  apply (proj1 (@odd_width_construction 3 4 0 eq_refl)). lia.
Defined.

(** C10 as stated fails at d_model = 1, seq_len = 1: construction
    succeeds, with the table [[sin 0]]. *)
Lemma width_one_constructs :
  Z.odd 1 = true /\ (1 <= 1)%Z
  /\ PositionalEncoding.init 1 1 0
     = Ok (PositionalEncoding.mk 1 1 (mkDropout 0 true)
             (mkT [1; 1; 1] [sin (0 * exp (0 * (- ln 10000 / 1)))%R])).
Proof.
  split; [reflexivity|]. split; [lia|].
  change (PositionalEncoding.init 1 1 0) with (PositionalEncoding.init 1 (Z.of_nat 1) 0).
  rewrite (@init_one 1 0) by discriminate. reflexivity.
Qed.

(* ================================================================== *)
(** * MultiHeadAttentionBlock *)
(* ================================================================== *)

Section AttentionProofs.

Import MultiHeadAttentionBlock.

(** [view] with explicit non-negative sizes of the right product. *)
Lemma view_sizes {A} (t : tensor A) (dims : list Z) :
  Forall (fun d => (0 <= d)%Z) dims ->
  Zprod dims = Z.of_nat (numel (shape t)) ->
  view t dims = Ok (mkT (map Z.to_nat dims) (data t)).
Proof.
  intros Hd Hp. unfold view.
  assert (He : existsb (fun d => (d <? -1)%Z) dims = false).
  { clear Hp. induction Hd as [|d dims H0 _ IH]; [reflexivity|].
    cbn [existsb]. rewrite IH, orb_false_r. apply Z.ltb_ge. lia. }
  rewrite He.
  assert (Hc : count_occ Z.eq_dec dims (-1)%Z = 0).
  { apply count_occ_not_In. intros Hin.
    rewrite Forall_forall in Hd. specialize (Hd _ Hin). lia. }
  rewrite Hc, Hp, Z.eqb_refl. reflexivity.
Qed.

(** A linear layer maps the last axis from [in_features] to
    [out_features]; the other axes are kept. *)
Lemma Linear_forward_shape (l : Linear) (sh : list nat) (xd : list R) :
  exists yd, Linear_forward l (mkT (sh ++ [in_features l]) xd)
             = Ok (mkT (sh ++ [out_features l]) yd).
Proof.
  unfold Linear_forward. cbn [shape].
  destruct (sh ++ [in_features l]) as [|a rest] eqn:E;
    [destruct sh; discriminate|].
  rewrite <- E, last_dim_app, Nat.eqb_refl, removelast_last.
  eexists. reflexivity.
Qed.

(** Two stacks of matrices with equal batch dimensions. *)
Lemma torch_matmul_batched (b hh n m p : nat) (ad bd : list R) :
  exists cd, torch_matmul (mkT [b; hh; n; m] ad) (mkT [b; hh; m; p] bd)
             = Ok (mkT [b; hh; n; p] cd).
Proof.
  unfold torch_matmul. cbn [shape data length Nat.eqb Nat.sub firstn nth].
  rewrite Nat.eqb_refl, broadcast_shapes_refl. cbn [rbind app].
  unfold expand, pad_left. cbn [shape data length Nat.sub repeat app].
  rewrite !expandable_refl. cbn [rbind data].
  eexists. reflexivity.
Qed.

(** With a module bound to [mask], [attention] fails in [masked_fill] as
    soon as the scores can be computed; it draws no random number. *)
Lemma attention_module_mask (b hh sq sk dk : nat) (qd kd : list R) (value : Tensor)
      (d : Dropout) (drop : option Dropout) (g : Rng) :
  attention (mkT [b; hh; sq; dk] qd) (mkT [b; hh; sk; dk] kd) value
            (Some (PyModule d)) drop g
  = (Raise mask_type_error, g).
Proof.
  unfold attention, bind, lift, size, transpose. cbn [shape data length].
  change (norm_dim 4 (-1)) with (Ok 3).
  change (norm_dim 4 (-2)) with (Ok 2).
  cbn [rbind nth].
  change (swap 2 3 [b; hh; sk; dk]) with [b; hh; dk; sk].
  destruct (torch_matmul_batched b hh sq dk sk qd
              (flat_map
                 (fun k => match nth_error kd
                                   (ravel [b; hh; sk; dk] (swap 2 3 (unravel [b; hh; dk; sk] k)))
                           with Some a => [a] | None => [] end)
                 (seq 0 (numel [b; hh; dk; sk])))) as [cd Hcd].
  rewrite Hcd. reflexivity.
Qed.

(** Whatever its arguments, [attention] called with a module as [mask]
    returns nothing and leaves the generator alone. *)
Lemma attention_module_mask_raises (query key value : Tensor) (d : Dropout)
      (drop : option Dropout) (g : Rng) :
  exists e, attention query key value (Some (PyModule d)) drop g = (Raise e, g).
Proof.
  unfold attention, bind, lift.
  destruct (size query (-1)) as [dk|e]; [|now exists e].
  destruct (transpose key (-2) (-1)) as [kt|e]; [|now exists e].
  destruct (torch_matmul query kt) as [qk|e]; [|now exists e].
  cbn [py_eq_zero masked_fill]. eexists. reflexivity.
Qed.

(** With [dropout=None], [attention] draws no random number. *)
Lemma attention_without_dropout_rng (query key value : Tensor) (mask : option PyObj) (g : Rng) :
  snd (attention query key value mask None g) = g.
Proof.
  unfold attention, bind, lift, ret.
  destruct (size query (-1)) as [dk|e]; [|reflexivity].
  destruct (transpose key (-2) (-1)) as [kt|e]; [|reflexivity].
  destruct (torch_matmul query kt) as [qk|e]; [|reflexivity].
  destruct mask as [m|].
  - destruct (masked_fill _ (py_eq_zero m) _) as [sc|e]; [|reflexivity].
    destruct (torch_matmul _ value); reflexivity.
  - destruct (torch_matmul _ value); reflexivity.
Qed.

Lemma Linear_init_inv (w b : nat -> R) (i o : Z) (use_bias : bool) (l : Linear) :
  Linear_init w b i o use_bias = Ok l ->
  (0 <= i)%Z /\ (0 <= o)%Z /\ in_features l = Z.to_nat i /\ out_features l = Z.to_nat o.
Proof.
  unfold Linear_init, size_of_int.
  destruct (i <? 0)%Z eqn:Ei; [discriminate|].
  destruct (o <? 0)%Z eqn:Eo; [discriminate|].
  cbn [rbind]. intros H. injection H as <-.
  apply Z.ltb_ge in Ei. apply Z.ltb_ge in Eo. auto.
Qed.

(** What a successful construction establishes. *)
Lemma init_inv (theta : ParamInit) (dm hh : Z) (p : Q) (blk : t) :
  init theta dm hh p = Ok blk ->
  hh <> 0%Z /\ (dm mod hh = 0)%Z /\ (0 <= dm)%Z
  /\ d_model blk = dm /\ h blk = hh /\ d_k blk = (dm / hh)%Z
  /\ Forall (fun l => in_features l = Z.to_nat dm /\ out_features l = Z.to_nat dm)
       [wq blk; wk blk; wv blk].
Proof.
  unfold init.
  destruct (hh =? 0)%Z eqn:Eh; [discriminate|].
  destruct (dm mod hh =? 0)%Z eqn:Em; [|discriminate].
  cbn [negb].
  destruct (Linear_init (theta "wq.weight") _ dm dm false) as [lq|] eqn:Eq; [|discriminate].
  destruct (Linear_init (theta "wk.weight") _ dm dm false) as [lk|] eqn:Ek; [|discriminate].
  destruct (Linear_init (theta "wv.weight") _ dm dm false) as [lv|] eqn:Ev; [|discriminate].
  destruct (Linear_init (theta "wo.weight") _ dm dm false) as [lo|]; [|discriminate].
  cbn [rbind]. destruct (Dropout_init p) as [dr|]; [|discriminate].
  cbn [rbind]. intros H. injection H as <-. cbn [d_model h d_k wq wk wv].
  apply Z.eqb_neq in Eh. apply Z.eqb_eq in Em.
  apply Linear_init_inv in Eq, Ek, Ev.
  destruct Eq as (H0 & _ & Hq1 & Hq2), Ek as (_ & _ & Hk1 & Hk2), Ev as (_ & _ & Hv1 & Hv2).
  repeat split; auto.
Qed.

Lemma init_block_ready (theta : ParamInit) (dm hh : Z) (p : Q) (blk : t) :
  init theta dm hh p = Ok blk -> (0 < hh)%Z -> block_ready blk.
Proof.
  intros Hi Hh. apply init_inv in Hi.
  destruct Hi as (_ & Hm & Hd & E1 & E2 & E3 & Hl).
  unfold block_ready. rewrite E1, E2, E3. repeat split.
  - exact Hh.
  - apply Z.div_pos; lia.
  - pose proof (Z.div_mod dm hh). lia.
  - exact Hl.
Qed.

(** Splitting a (batch, seq_len, d_model) tensor into heads. *)
Lemma split_heads_shape (blk : t) (b s : nat) (xd : list R) :
  block_ready blk ->
  exists yd, split_heads blk (mkT [b; s; Z.to_nat (d_model blk)] xd)
             = Ok (mkT [b; Z.to_nat (h blk); s; Z.to_nat (d_k blk)] yd).
Proof.
  intros (Hh & Hk & Hm & _). unfold split_heads, shape_at.
  cbn [shape nth_error rbind].
  rewrite view_sizes.
  - cbn [rbind map]. rewrite !Nat2Z.id. unfold transpose.
    cbn [shape data length].
    change (norm_dim 4 1) with (Ok 1). change (norm_dim 4 2) with (Ok 2).
    cbn [rbind]. eexists. reflexivity.
  - repeat constructor; lia.
  - cbn [shape numel fold_right Zprod].
    rewrite !Nat2Z.inj_mul, Z2Nat.id by lia.
    rewrite <- Hm. simpl. ring.
Qed.

(** On inputs of shape (batch, seq_len, d_model) the call reaches
    [masked_fill], which refuses the condition it is given. *)
Lemma forward_mask_type_error (blk : t) (b sq sk bv sv : nat) (qd kd vd : list R)
      (mask : option PyObj) (g : Rng) :
  block_ready blk ->
  forward blk (mkT [b; sq; Z.to_nat (d_model blk)] qd)
              (mkT [b; sk; Z.to_nat (d_model blk)] kd)
              (mkT [bv; sv; Z.to_nat (d_model blk)] vd) mask g
  = (Raise mask_type_error, g).
Proof.
  intros Hr. pose proof Hr as (_ & _ & _ & Hl).
  inversion Hl as [|? ? [Hq1 Hq2] Hl1]; subst.
  inversion Hl1 as [|? ? [Hk1 Hk2] Hl2]; subst.
  inversion Hl2 as [|? ? [Hv1 Hv2] _]; subst.
  unfold forward, bind, lift.
  destruct (Linear_forward_shape (wq blk) [b; sq] qd) as [qd' Hq].
  destruct (Linear_forward_shape (wk blk) [b; sk] kd) as [kd' Hk].
  destruct (Linear_forward_shape (wv blk) [bv; sv] vd) as [vd' Hv].
  cbn [app] in Hq, Hk, Hv.
  rewrite Hq1, Hq2 in Hq. rewrite Hk1, Hk2 in Hk. rewrite Hv1, Hv2 in Hv.
  rewrite Hq, Hk, Hv.
  destruct (split_heads_shape b sq qd' Hr) as [qh Hqh].
  destruct (split_heads_shape b sk kd' Hr) as [kh Hkh].
  destruct (split_heads_shape bv sv vd' Hr) as [vh Hvh].
  rewrite Hqh, Hkh, Hvh.
  rewrite attention_module_mask. reflexivity.
Qed.

(** On any input whatsoever the call returns nothing, and the generator is
    left as it was. *)
Lemma forward_raises (blk : t) (q k v : Tensor) (mask : option PyObj) (g : Rng) :
  exists e, forward blk q k v mask g = (Raise e, g).
Proof.
  unfold forward, bind, lift.
  destruct (Linear_forward (wq blk) q) as [query|e]; [|now exists e].
  destruct (Linear_forward (wk blk) k) as [key|e]; [|now exists e].
  destruct (Linear_forward (wv blk) v) as [value|e]; [|now exists e].
  destruct (split_heads blk query) as [qh|e]; [|now exists e].
  destruct (split_heads blk key) as [kh|e]; [|now exists e].
  destruct (split_heads blk value) as [vh|e]; [|now exists e].
  destruct (attention_module_mask_raises qh kh vh (dropout blk) None g) as [e He].
  rewrite He. now exists e.
Qed.

(** ** The static method with a tensor mask *)

Lemma mm_length (n m p : nat) (a b : list R) : length (mm n m p a b) = n * p.
Proof.
  unfold mm. rewrite length_flat_map_seq with (n := p); [reflexivity|].
  intros x. now rewrite length_map, length_seq.
Qed.

Lemma map2_mm_rows (n m p : nat) (l1 l2 : list (list R)) :
  Forall (fun c => length c = n * p) (map2 (mm n m p) l1 l2).
Proof.
  revert l2; induction l1 as [|a l1 IH]; intros [|b l2]; simpl; constructor.
  - apply mm_length.
  - apply IH.
Qed.

(** The scores of a stack of matrices have the announced number of
    elements, whatever the operands hold. *)
Lemma torch_matmul_batched_wf (b hh n m p : nat) (ad bd : list R) :
  exists cd, torch_matmul (mkT [b; hh; n; m] ad) (mkT [b; hh; m; p] bd)
             = Ok (mkT [b; hh; n; p] cd)
             /\ length cd = numel [b; hh; n; p].
Proof.
  unfold torch_matmul. cbn [shape data length Nat.eqb Nat.sub firstn nth].
  rewrite Nat.eqb_refl, broadcast_shapes_refl. cbn [rbind app].
  unfold expand, pad_left. cbn [shape data length Nat.sub repeat app].
  rewrite !expandable_refl. cbn [rbind data].
  eexists. split; [reflexivity|].
  rewrite length_concat_rows with (n := n * p) by apply map2_mm_rows.
  rewrite map2_length, !chunks_length, Nat.min_id. simpl. lia.
Qed.

(** [masked_fill] with the mask of the scores' shape: where the mask is 0
    the score is overwritten, elsewhere it is kept. *)
Lemma masked_fill_tensor (sh : list nat) (xd : list R) (md : list bool) (v : R) :
  length xd = numel sh -> length md = numel sh ->
  masked_fill (mkT sh xd) (py_eq_zero (PyBoolTensor (mkT sh md))) v
  = Ok (mkT sh (map2 (fun x (m : bool) => if m then x else v) xd md)).
Proof.
  intros Hx Hm. cbn [py_eq_zero masked_fill]. unfold tmap. cbn [shape data].
  rewrite zip_with_same by (rewrite ?length_map; assumption).
  f_equal. f_equal. clear. revert md.
  induction xd as [|x xd IH]; intros [|m md]; simpl; try reflexivity.
  rewrite IH. now destruct m.
Qed.

Lemma map2_all_kept (xd : list R) (n : nat) (v : R) :
  length xd <= n ->
  map2 (fun x (m : bool) => if m then x else v) xd (repeat true n) = xd.
Proof.
  intros H. rewrite map2_repeat_r by exact H. apply map_id.
Qed.

(** Called directly, [attention] with an all-ones mask of the scores' shape
    does what it does with no mask. *)
Lemma attention_all_ones (b hh sq sk dk : nat) (qd kd : list R) (value : Tensor)
      (drop : option Dropout) (g : Rng) :
  attention (mkT [b; hh; sq; dk] qd) (mkT [b; hh; sk; dk] kd) value
            (Some (PyBoolTensor (mkT [b; hh; sq; sk] (repeat true (numel [b; hh; sq; sk])))))
            drop g
  = attention (mkT [b; hh; sq; dk] qd) (mkT [b; hh; sk; dk] kd) value None drop g.
Proof.
  unfold attention, bind, lift, ret, size, transpose. cbn [shape data length].
  change (norm_dim 4 (-1)) with (Ok 3).
  change (norm_dim 4 (-2)) with (Ok 2).
  cbn [rbind nth].
  change (swap 2 3 [b; hh; sk; dk]) with [b; hh; dk; sk].
  destruct (torch_matmul_batched_wf b hh sq dk sk qd
              (flat_map
                 (fun k => match nth_error kd
                                   (ravel [b; hh; sk; dk] (swap 2 3 (unravel [b; hh; dk; sk] k)))
                           with Some a => [a] | None => [] end)
                 (seq 0 (numel [b; hh; dk; sk])))) as [cd [Hcd Hlen]].
  rewrite Hcd. unfold tmap at 1 2. cbn [shape data].
  rewrite masked_fill_tensor by (rewrite ?length_map, ?repeat_length; auto).
  rewrite map2_all_kept by (rewrite length_map; lia).
  reflexivity.
Qed.

(** Called directly with a mask of the scores' shape, [attention]
    overwrites the scores where the mask is 0. *)
Lemma masked_fill_zero_positions (sh : list nat) (xd : list R) (md : list bool) (v : R) (i : nat) :
  length xd = numel sh -> length md = numel sh -> i < numel sh ->
  exists yd, masked_fill (mkT sh xd) (py_eq_zero (PyBoolTensor (mkT sh md))) v
             = Ok (mkT sh yd)
             /\ nth i yd 0%R = if nth i md true then nth i xd 0%R else v.
Proof.
  intros Hx Hm Hi. rewrite masked_fill_tensor by assumption.
  eexists. split; [reflexivity|].
  assert (Hxm : length xd = length md) by congruence.
  assert (Hi' : i < length xd) by congruence.
  clear Hx Hm Hi. revert md i Hxm Hi'.
  induction xd as [|x xd IH]; intros [|m md] i Hxm Hi; simpl in *; try lia.
  destruct i as [|i]; [reflexivity|]. apply IH; lia.
Qed.

Lemma Rsum_exp_ge (row : list R) (u : nat) :
  u < length row -> (exp (nth u row 0) <= Rsum (map exp row))%R.
Proof.
  revert u; induction row as [|x row IH]; intros u Hu; simpl in *; [lia|].
  assert (Hpos : (0 <= Rsum (map exp row))%R).
  { clear. induction row as [|y row IHr]; simpl; [lra|].
    pose proof (exp_pos y). lra. }
  destruct u as [|u].
  - lra.
  - specialize (IH u ltac:(lia)). pose proof (exp_pos x). lra.
Qed.

(** After the softmax, a position weighs at most [exp] of its score minus
    any other score of its row: a score of [-1e9] leaves next to nothing. *)
Lemma softmax_row_bound (row : list R) (j u : nat) :
  j < length row -> u < length row ->
  (0 < nth j (softmax_row row) 0 <= exp (nth j row 0 - nth u row 0))%R.
Proof.
  intros Hj Hu. unfold softmax_row.
  set (z := Rsum (map exp row)).
  rewrite nth_indep with (d' := (exp 0 / z)%R) by (now rewrite length_map).
  rewrite (map_nth (fun x => exp x / z)%R row 0%R j).
  pose proof (Rsum_exp_ge row Hu) as Hz. fold z in Hz.
  pose proof (exp_pos (nth u row 0%R)) as Hpu.
  pose proof (exp_pos (nth j row 0%R)) as Hpj.
  assert (Hzpos : (0 < z)%R) by lra.
  split.
  - apply Rdiv_lt_0_compat; assumption.
  - unfold Rminus. rewrite exp_plus, exp_Ropp. unfold Rdiv.
    apply Rmult_le_compat_l; [lra|].
    apply Rinv_le_contravar; assumption.
Qed.

End AttentionProofs.

(* ================================================================== *)
(** * The claims about MultiHeadAttentionBlock *)
(* ================================================================== *)

Lemma small_block_init (theta : ParamInit) :
  MultiHeadAttentionBlock.init theta 2 1 0 = Ok (small_block theta).
Proof. reflexivity. Qed.

Lemma small_block_ready (theta : ParamInit) : block_ready (small_block theta).
Proof. apply (@init_block_ready theta 2 1 0); [apply small_block_init | lia]. Qed.

Lemma wide_block_init (theta : ParamInit) :
  MultiHeadAttentionBlock.init theta 8 4 0 = Ok (wide_block theta).
Proof. reflexivity. Qed.

Lemma wide_block_ready (theta : ParamInit) : block_ready (wide_block theta).
Proof. apply (@init_block_ready theta 8 4 0); [apply wide_block_init | lia]. Qed.

(** C8: [forward] hands [self.dropout] to [attention] as its fourth
    positional argument, the [mask] parameter, and leaves [dropout] at
    [None].  So the caller's mask does not influence the outcome, no random
    number is drawn for the probability matrix, and on inputs of shape
    (batch, seq_len, d_model) the masking branch runs with the Python
    [False] as its condition, which [masked_fill] refuses; on no input at
    all does the call return. *)
Theorem forward_passes_dropout_as_mask
        (blk : MultiHeadAttentionBlock.t) (b sq sk bv sv : nat) (qd kd vd : list R) (g : Rng) :
  block_ready blk ->
  let q := mkT [b; sq; Z.to_nat (MultiHeadAttentionBlock.d_model blk)] qd in
  let k := mkT [b; sk; Z.to_nat (MultiHeadAttentionBlock.d_model blk)] kd in
  let v := mkT [bv; sv; Z.to_nat (MultiHeadAttentionBlock.d_model blk)] vd in
  (forall (x y z : Tensor) (mask : option PyObj) (g' : Rng),
      MultiHeadAttentionBlock.forward blk x y z mask g'
      = forward_around
          (fun query key value =>
             MultiHeadAttentionBlock.attention query key value
               (Some (PyModule (MultiHeadAttentionBlock.dropout blk))) None)
          blk x y z g')
  /\ (forall m1 m2 : option PyObj,
         MultiHeadAttentionBlock.forward blk q k v m1 g
         = MultiHeadAttentionBlock.forward blk q k v m2 g)
  /\ (forall (query key value : Tensor) (m : option PyObj) (g' : Rng),
         snd (MultiHeadAttentionBlock.attention query key value m None g') = g')
  /\ (forall (x y z : Tensor) (mask : option PyObj) (g' : Rng),
         exists e, MultiHeadAttentionBlock.forward blk x y z mask g' = (Raise e, g'))
  /\ (forall mask : option PyObj,
         MultiHeadAttentionBlock.forward blk q k v mask g = (Raise mask_type_error, g))
  /\ py_eq_zero (PyModule (MultiHeadAttentionBlock.dropout blk)) = PyBool false
  /\ (forall (t : Tensor) (value : R), masked_fill t (PyBool false) value = Raise mask_type_error).
Proof.
  intros Hr q k v.
  split; [intros; reflexivity|].
  split; [intros; reflexivity|].
  split; [intros; apply attention_without_dropout_rng|].
  split; [intros; apply forward_raises|].
  split; [intros mask; apply forward_mask_type_error; exact Hr|].
  split; [reflexivity | intros; reflexivity].
Qed.

Lemma forward_passes_dropout_as_mask_witness :
  MultiHeadAttentionBlock.forward (small_block (fun _ _ => 0%R))
    (mkT [1; 2; 2] [1; 0; 0; 1]%R) (mkT [1; 2; 2] [1; 0; 0; 1]%R)
    (mkT [1; 2; 2] [1; 0; 0; 1]%R)
    (Some (PyBoolTensor (mkT [1; 1; 1; 2] [true; false]))) (mkRng 0 (fun _ => 0%Q))
  = (Raise mask_type_error, mkRng 0 (fun _ => 0%Q)).
Proof.
  exact (proj1 (proj2 (proj2 (proj2 (proj2
    (@forward_passes_dropout_as_mask (small_block (fun _ _ => 0%R)) 1 2 2 1 2
       [1; 0; 0; 1]%R [1; 0; 0; 1]%R [1; 0; 0; 1]%R (mkRng 0 (fun _ => 0%Q))
       (small_block_ready (fun _ _ => 0%R))))))) _).
Defined.

(** C1, on the code: with the mask [[1, 0]] that hides position 1 from
    every query, [forward] does not mask anything.  It raises the
    [TypeError] of [masked_fill], whatever the value row at the hidden
    position is, because the mask it passes on is [self.dropout]. *)
Theorem forward_drops_the_mask (theta : ParamInit) (g : Rng) :
  let q := mkT [1; 2; 2] [1; 0; 0; 1]%R in
  let mask := Some (PyBoolTensor (mkT [1; 1; 1; 2] [true; false])) in
  MultiHeadAttentionBlock.init theta 2 1 0 = Ok (small_block theta)
  /\ MultiHeadAttentionBlock.forward (small_block theta) q q
       (mkT [1; 2; 2] [1; 1; 0; 0]%R) mask g = (Raise mask_type_error, g)
  /\ MultiHeadAttentionBlock.forward (small_block theta) q q
       (mkT [1; 2; 2] [1; 1; 5; 7]%R) mask g = (Raise mask_type_error, g).
Proof.
  intros q mask. split; [reflexivity|].
  split; apply (@forward_mask_type_error (small_block theta) 1 2 2 1 2);
    apply small_block_ready.
Qed.

(** C2, on the code: with an all-ones mask and with [mask=None] alike,
    [forward] raises the [TypeError] of [masked_fill]; neither call returns
    a result. *)
Theorem forward_all_ones_and_none (theta : ParamInit) (b s : nat) (qd kd vd : list R) (g : Rng) :
  MultiHeadAttentionBlock.init theta 8 4 0 = Ok (wide_block theta)
  /\ MultiHeadAttentionBlock.forward (wide_block theta)
       (mkT [b; s; 8] qd) (mkT [b; s; 8] kd) (mkT [b; s; 8] vd)
       (Some (PyBoolTensor (mkT [b; 4; s; s] (repeat true (numel [b; 4; s; s]))))) g
     = (Raise mask_type_error, g)
  /\ MultiHeadAttentionBlock.forward (wide_block theta)
       (mkT [b; s; 8] qd) (mkT [b; s; 8] kd) (mkT [b; s; 8] vd) None g
     = (Raise mask_type_error, g).
Proof.
  split; [reflexivity|].
  split; apply (@forward_mask_type_error (wide_block theta) b s s b s);
    apply wide_block_ready.
Qed.

(** C4, on the code: construction with d_model = 10 and h = 3 stops at the
    assertion; construction with d_model = 8 and h = 4 succeeds, and
    [forward] on inputs of shape (batch, seq_len, 8) then raises the
    [TypeError] of [masked_fill] for every batch size and sequence length:
    it produces no output. *)
Theorem construction_check_and_forward (theta : ParamInit) :
  (forall p : Q,
      MultiHeadAttentionBlock.init theta 10 3 p
      = Raise (AssertionError "d_model is not divisible by h"))
  /\ MultiHeadAttentionBlock.init theta 8 4 0 = Ok (wide_block theta)
  /\ (forall (b s : nat) (qd kd vd : list R) (mask : option PyObj) (g : Rng),
         MultiHeadAttentionBlock.forward (wide_block theta)
           (mkT [b; s; 8] qd) (mkT [b; s; 8] kd) (mkT [b; s; 8] vd) mask g
         = (Raise mask_type_error, g)).
Proof.
  split; [intros p; reflexivity|].
  split; [reflexivity|].
  intros b s qd kd vd mask g.
  apply (@forward_mask_type_error (wide_block theta) b s s b s).
  apply wide_block_ready.
Qed.

(* ================================================================== *)
(** * ResidualConnection, EncoderBlock and the pipeline *)
(* ================================================================== *)

Lemma Dropout_forward_inactive (d : Dropout) (x : Tensor) (g : Rng) :
  Qeq_bool (p d) 0 = true -> Dropout_forward d x g = (Ok x, g).
Proof.
  intros H. unfold Dropout_forward. rewrite H, orb_true_r. reflexivity.
Qed.

Lemma Dropout_forward_all (d : Dropout) (x : Tensor) (g : Rng) :
  training d = true -> Qeq_bool (p d) 0 = false -> Qeq_bool (p d) 1 = true ->
  Dropout_forward d x g = (Ok (mkT (shape x) (map (fun v => v * 0)%R (data x))), g).
Proof.
  intros Ht H0 H1. unfold Dropout_forward. rewrite Ht, H0, H1. cbn [negb orb].
  destruct x as [sh xd]. cbn [shape data]. destruct xd as [|v xd]; reflexivity.
Qed.

Lemma Dropout_forward_some (d : Dropout) (x : Tensor) (g : Rng) :
  training d = true -> Qeq_bool (p d) 0 = false -> Qeq_bool (p d) 1 = false ->
  Dropout_forward d x g
  = (Ok (mkT (shape x)
             (imap (fun i v =>
                      v * ((if Qle_bool (p d) (uniform g (cursor g + i)) then 1 else 0)
                           / Q2R (1 - p d)))%R 0 (data x))),
     mkRng (cursor g + length (data x)) (uniform g)).
Proof.
  intros Ht H0 H1. unfold Dropout_forward. rewrite Ht, H0, H1. cbn [negb orb].
  destruct x as [sh xd]. cbn [shape data]. destruct xd as [|v xd]; [|reflexivity].
  cbn [length Nat.eqb imap]. destruct g as [c u]. cbn [cursor uniform].
  now rewrite Nat.add_0_r.
Qed.

Lemma Dropout_forward_off (d : Dropout) (x : Tensor) (g : Rng) :
  negb (training d) || Qeq_bool (p d) 0 = true -> Dropout_forward d x g = (Ok x, g).
Proof.
  intros H. unfold Dropout_forward. rewrite H. reflexivity.
Qed.

(** C7: [ResidualConnection.forward] computes
    [x + dropout(sublayer(norm(x)))] for every module, input, sublayer and
    state of the generator: the normalisation is applied to [x] before the
    sublayer, the dropout to the sublayer's result, and [x] is added last.
    When the sublayer returns a tensor [y] of the shape of [x], the result
    is the elementwise sum of [x] and what the dropout makes of [y]: [y]
    itself when the dropout is off (probability 0, or not training), zeros
    for probability 1, and otherwise each element of [y] either dropped or
    scaled by [1 / (1 - p)], one random number drawn for each. *)
Theorem residual_is_pre_norm
        (self : ResidualConnection.t) (sublayer : Tensor -> M Tensor)
        (sh : list nat) (xd yd : list R) (n : Tensor) (g g1 : Rng) :
  (forall (x : Tensor) (f : Tensor -> M Tensor) (g' : Rng),
      ResidualConnection.forward self x f g'
      = ResidualConnectionSpec.pre_norm_residual
          (LayerNormalization.forward (ResidualConnection.norm self))
          (Dropout_forward (ResidualConnection.dropout self)) f x g')
  /\ (wf (mkT sh xd) -> wf (mkT sh yd) ->
      LayerNormalization.forward (ResidualConnection.norm self) (mkT sh xd) = Ok n ->
      sublayer n g = (Ok (mkT sh yd), g1) ->
      (negb (training (ResidualConnection.dropout self))
       || Qeq_bool (p (ResidualConnection.dropout self)) 0 = true ->
       ResidualConnection.forward self (mkT sh xd) sublayer g
       = (Ok (mkT sh (map2 Rplus xd yd)), g1))
      /\ (training (ResidualConnection.dropout self) = true ->
          Qeq_bool (p (ResidualConnection.dropout self)) 0 = false ->
          Qeq_bool (p (ResidualConnection.dropout self)) 1 = true ->
          ResidualConnection.forward self (mkT sh xd) sublayer g
          = (Ok (mkT sh (map2 Rplus xd (map (fun v => v * 0)%R yd))), g1))
      /\ (training (ResidualConnection.dropout self) = true ->
          Qeq_bool (p (ResidualConnection.dropout self)) 0 = false ->
          Qeq_bool (p (ResidualConnection.dropout self)) 1 = false ->
          ResidualConnection.forward self (mkT sh xd) sublayer g
          = (Ok (mkT sh
                   (map2 Rplus xd
                      (imap (fun i v =>
                               v * ((if Qle_bool (p (ResidualConnection.dropout self))
                                                 (uniform g1 (cursor g1 + i))
                                     then 1 else 0)
                                    / Q2R (1 - p (ResidualConnection.dropout self))))%R
                            0 yd))),
             mkRng (cursor g1 + length yd) (uniform g1)))).
Proof.
  assert (Hspec : forall (x : Tensor) (f : Tensor -> M Tensor) (g' : Rng),
             ResidualConnection.forward self x f g'
             = ResidualConnectionSpec.pre_norm_residual
                 (LayerNormalization.forward (ResidualConnection.norm self))
                 (Dropout_forward (ResidualConnection.dropout self)) f x g').
  { intros x f g'.
    unfold ResidualConnection.forward, ResidualConnectionSpec.pre_norm_residual, bind, lift.
    destruct (LayerNormalization.forward _ x) as [n'|e]; [|reflexivity].
    destruct (f n' g') as [[y|e] g2]; [|reflexivity].
    destruct (Dropout_forward _ y g2) as [[z|e] g3]; reflexivity. }
  split; [exact Hspec|].
  intros Hx Hy Hn Hs.
  assert (Hyl : length yd = numel sh) by exact Hy.
  split; [|split].
  - intros Hoff. rewrite Hspec. unfold ResidualConnectionSpec.pre_norm_residual.
    rewrite Hn, Hs, Dropout_forward_off by exact Hoff.
    now rewrite zip_with_same by assumption.
  - intros Ht H0 H1. rewrite Hspec. unfold ResidualConnectionSpec.pre_norm_residual.
    rewrite Hn, Hs, Dropout_forward_all by assumption. cbn [shape data].
    now rewrite zip_with_same by (rewrite ?length_map; assumption).
  - intros Ht H0 H1. rewrite Hspec. unfold ResidualConnectionSpec.pre_norm_residual.
    rewrite Hn, Hs, Dropout_forward_some by assumption. cbn [shape data].
    now rewrite zip_with_same by (rewrite ?imap_length; assumption).
Qed.

Lemma residual_is_pre_norm_witness :
  ResidualConnection.forward
    (ResidualConnection.mk (mkDropout (1 # 2) true)
       (LayerNormalization.init LayerNormalization.default_eps))
    (mkT [2] [1; 2]%R) (fun n => ret (tmap (fun v => v * 10)%R n))
    (mkRng 0 (fun i => if Nat.eqb i 0 then 0%Q else 1%Q))
  = (Ok (mkT [2]
           (map2 Rplus [1; 2]%R
              (imap (fun i v =>
                       v * ((if Qle_bool (1 # 2) (if Nat.eqb (0 + i) 0 then 0%Q else 1%Q)
                             then 1 else 0)
                            / Q2R (1 - (1 # 2))))%R
                    0
                    (map (fun v => v * 10)%R
                         (flat_map
                            (LayerNormalizationSpec.normalized_row
                               1 0 LayerNormalization.default_eps)
                            (chunks 2 (numel []) [1; 2]%R)))))),
     mkRng (0 + length
                  (map (fun v => v * 10)%R
                       (flat_map
                          (LayerNormalizationSpec.normalized_row
                             1 0 LayerNormalization.default_eps)
                          (chunks 2 (numel []) [1; 2]%R))))
           (fun i => if Nat.eqb i 0 then 0%Q else 1%Q)).
Proof.
  refine (proj2 (proj2 (proj2 (@residual_is_pre_norm
            (ResidualConnection.mk (mkDropout (1 # 2) true)
               (LayerNormalization.init LayerNormalization.default_eps))
            (fun n => ret (tmap (fun v => v * 10)%R n)) [2] [1; 2]%R
            (map (fun v => v * 10)%R
                 (flat_map
                    (LayerNormalizationSpec.normalized_row
                       1 0 LayerNormalization.default_eps)
                    (chunks 2 (numel []) [1; 2]%R)))
            (mkT ([] ++ [2])
                 (flat_map
                    (LayerNormalizationSpec.normalized_row
                       1 0 LayerNormalization.default_eps)
                    (chunks 2 (numel []) [1; 2]%R)))
            (mkRng 0 (fun i => if Nat.eqb i 0 then 0%Q else 1%Q))
            (mkRng 0 (fun i => if Nat.eqb i 0 then 0%Q else 1%Q)))
            eq_refl eq_refl _ eq_refl)) eq_refl eq_refl eq_refl).
  apply (@forward_correct [] 2 [1; 2]%R 1 0 LayerNormalization.default_eps).
  reflexivity.
Defined.

(** C9: [EncoderBlock.init] calls [ResidualConnection(features, dropout)],
    two arguments for a constructor that takes the single argument
    [dropout]; the call raises a [TypeError] whatever the arguments of
    [EncoderBlock.init] are, so no EncoderBlock can be created. *)
Theorem encoder_block_cannot_be_built
        (features : Z) (selfattn_block : MultiHeadAttentionBlock.t)
        (feedforward_block : PositionWiseFeedForward.t) (dropout : Q) :
  EncoderBlock.init features selfattn_block feedforward_block dropout = Raise arity_error
  /\ (forall blk : EncoderBlock.t,
         EncoderBlock.init features selfattn_block feedforward_block dropout <> Ok blk)
  /\ ResidualConnection.new [PyInt features; PyFloat dropout] = Raise arity_error
  /\ ResidualConnection.new [PyFloat 0]
     = Ok (ResidualConnection.mk (mkDropout 0 true)
             (LayerNormalization.init LayerNormalization.default_eps)).
Proof.
  split; [reflexivity|]. split; [intros blk H; discriminate H|].
  split; reflexivity.
Qed.

Lemma end_to_end_raises (theta : ParamInit) (d_model seq_len vocab_size h d_ff : Z)
      (dropout : Q) (ids : tensor Z) (mask : option PyObj) (g : Rng) :
  exists e, end_to_end theta d_model seq_len vocab_size h d_ff dropout ids mask g
            = (Raise e, g).
Proof.
  unfold end_to_end, bind, lift.
  destruct (InputEmbedding.init theta d_model vocab_size) as [emb|e]; [|now exists e].
  destruct (PositionalEncoding.init d_model seq_len dropout) as [pos|e]; [|now exists e].
  destruct (MultiHeadAttentionBlock.init theta d_model h dropout) as [attn|e]; [|now exists e].
  destruct (PositionWiseFeedForward.init theta d_model d_ff dropout) as [ffn|e]; [|now exists e].
  eexists. reflexivity.
Qed.

(** C3, on the code: for d_model = 4, seq_len = 4 and dropout = 0 the
    pipeline cannot be assembled.  Every run stops, before any forward
    call, at the construction of the EncoderBlock, with the [TypeError] of
    [ResidualConnection(features, dropout)]; no output is produced. *)
Theorem pipeline_stops_at_construction
        (theta : ParamInit) (ids : tensor Z) (mask : option PyObj) (g : Rng) :
  end_to_end theta 4 4 10 2 8 0 ids mask g = (Raise arity_error, g)
  /\ (forall (vocab_size h d_ff : Z),
         exists e, end_to_end theta 4 4 vocab_size h d_ff 0 ids mask g = (Raise e, g)).
Proof.
  split.
  - unfold end_to_end, bind, lift.
    change (InputEmbedding.init theta 4 10)
      with (Ok (InputEmbedding.mk 4 10 (mkEmbedding 10 4 (tabulate [10; 4] (theta "embedding.weight"))))).
    cbv iota beta.
    rewrite init_even_Z by (reflexivity || lia || discriminate).
    reflexivity.
  - intros. apply end_to_end_raises.
Qed.

(* ================================================================== *)
(** * Further properties of LayerNormalization *)
(* ================================================================== *)

Section LayerNormFurther.

Import LayerNormalization.
Local Open Scope R_scope.

Lemma Rsum_map_affine (c k : R) (row : list R) :
  Rsum (map (fun x => c * x + k) row) = c * Rsum row + INR (length row) * k.
Proof.
  induction row as [|x row IH]; [simpl; ring|].
  cbn [map Rsum fold_right length]. fold (Rsum (map (fun x => c * x + k) row)).
  fold (Rsum row). rewrite IH, S_INR. ring.
Qed.

Lemma normalized_row_length (a b e : R) (row : list R) :
  length (LayerNormalizationSpec.normalized_row a b e row) = length row.
Proof. unfold LayerNormalizationSpec.normalized_row. apply length_map. Qed.

(** The mean of a normalised row is the bias. *)
Lemma normalized_row_mean (a b e : R) (row : list R) :
  (0 < length row)%nat ->
  mean_row (LayerNormalizationSpec.normalized_row a b e row) = b.
Proof.
  intros Hn. unfold mean_row at 1. rewrite normalized_row_length.
  unfold LayerNormalizationSpec.normalized_row.
  set (m := mean_row row). set (D := std_row row ^ 2 + e).
  rewrite (map_ext _ (fun x => (a / D) * x + (b - a * m / D)))
    by (intros x; unfold Rdiv; ring).
  rewrite Rsum_map_affine.
  assert (Hne : INR (length row) <> 0) by (apply not_0_INR; lia).
  assert (Hs : Rsum row = INR (length row) * m)
    by (unfold m, mean_row; field; exact Hne).
  rewrite Hs. unfold Rdiv. generalize (/ D). intros iD. field. exact Hne.
Qed.



Lemma mean_row_shift (c : R) (row : list R) :
  (0 < length row)%nat ->
  mean_row (map (fun x => x + c) row) = mean_row row + c.
Proof.
  intros Hn. unfold mean_row. rewrite length_map.
  rewrite (map_ext _ (fun x => 1 * x + c)) by (intros; ring).
  rewrite Rsum_map_affine. field. apply not_0_INR. lia.
Qed.

Lemma std_row_shift (c : R) (row : list R) :
  (0 < length row)%nat ->
  std_row (map (fun x => x + c) row) = std_row row.
Proof.
  intros Hn. unfold std_row. rewrite mean_row_shift by exact Hn.
  rewrite length_map, map_map.
  f_equal. f_equal. f_equal. apply map_ext. intros x. ring.
Qed.

(** Adding one constant to every element of a row changes nothing. *)
Lemma normalized_row_shift (a b e c : R) (row : list R) :
  LayerNormalizationSpec.normalized_row a b e (map (fun x => x + c) row)
  = LayerNormalizationSpec.normalized_row a b e row.
Proof.
  destruct row as [|x0 row]; [reflexivity|].
  unfold LayerNormalizationSpec.normalized_row.
  rewrite mean_row_shift, std_row_shift by (simpl; lia).
  rewrite map_map. apply map_ext. intros x. unfold Rdiv. ring.
Qed.

Lemma chunks_map {A B} (f : A -> B) (n k : nat) (l : list A) :
  chunks n k (map f l) = map (map f) (chunks n k l).
Proof.
  revert l; induction k as [|k IH]; intros l; [reflexivity|].
  simpl. now rewrite firstn_map, skipn_map, IH.
Qed.


End LayerNormFurther.

(** X1: whatever the learned scale [alpha], every row of the output of
    [LayerNormalization.forward] has the learned [bias] as its mean (for
    rows of at least two elements and a positive [eps]). *)
Theorem layer_norm_output_mean (sh : list nat) (d : nat) (xd : list R) (a b e : R) :
  wf (mkT (sh ++ [d]) xd) -> 2 <= d -> (0 < e)%R ->
  exists yd,
    LayerNormalization.forward
      (LayerNormalization.mk e (mkT [1] [a]) (mkT [1] [b])) (mkT (sh ++ [d]) xd)
    = Ok (mkT (sh ++ [d]) yd)
    /\ wf (mkT (sh ++ [d]) yd)
    /\ Forall (fun row => mean_row row = b) (rows_of (mkT (sh ++ [d]) yd)).
Proof.
  intros Hx Hd _. apply wf_rows in Hx.
  rewrite forward_correct by exact Hx. eexists. split; [reflexivity|].
  assert (Hlen : forall row, In row (chunks d (numel sh) xd) -> length row = d).
  { apply Forall_forall. apply chunks_each. exact Hx. }
  split.
  - apply wf_rows. rewrite flat_map_concat_map.
    rewrite length_concat_rows with (n := d).
    + now rewrite length_map, chunks_length.
    + apply Forall_forall. intros r Hr. apply in_map_iff in Hr.
      destruct Hr as [row [<- Hin]]. rewrite normalized_row_length. now apply Hlen.
  - rewrite rows_of_app.
    rewrite <- (chunks_length d (numel sh) xd) at 1.
    rewrite flat_map_concat_map.
    rewrite <- (length_map (LayerNormalizationSpec.normalized_row a b e)).
    rewrite chunks_concat.
    + apply Forall_forall. intros r Hr. apply in_map_iff in Hr.
      destruct Hr as [row [<- Hin]]. apply normalized_row_mean.
      rewrite (Hlen row Hin). lia.
    + apply Forall_forall. intros r Hr. apply in_map_iff in Hr.
      destruct Hr as [row [<- Hin]]. rewrite normalized_row_length. now apply Hlen.
Qed.

Lemma layer_norm_output_mean_witness :
  exists yd,
    LayerNormalization.forward
      (LayerNormalization.mk 1 (mkT [1] [2%R]) (mkT [1] [3%R])) (mkT ([1] ++ [2]) [1; 2]%R)
    = Ok (mkT ([1] ++ [2]) yd)
    /\ wf (mkT ([1] ++ [2]) yd)
    /\ Forall (fun row => mean_row row = 3%R) (rows_of (mkT ([1] ++ [2]) yd)).
Proof.
  apply (@layer_norm_output_mean [1] 2 [1; 2]%R 2 3 1).
  - reflexivity.
  - lia.
  - lra.
Defined.



(** X3: [LayerNormalization.forward] does not see a constant offset: adding
    the same number to every element of the input leaves the output as it
    is (for rows of at least two elements and a positive [eps]). *)
Theorem layer_norm_shift_invariant (sh : list nat) (d : nat) (xd : list R) (c a b e : R) :
  wf (mkT (sh ++ [d]) xd) -> 2 <= d -> (0 < e)%R ->
  LayerNormalization.forward
    (LayerNormalization.mk e (mkT [1] [a]) (mkT [1] [b]))
    (tmap (fun x => x + c)%R (mkT (sh ++ [d]) xd))
  = LayerNormalization.forward
      (LayerNormalization.mk e (mkT [1] [a]) (mkT [1] [b])) (mkT (sh ++ [d]) xd).
Proof.
  intros Hx _ _. apply wf_rows in Hx. unfold tmap. cbn [shape data].
  rewrite !forward_correct by (rewrite ?length_map; exact Hx).
  f_equal. f_equal. rewrite chunks_map.
  rewrite !flat_map_concat_map, map_map. f_equal.
  apply map_ext. intros row. apply normalized_row_shift.
Qed.

Lemma layer_norm_shift_invariant_witness :
  LayerNormalization.forward
    (LayerNormalization.mk (1 / 1000000) (mkT [1] [1%R]) (mkT [1] [0%R]))
    (tmap (fun x => x + 10)%R (mkT ([1] ++ [2]) [1; 2]%R))
  = LayerNormalization.forward
      (LayerNormalization.mk (1 / 1000000) (mkT [1] [1%R]) (mkT [1] [0%R]))
      (mkT ([1] ++ [2]) [1; 2]%R).
Proof.
  apply (@layer_norm_shift_invariant [1] 2 [1; 2]%R 10 1 0 (1 / 1000000)).
  - reflexivity.
  - lia.
  - lra.
Defined.

(* ================================================================== *)
(** * Further properties of PositionalEncoding *)
(* ================================================================== *)

Section PositionalFurther.

Import PositionalEncoding.

Lemma bshape_rev_app_one (r : list nat) (b : nat) :
  bshape_rev (r ++ [b]) (r ++ [1]) = Some (r ++ [b]).
Proof.
  induction r as [|x r IH]; simpl.
  - destruct (Nat.eqb_spec b 1) as [->|_]; reflexivity.
  - now rewrite IH, Nat.eqb_refl.
Qed.

Lemma concat_repeat_one {A} (l : list A) : concat (repeat l 1) = l.
Proof. simpl. apply app_nil_r. Qed.

(** A batch against one block shared by all its members. *)
Lemma zip_with_batch {A B C} (f : A -> B -> C) (b : nat) (sh : list nat)
      (xd : list A) (yd : list B) :
  length xd = b * numel sh -> length yd = numel sh ->
  zip_with f (mkT (b :: sh) xd) (mkT (1 :: sh) yd)
  = Ok (mkT (b :: sh) (map2 f xd (concat (repeat yd b)))).
Proof.
  intros Hx Hy. unfold zip_with. cbn [shape data].
  assert (Hb : broadcast_shapes (b :: sh) (1 :: sh) = Ok (b :: sh)).
  { unfold broadcast_shapes. cbn [rev]. rewrite bshape_rev_app_one.
    now rewrite rev_app_distr, rev_involutive. }
  rewrite Hb. cbn [rbind].
  rewrite expand_same by exact Hx. cbn [rbind data].
  unfold expand, pad_left. cbn [shape data length].
  rewrite Nat.sub_diag. cbn [repeat app expandable]. rewrite expandable_refl, orb_true_r. cbn [andb rbind data].
  f_equal. f_equal. f_equal.
  cbn [expand_data].
  destruct (Nat.eqb_spec 1 b) as [<-|_].
  - cbn [chunks flat_map]. rewrite app_nil_r, concat_repeat_one.
    rewrite firstn_all2 by lia. now apply expand_data_id.
  - now rewrite expand_data_id.
Qed.

Lemma concat_repeat_rows {A} (l : list A) (b : nat) :
  concat (repeat l b) = flat_map (fun _ => l) (seq 0 b).
Proof.
  generalize 0. induction b as [|b IH]; intros o; [reflexivity|].
  simpl. now rewrite (IH (S o)).
Qed.

Lemma nth_map2 {A B C} (f : A -> B -> C) (l1 : list A) (l2 : list B) (i : nat)
      (d : C) (d1 : A) (d2 : B) :
  i < length l1 -> i < length l2 ->
  nth i (map2 f l1 l2) d = f (nth i l1 d1) (nth i l2 d2).
Proof.
  revert l2 i; induction l1 as [|a l1 IH]; intros [|b l2] [|i] H1 H2;
    simpl in *; try lia; [reflexivity|].
  apply IH; lia.
Qed.

(** The buffer of a constructed module: one block of [seq_len] rows of
    [d_model] elements. *)
Lemma init_ok_buffer (dz sz : Z) (p : Q) (t : PositionalEncoding.t) :
  init dz sz p = Ok t ->
  shape (pe t) = [1; Z.to_nat sz; Z.to_nat dz]
  /\ length (data (pe t)) = Z.to_nat sz * Z.to_nat dz
  /\ dropout t = mkDropout p true.
Proof.
  intros Ht. destruct (@init_ok_inv _ _ _ _ Ht) as (H0 & H1 & Hs & Hd).
  destruct (Z.even dz) eqn:He.
  - rewrite init_even_Z in Ht by assumption. injection Ht as <-.
    cbn [pe shape data dropout].
    split; [reflexivity|]. split; [|reflexivity].
    apply length_flat_map_seq. intros. apply table_row_length.
  - assert (Ho : Z.odd dz = true) by (rewrite <- Z.negb_even, He; reflexivity).
    destruct (Z.eq_dec dz 1) as [->|Hne].
    + pose proof (@init_one (Z.to_nat sz) p H0 H1) as H.
      rewrite Z2Nat.id in H by lia. rewrite H in Ht. injection Ht as <-.
      cbn [pe shape data dropout].
      split; [reflexivity|]. split; [|reflexivity].
      apply length_flat_map_seq. intros. apply half_row_length.
    + assert (H3 : (3 <= dz)%Z).
      { apply Z.odd_spec in Ho. destruct Ho as [k Hk]. lia. }
      rewrite init_odd_Z in Ht by assumption. discriminate.
Qed.

(** [self.pe[:, :n]] for a length that the table covers. *)
Lemma pe_prefix_short (t : PositionalEncoding.t) (s d n : nat) :
  shape (pe t) = [1; s; d] -> length (data (pe t)) = s * d -> n <= s ->
  pe_prefix t n = mkT [1; n; d] (firstn (n * d) (data (pe t))).
Proof.
  intros Hsh Hlen Hn. unfold pe_prefix. rewrite Hsh.
  rewrite Nat.min_l by exact Hn.
  cbn [chunks flat_map]. rewrite app_nil_r.
  rewrite firstn_firstn. f_equal. f_equal. apply Nat.min_l.
  apply Nat.mul_le_mono_r. exact Hn.
Qed.

Lemma pe_prefix_long (t : PositionalEncoding.t) (s d n : nat) :
  shape (pe t) = [1; s; d] -> s <= n -> shape (pe_prefix t n) = [1; s; d].
Proof.
  intros Hsh Hn. unfold pe_prefix. rewrite Hsh. cbn [shape].
  now rewrite Nat.min_r by exact Hn.
Qed.

End PositionalFurther.

(** X4: every entry of the positional table of an even [d_model] lies
    between -1 and 1. *)
Theorem positional_table_bounded (d_model seq_len : Z) (p : Q) (t : PositionalEncoding.t) (k : nat) :
  Z.even d_model = true ->
  PositionalEncoding.init d_model seq_len p = Ok t ->
  k < length (data (PositionalEncoding.pe t)) ->
  (-1 <= nth k (data (PositionalEncoding.pe t)) 0 <= 1)%R.
Proof.
  intros He Ht Hk.
  destruct (@init_ok_inv _ _ _ _ Ht) as (H0 & H1 & Hs & Hd).
  rewrite init_even_Z in Ht by assumption. injection Ht as <-.
  cbn [PositionalEncoding.pe data] in *.
  set (d := Z.to_nat d_model) in *. set (s := Z.to_nat seq_len) in *.
  assert (Hd0 : 0 < d) by (unfold d; lia).
  rewrite length_flat_map_seq with (n := d) in Hk by (intros; apply table_row_length).
  assert (Hkd : k = (k / d) * d + k mod d)
    by (rewrite Nat.mul_comm; apply Nat.div_mod_eq).
  assert (Hr : k / d < s) by (apply Nat.Div0.div_lt_upper_bound; lia).
  assert (Hi : k mod d < d) by (apply Nat.mod_upper_bound; lia).
  rewrite Hkd.
  rewrite nth_flat_map_rows with (d := d)
    by (try assumption; intros; apply table_row_length).
  rewrite table_row_entry
    by first [assumption | apply even_to_nat; [lia | exact He]].
  unfold PositionalEncodingSpec.entry.
  destruct (Nat.even (k mod d)); [apply SIN_bound | apply COS_bound].
Qed.

Lemma positional_table_bounded_witness :
  exists t,
    PositionalEncoding.init 2 1 0 = Ok t
    /\ (-1 <= nth 1 (data (PositionalEncoding.pe t)) 0 <= 1)%R.
Proof.
  eexists. split; [reflexivity|].
  apply (@positional_table_bounded 2 1 0 _ 1 eq_refl eq_refl).
  simpl. lia.
Defined.

Section PositionalForward.

Import PositionalEncoding.

Lemma bshape_rev_lift (r : list nat) : bshape_rev r (r ++ [1]) = Some (r ++ [1]).
Proof.
  induction r as [|x r IH]; simpl; [reflexivity|].
  now rewrite IH, Nat.eqb_refl.
Qed.

(** A tensor against one with a leading axis of length 1 more. *)
Lemma zip_with_lift {A B C} (f : A -> B -> C) (sh : list nat)
      (xd : list A) (yd : list B) :
  length xd = numel sh -> length yd = numel sh ->
  zip_with f (mkT sh xd) (mkT (1 :: sh) yd) = Ok (mkT (1 :: sh) (map2 f xd yd)).
Proof.
  intros Hx Hy. unfold zip_with. cbn [shape data].
  assert (Hb : broadcast_shapes sh (1 :: sh) = Ok (1 :: sh)).
  { unfold broadcast_shapes. cbn [rev]. rewrite bshape_rev_lift.
    now rewrite rev_app_distr, rev_involutive. }
  rewrite Hb. cbn [rbind].
  assert (Hn : numel (1 :: sh) = numel sh) by (simpl; lia).
  rewrite (expand_same (1 :: sh) yd) by (rewrite Hn; exact Hy).
  unfold expand, pad_left. cbn [shape data length].
  replace (S (length sh) - length sh) with 1 by lia.
  cbn [repeat app]. rewrite expandable_refl.
  rewrite expand_data_id by (rewrite Hn; exact Hx).
  reflexivity.
Qed.

(** Dropout at work: in training, for a probability strictly between 0 and
    1 and a tensor that is not empty. *)
Lemma Dropout_forward_active (q : Q) (sh : list nat) (xd : list R) (g : Rng) :
  Qeq_bool q 0 = false -> Qeq_bool q 1 = false -> xd <> [] ->
  Dropout_forward (mkDropout q true) (mkT sh xd) g
  = (Ok (mkT sh (imap (fun i v =>
                         v * ((if Qle_bool q (uniform g (cursor g + i)) then 1 else 0)
                              / Q2R (1 - q)))%R 0 xd)),
     mkRng (cursor g + length xd) (uniform g)).
Proof.
  intros H0 H1 Hx. unfold Dropout_forward. cbn [p training negb data shape orb].
  rewrite H0, H1. cbn [orb].
  destruct xd as [|x xd]; [contradiction|]. reflexivity.
Qed.

End PositionalForward.

(** X5: on a batch of shape (batch, n, d_model) with [n] at most [seq_len],
    [PositionalEncoding.forward] with dropout 0 keeps the shape and adds to
    every element the table entry of its position and column, the same for
    every member of the batch; the generator is not used. *)
Theorem positional_forward_adds_table
        (d_model seq_len : Z) (b n : nat) (xd : list R) (g : Rng) :
  Z.even d_model = true -> (0 < d_model)%Z -> (0 <= seq_len)%Z ->
  n <= Z.to_nat seq_len ->
  wf (mkT [b; n; Z.to_nat d_model] xd) ->
  exists t yd,
    PositionalEncoding.init d_model seq_len 0 = Ok t
    /\ PositionalEncoding.forward t (mkT [b; n; Z.to_nat d_model] xd) g
       = (Ok (mkT [b; n; Z.to_nat d_model] yd), g)
    /\ wf (mkT [b; n; Z.to_nat d_model] yd)
    /\ forall bi pos i, bi < b -> pos < n -> i < Z.to_nat d_model ->
         nth ((bi * n + pos) * Z.to_nat d_model + i) yd 0%R
         = (nth ((bi * n + pos) * Z.to_nat d_model + i) xd 0
            + PositionalEncodingSpec.entry d_model pos i)%R.
Proof.
  intros He Hd Hs Hn Hx.
  set (d := Z.to_nat d_model) in *. set (s := Z.to_nat seq_len) in *.
  assert (Hxl : length xd = b * (n * d)).
  { unfold wf in Hx. cbn [shape data numel fold_right] in Hx. lia. }
  pose proof (@init_even_Z d_model seq_len 0 ltac:(discriminate) ltac:(discriminate) Hs Hd He) as Ht.
  fold d s in Ht.
  set (tbl := flat_map (table_row (- ln 10000 / IZR d_model) d) (seq 0 s)) in *.
  assert (Htl : length tbl = s * d)
    by (apply length_flat_map_seq; intros; apply table_row_length).
  eexists. exists (map2 Rplus xd (concat (repeat (firstn (n * d) tbl) b))).
  split; [exact Ht|].
  assert (Hpl : length (firstn (n * d) tbl) = n * d).
  { rewrite length_firstn, Htl. apply Nat.min_l. apply Nat.mul_le_mono_r. exact Hn. }
  assert (Hcl : length (concat (repeat (firstn (n * d) tbl) b)) = b * (n * d)).
  { rewrite length_concat_rows with (n := n * d).
    - now rewrite repeat_length.
    - apply Forall_forall. intros r Hr. apply repeat_spec in Hr. now subst r. }
  split; [|split].
  - unfold PositionalEncoding.forward, bind, lift, size.
    cbn [shape data length PositionalEncoding.pe PositionalEncoding.dropout].
    change (norm_dim 3 1) with (Ok 1). cbn [rbind nth].
    rewrite (@pe_prefix_short _ s d n) by (try reflexivity; assumption).
    cbn [PositionalEncoding.pe data].
    rewrite zip_with_batch by (cbn [numel fold_right]; lia).
    now rewrite Dropout_forward_inactive by reflexivity.
  - unfold wf. cbn [shape data numel fold_right].
    rewrite map2_length, Hxl, Hcl, Nat.min_id. lia.
  - intros bi pos i Hbi Hpos Hi.
    assert (Hk : (bi * n + pos) * d + i < b * (n * d)) by nia.
    rewrite nth_map2 with (d1 := 0%R) (d2 := 0%R) by lia.
    f_equal.
    rewrite concat_repeat_rows.
    replace ((bi * n + pos) * d + i) with (bi * (n * d) + (pos * d + i)) by lia.
    rewrite nth_flat_map_rows with (d := n * d) by (intros; auto; nia).
    rewrite nth_firstn.
    replace (pos * d + i <? n * d) with true by (symmetry; apply Nat.ltb_lt; nia).
    unfold tbl.
    rewrite nth_flat_map_rows with (d := d)
      by (try lia; intros; apply table_row_length).
    apply table_row_entry; [apply even_to_nat; [lia | exact He] | exact Hi].
Qed.

Lemma positional_forward_adds_table_witness :
  exists t yd,
    PositionalEncoding.init 2 3 0 = Ok t
    /\ PositionalEncoding.forward t (mkT [1; 2; Z.to_nat 2] [1; 2; 3; 4]%R)
         (mkRng 0 (fun _ => 0%Q))
       = (Ok (mkT [1; 2; Z.to_nat 2] yd), mkRng 0 (fun _ => 0%Q))
    /\ wf (mkT [1; 2; Z.to_nat 2] yd)
    /\ forall bi pos i, bi < 1 -> pos < 2 -> i < Z.to_nat 2 ->
         nth ((bi * 2 + pos) * Z.to_nat 2 + i) yd 0%R
         = (nth ((bi * 2 + pos) * Z.to_nat 2 + i) [1; 2; 3; 4]%R 0
            + PositionalEncodingSpec.entry 2 pos i)%R.
Proof.
  apply (@positional_forward_adds_table 2 3 1 2 [1; 2; 3; 4]%R (mkRng 0 (fun _ => 0%Q))).
  - reflexivity.
  - lia.
  - lia.
  - simpl. lia.
  - reflexivity.
Defined.

(** X6: an input with more positions than the table has rows is refused:
    for a table of at least two rows, [PositionalEncoding.forward] raises
    the broadcasting error of the addition, before any dropout. *)
Theorem positional_forward_too_long
        (d_model seq_len : Z) (p : Q) (t : PositionalEncoding.t)
        (b n d : nat) (xd : list R) (g : Rng) :
  PositionalEncoding.init d_model seq_len p = Ok t ->
  2 <= Z.to_nat seq_len -> Z.to_nat seq_len < n ->
  PositionalEncoding.forward t (mkT [b; n; d] xd) g
  = (Raise (RuntimeError "The size of tensor a must match the size of tensor b"), g).
Proof.
  intros Ht Hs Hn. destruct (@init_ok_buffer _ _ _ _ Ht) as (Hsh & _ & _).
  unfold PositionalEncoding.forward, bind, lift, size. cbn [shape data length].
  change (norm_dim 3 1) with (Ok 1). cbn [rbind nth].
  unfold zip_with. cbn [shape].
  rewrite (@pe_prefix_long t (Z.to_nat seq_len) (Z.to_nat d_model) n) by (assumption || lia).
  unfold broadcast_shapes. cbn [rev app bshape_rev].
  replace (n =? Z.to_nat seq_len) with false by (symmetry; apply Nat.eqb_neq; lia).
  replace (n =? 1) with false by (symmetry; apply Nat.eqb_neq; lia).
  replace (Z.to_nat seq_len =? 1) with false by (symmetry; apply Nat.eqb_neq; lia).
  destruct (b =? 1); reflexivity.
Qed.

Lemma positional_forward_too_long_witness :
  exists t,
    PositionalEncoding.init 2 2 0 = Ok t
    /\ PositionalEncoding.forward t (mkT [1; 3; 2] [1; 2; 3; 4; 5; 6]%R)
         (mkRng 0 (fun _ => 0%Q))
       = (Raise (RuntimeError "The size of tensor a must match the size of tensor b"),
          mkRng 0 (fun _ => 0%Q)).
Proof.
  eexists. split; [reflexivity|].
  apply (@positional_forward_too_long 2 2 0 _ 1 3 2 [1; 2; 3; 4; 5; 6]%R
           (mkRng 0 (fun _ => 0%Q)) eq_refl).
  - simpl. lia.
  - simpl. lia.
Defined.

(** X7: [dummyfn2], the notebook's check of PositionalEncoding on an
    unbatched 4 x 4 input with dropout 0.2: the result has shape (1, 4, 4),
    as the notebook prints; sixteen random numbers are drawn; and each
    element is either 0 (dropped) or the input plus the table entry, scaled
    by 1/(1 - 0.2) = 1.25. *)
Theorem dummyfn2_outcome (randn : nat -> R) (g : Rng) :
  exists yd,
    dummyfn2 randn g = (Ok (mkT [1; 4; 4] yd), mkRng (cursor g + 16) (uniform g))
    /\ length yd = 16
    /\ forall pos i, pos < 4 -> i < 4 ->
         nth (pos * 4 + i) yd 0%R
         = if Qle_bool (2 # 10) (uniform g (cursor g + (pos * 4 + i)))
           then Rmult (Rplus (randn (pos * 4 + i)) (PositionalEncodingSpec.entry 4 pos i))
                      (5 / 4)%R
           else 0%R.
Proof.
  unfold dummyfn2, bind, lift.
  rewrite init_even_Z by (reflexivity || lia || discriminate).
  unfold PositionalEncoding.forward, bind, lift, size, tabulate.
  cbn [shape data length PositionalEncoding.pe PositionalEncoding.dropout].
  change (norm_dim 2 1) with (Ok 1). cbn [rbind nth].
  change (Z.to_nat 4) with 4.
  set (tbl := flat_map (table_row (- ln 10000 / 4) 4) (seq 0 4)).
  assert (Htl : length tbl = 4 * 4)
    by (apply length_flat_map_seq; intros; apply table_row_length).
  rewrite (@pe_prefix_short _ 4 4 4) by (try reflexivity; try exact Htl; lia).
  cbn [PositionalEncoding.pe data].
  rewrite firstn_all2 by (rewrite Htl; simpl; lia).
  rewrite zip_with_lift
    by (rewrite ?length_map, ?length_seq, ?Htl; reflexivity).
  set (sum := map2 Rplus (map randn (seq 0 (numel [4; 4]))) tbl).
  assert (Hsl : length sum = 16).
  { unfold sum. rewrite map2_length, length_map, length_seq, Htl. reflexivity. }
  rewrite Dropout_forward_active
    by (try reflexivity; intros E; rewrite E in Hsl; discriminate Hsl).
  rewrite Hsl. eexists. split; [reflexivity|]. split.
  - now rewrite imap_length.
  - intros pos i Hpos Hi.
    rewrite imap_nth with (d2 := 0%R) by (rewrite Hsl; lia).
    cbn [Nat.add]. unfold sum.
    rewrite nth_map2 with (d1 := 0%R) (d2 := 0%R)
      by (rewrite ?length_map, ?length_seq, ?Htl; simpl; lia).
    rewrite nth_map_seq by (simpl; lia).
    unfold tbl. rewrite nth_flat_map_rows with (d := 4)
      by (try lia; intros; apply table_row_length).
    rewrite table_row_entry by (reflexivity || lia).
    assert (Hq : Q2R (1 - (2 # 10)) = (4 / 5)%R).
    { unfold Q2R. simpl. lra. }
    rewrite Hq.
    destruct (Qle_bool (2 # 10) (uniform g (cursor g + (pos * 4 + i)))); field.
Qed.

(* ================================================================== *)
(** * InputEmbedding *)
(* ================================================================== *)

Section EmbeddingProofs.

Lemma map_seq_shift {A} (f : nat -> A) (a n : nat) :
  map f (seq a n) = map (fun j => f (a + j)) (seq 0 n).
Proof.
  rewrite <- (Nat.add_0_r a) at 1. generalize 0 as o.
  induction n as [|n IH]; intros o; [reflexivity|].
  simpl. f_equal. rewrite <- IH. f_equal. f_equal. lia.
Qed.

Lemma firstn_seq_le (k a n : nat) : k <= n -> firstn k (seq a n) = seq a k.
Proof.
  intros H. replace n with (k + (n - k)) by lia.
  rewrite seq_app, firstn_app, length_seq, Nat.sub_diag, firstn_all2
    by (rewrite length_seq; lia).
  simpl. apply app_nil_r.
Qed.

(** Row [i] of a tabulated matrix. *)
Lemma tabulate_row {A} (w : nat -> A) (rows cols i : nat) :
  i < rows ->
  firstn cols (skipn (i * cols) (map w (seq 0 (rows * cols))))
  = map (fun j => w (i * cols + j)) (seq 0 cols).
Proof.
  intros Hi. rewrite skipn_map, firstn_map, skipn_seq, firstn_seq_le by nia.
  apply map_seq_shift.
Qed.

Lemma select_rows_in_range (w : nat -> R) (n d : nat) (ids : list Z) :
  Forall (fun id => (0 <= id < Z.of_nat n)%Z) ids ->
  select_rows (mkEmbedding n d (tabulate [n; d] w)) ids
  = Ok (flat_map (fun id => map (fun j => w (Z.to_nat id * d + j)) (seq 0 d)) ids).
Proof.
  induction 1 as [|id ids Hid _ IH]; [reflexivity|].
  cbn [select_rows num_embeddings embedding_dim eweight flat_map].
  replace ((id <? 0) || (Z.of_nat n <=? id))%Z with false
    by (symmetry; apply orb_false_iff; split; [apply Z.ltb_ge | apply Z.leb_gt]; lia).
  cbn [num_embeddings embedding_dim eweight] in IH. rewrite IH. cbn [rbind].
  f_equal. f_equal. unfold tabulate. cbn [data numel fold_right].
  rewrite Nat.mul_1_r. apply tabulate_row. lia.
Qed.

Lemma forallb_in_table (e : Embedding) (ids : list Z) :
  forallb (in_table e) ids = true
  <-> Forall (fun id => (0 <= id < Z.of_nat (num_embeddings e))%Z) ids.
Proof.
  rewrite forallb_forall, Forall_forall. unfold in_table.
  split; intros H id Hin; specialize (H id Hin).
  - apply andb_true_iff in H. destruct H as [H1 H2].
    apply Z.leb_le in H1. apply Z.ltb_lt in H2. lia.
  - apply andb_true_iff. split; [apply Z.leb_le | apply Z.ltb_lt]; lia.
Qed.

(** The rows an in-range list of token ids selects. *)
Lemma lookup_rows_in_range (w : nat -> R) (n d : nat) (ids : list Z) :
  Forall (fun id => (0 <= id < Z.of_nat n)%Z) ids ->
  lookup_rows (mkEmbedding n d (tabulate [n; d] w)) ids
  = Ok (flat_map (fun id => map (fun j => w (Z.to_nat id * d + j)) (seq 0 d)) ids).
Proof.
  intros Hids. destruct ids as [|id ids]; [reflexivity|].
  assert (Hf : forallb (in_table (mkEmbedding n d (tabulate [n; d] w))) (id :: ids) = true)
    by (apply forallb_in_table; exact Hids).
  unfold lookup_rows. rewrite Hf.
  change (numel (shape (eweight (mkEmbedding n d (tabulate [n; d] w)))))
    with (numel [n; d]).
  change (num_embeddings (mkEmbedding n d (tabulate [n; d] w))) with n.
  destruct (Nat.eqb_spec (numel [n; d]) 0) as [Hz|_];
    [|now apply select_rows_in_range].
  assert (Hn : n <> 0).
  { inversion Hids as [|? ? Hid _]; subst. lia. }
  destruct (Nat.eqb_spec n 0) as [|_]; [contradiction|].
  assert (Hd : d = 0) by (cbn [numel fold_right] in Hz; nia).
  subst d. f_equal. clear. induction (id :: ids) as [|a l IH]; [reflexivity|].
  cbn [flat_map seq map app]. exact IH.
Qed.

(** One id out of range is enough for the lookup to fail. *)
Lemma select_rows_out_of_range (e : Embedding) (ids : list Z) :
  Exists (fun id => (id < 0 \/ Z.of_nat (num_embeddings e) <= id)%Z) ids ->
  select_rows e ids = Raise (IndexError "index out of range in self").
Proof.
  induction ids as [|id ids IH]; intros Hex; [inversion Hex|].
  cbn [select_rows].
  destruct ((id <? 0) || (Z.of_nat (num_embeddings e) <=? id))%Z eqn:E; [reflexivity|].
  apply orb_false_iff in E. destruct E as [E1 E2].
  apply Z.ltb_ge in E1. apply Z.leb_gt in E2.
  inversion Hex as [? ? Hbad|? ? Hrest]; subst; [lia|].
  now rewrite IH.
Qed.

Lemma lookup_rows_out_of_range (e : Embedding) (ids : list Z) :
  Exists (fun id => (id < 0 \/ Z.of_nat (num_embeddings e) <= id)%Z) ids ->
  (numel (shape (eweight e)) <> 0 ->
   lookup_rows e ids = Raise (IndexError "index out of range in self"))
  /\ (numel (shape (eweight e)) = 0 ->
      exists msg, lookup_rows e ids = Raise (RuntimeError msg)).
Proof.
  intros Hex. destruct ids as [|id ids]; [inversion Hex|].
  unfold lookup_rows. split; intros Hn.
  - destruct (Nat.eqb_spec (numel (shape (eweight e))) 0); [contradiction|].
    now apply select_rows_out_of_range.
  - rewrite Hn. cbn [Nat.eqb].
    destruct (num_embeddings e =? 0); [eexists; reflexivity|].
    destruct (forallb (in_table e) (id :: ids)) eqn:E; [|eexists; reflexivity].
    apply forallb_in_table in E. exfalso.
    apply Exists_exists in Hex. destruct Hex as [bad [Hin Hbad]].
    rewrite Forall_forall in E. specialize (E bad Hin). lia.
Qed.

End EmbeddingProofs.

(** X8: on token ids that all lie in [0, vocab_size), [InputEmbedding.forward]
    returns a tensor of the shape of the ids with one more axis of length
    [d_model]; the vector of a token is its row of the embedding table
    multiplied by [sqrt(d_model)]. *)
Theorem input_embedding_scales_rows
        (theta : ParamInit) (d_model vocab_size : Z) (sh : list nat) (ids : list Z) :
  (0 <= d_model)%Z -> (0 <= vocab_size)%Z ->
  Forall (fun id => (0 <= id < vocab_size)%Z) ids ->
  exists emb,
    InputEmbedding.init theta d_model vocab_size = Ok emb
    /\ InputEmbedding.forward emb (mkT sh ids)
       = Ok (mkT (sh ++ [Z.to_nat d_model])
               (flat_map (fun id =>
                            map (fun j => Rmult (theta "embedding.weight"
                                                   (Z.to_nat id * Z.to_nat d_model + j))
                                                (sqrt (IZR d_model)))
                                (seq 0 (Z.to_nat d_model)))
                         ids)).
Proof.
  intros Hd Hv Hids. unfold InputEmbedding.init, Embedding_init, size_of_int.
  replace (vocab_size <? 0)%Z with false by (symmetry; apply Z.ltb_ge; lia).
  replace (d_model <? 0)%Z with false by (symmetry; apply Z.ltb_ge; lia).
  cbn [rbind]. eexists. split; [reflexivity|].
  unfold InputEmbedding.forward, Embedding_forward, math_sqrt.
  cbn [InputEmbedding.embedding InputEmbedding.d_model data shape].
  rewrite lookup_rows_in_range
    by (eapply Forall_impl; [|exact Hids]; cbv beta; intros; lia).
  replace (d_model <? 0)%Z with false by (symmetry; apply Z.ltb_ge; lia).
  cbn [rbind embedding_dim]. unfold tmap. cbn [shape data].
  f_equal. f_equal.
  rewrite !flat_map_concat_map, concat_map, map_map. f_equal.
  apply map_ext. intros id. now rewrite map_map.
Qed.

Lemma input_embedding_scales_rows_witness :
  exists emb,
    InputEmbedding.init (fun _ _ => 1%R) 2 3 = Ok emb
    /\ InputEmbedding.forward emb (mkT [1; 2] [0; 2]%Z)
       = Ok (mkT ([1; 2] ++ [Z.to_nat 2])
               (flat_map (fun id =>
                            map (fun j => (1 * sqrt (IZR 2))%R) (seq 0 (Z.to_nat 2)))
                         [0; 2]%Z)).
Proof.
  apply (@input_embedding_scales_rows (fun _ _ => 1%R) 2 3 [1; 2] [0; 2]%Z).
  - lia.
  - lia.
  - repeat constructor; lia.
Defined.

(** X9: a single token id below 0 or not below [vocab_size] makes
    [InputEmbedding.forward] raise, and nothing is returned for the other
    tokens.  On an embedding table that holds elements ([d_model > 0] and
    [vocab_size > 0]) the exception is the [IndexError] of the lookup; on
    a table without elements it is a [RuntimeError]. *)
Theorem input_embedding_out_of_range
        (theta : ParamInit) (d_model vocab_size : Z) (emb : InputEmbedding.t)
        (sh : list nat) (ids : list Z) :
  InputEmbedding.init theta d_model vocab_size = Ok emb ->
  Exists (fun id => (id < 0 \/ vocab_size <= id)%Z) ids ->
  ((0 < d_model)%Z -> (0 < vocab_size)%Z ->
   InputEmbedding.forward emb (mkT sh ids)
   = Raise (IndexError "index out of range in self"))
  /\ (d_model = 0%Z \/ vocab_size = 0%Z ->
      exists msg, InputEmbedding.forward emb (mkT sh ids) = Raise (RuntimeError msg)).
Proof.
  unfold InputEmbedding.init, Embedding_init, size_of_int.
  destruct (vocab_size <? 0)%Z eqn:Ev; [discriminate|].
  destruct (d_model <? 0)%Z eqn:Ed; [discriminate|].
  cbn [rbind]. intros H Hex. injection H as <-.
  apply Z.ltb_ge in Ev. apply Z.ltb_ge in Ed.
  unfold InputEmbedding.forward, Embedding_forward.
  cbn [InputEmbedding.embedding data].
  set (e := mkEmbedding (Z.to_nat vocab_size) (Z.to_nat d_model)
                        (tabulate [Z.to_nat vocab_size; Z.to_nat d_model]
                                  (theta "embedding.weight"))).
  assert (Hex' : Exists (fun id => (id < 0 \/ Z.of_nat (num_embeddings e) <= id)%Z) ids).
  { unfold e. cbn [num_embeddings]. rewrite Z2Nat.id by lia. exact Hex. }
  destruct (lookup_rows_out_of_range e Hex') as [Hfull Hempty].
  assert (Hnum : numel (shape (eweight e)) = Z.to_nat vocab_size * Z.to_nat d_model).
  { unfold e. cbn [eweight tabulate shape numel fold_right]. lia. }
  split.
  - intros Hd Hv. rewrite Hfull; [reflexivity|]. rewrite Hnum. nia.
  - intros Hz. destruct Hempty as [msg Hmsg].
    + rewrite Hnum. destruct Hz as [-> | ->]; cbn; lia.
    + rewrite Hmsg. now exists msg.
Qed.

Lemma input_embedding_out_of_range_witness :
  exists emb,
    InputEmbedding.init (fun _ _ => 1%R) 2 3 = Ok emb
    /\ InputEmbedding.forward emb (mkT [3] [0; 3; 1]%Z)
       = Raise (IndexError "index out of range in self").
Proof.
  eexists. split; [reflexivity|].
  refine (proj1 (@input_embedding_out_of_range (fun _ _ => 1%R) 2 3 _ [3] [0; 3; 1]%Z
                   eq_refl _) _ _).
  - apply Exists_cons_tl. apply Exists_cons_hd. right. lia.
  - reflexivity.
  - reflexivity.
Defined.

(* ================================================================== *)
(** * PositionWiseFeedForward *)
(* ================================================================== *)

Section FeedForwardProofs.

Import PositionWiseFeedForward.

Lemma affine_row_length (l : Linear) (row : list R) :
  length (affine_row l row) = out_features l.
Proof. unfold affine_row. now rewrite imap_length, chunks_length. Qed.

(** A linear layer works row by row. *)
Lemma Linear_forward_rows (l : Linear) (sh : list nat) (xd : list R) :
  Linear_forward l (mkT (sh ++ [in_features l]) xd)
  = Ok (mkT (sh ++ [out_features l])
          (flat_map (affine_row l) (chunks (in_features l) (numel sh) xd))).
Proof.
  unfold Linear_forward. cbn [shape].
  destruct (sh ++ [in_features l]) as [|a rest] eqn:E;
    [destruct sh; discriminate|].
  rewrite <- E, last_dim_app, Nat.eqb_refl, removelast_last, rows_of_app.
  reflexivity.
Qed.

Lemma Linear_forward_wrong_width (l : Linear) (sh : list nat) (d : nat) (xd : list R) :
  d <> in_features l ->
  Linear_forward l (mkT (sh ++ [d]) xd)
  = Raise (RuntimeError "mat1 and mat2 shapes cannot be multiplied").
Proof.
  intros Hd. unfold Linear_forward. cbn [shape].
  destruct (sh ++ [d]) as [|a rest] eqn:E; [destruct sh; discriminate|].
  rewrite <- E, last_dim_app.
  now replace (d =? in_features l) with false by (symmetry; apply Nat.eqb_neq; exact Hd).
Qed.

Lemma init_inv_ffn (theta : ParamInit) (dm dff : Z) (p : Q) (ffn : t) :
  init theta dm dff p = Ok ffn ->
  in_features (linear1 ffn) = Z.to_nat dm /\ out_features (linear1 ffn) = Z.to_nat dff
  /\ in_features (linear2 ffn) = Z.to_nat dff /\ out_features (linear2 ffn) = Z.to_nat dm
  /\ dropout ffn = mkDropout p true.
Proof.
  unfold init.
  destruct (Linear_init _ _ dm dff true) as [l1|] eqn:E1; [|discriminate].
  destruct (Linear_init _ _ dff dm true) as [l2|] eqn:E2; [|discriminate].
  cbn [rbind]. unfold Dropout_init.
  destruct (Qle_bool 0 p && Qle_bool p 1); [|discriminate].
  cbn [rbind]. intros H. injection H as <-. cbn [linear1 linear2 dropout].
  apply Linear_init_inv in E1, E2.
  destruct E1 as (_ & _ & H1 & H2), E2 as (_ & _ & H3 & H4). auto.
Qed.

End FeedForwardProofs.

(** X10: with its dropout off, [PositionWiseFeedForward.forward] treats
    every position on its own: the output keeps the shape of the input and
    its row at a position is [linear2(relu(linear1(row)))] of the input row
    at that position, whatever the other positions hold. *)
Theorem feed_forward_position_wise
        (theta : ParamInit) (d_model d_ff : Z) (ffn : PositionWiseFeedForward.t)
        (sh : list nat) (xd : list R) (g : Rng) :
  PositionWiseFeedForward.init theta d_model d_ff 0 = Ok ffn ->
  wf (mkT (sh ++ [Z.to_nat d_model]) xd) ->
  PositionWiseFeedForward.forward ffn (mkT (sh ++ [Z.to_nat d_model]) xd) g
  = (Ok (mkT (sh ++ [Z.to_nat d_model])
           (flat_map (ffn_row ffn) (chunks (Z.to_nat d_model) (numel sh) xd))), g)
  /\ Forall (fun row => length row = Z.to_nat d_model)
       (map (ffn_row ffn) (chunks (Z.to_nat d_model) (numel sh) xd)).
Proof.
  intros Hi Hx. apply init_inv_ffn in Hi.
  destruct Hi as (H1 & H2 & H3 & H4 & Hdrop). split.
  - unfold PositionWiseFeedForward.forward, bind, lift.
    rewrite <- H1 at 1. rewrite Linear_forward_rows.
    unfold PositionWiseFeedForward.relu, tmap. cbn [shape data].
    rewrite Hdrop, Dropout_forward_inactive by reflexivity.
    rewrite H2, <- H3, Linear_forward_rows, H4, H1.
    f_equal. f_equal. f_equal.
    rewrite chunks_map.
    rewrite <- (chunks_length (Z.to_nat d_model) (numel sh) xd) at 1.
    rewrite chunks_flat_map by (intros; rewrite affine_row_length; congruence).
    rewrite !flat_map_concat_map, !map_map. reflexivity.
  - apply Forall_forall. intros r Hr. apply in_map_iff in Hr.
    destruct Hr as [row [<- _]]. unfold ffn_row. now rewrite affine_row_length.
Qed.

Lemma feed_forward_position_wise_witness :
  exists ffn,
    PositionWiseFeedForward.init (fun _ _ => 1%R) 1 2 0 = Ok ffn
    /\ PositionWiseFeedForward.forward ffn (mkT ([2] ++ [Z.to_nat 1]) [3; 4]%R)
         (mkRng 0 (fun _ => 0%Q))
       = (Ok (mkT ([2] ++ [Z.to_nat 1])
                (flat_map (ffn_row ffn) (chunks (Z.to_nat 1) (numel [2]) [3; 4]%R))),
          mkRng 0 (fun _ => 0%Q)).
Proof.
  eexists. split; [reflexivity|].
  apply (proj1 (@feed_forward_position_wise (fun _ _ => 1%R) 1 2 _ [2] [3; 4]%R
                  (mkRng 0 (fun _ => 0%Q)) eq_refl eq_refl)).
Defined.

(** X11: an input whose last axis is not [d_model] long is refused by
    [PositionWiseFeedForward.forward] in its first linear layer; no random
    number is drawn. *)
Theorem feed_forward_wrong_width
        (theta : ParamInit) (d_model d_ff : Z) (p : Q) (ffn : PositionWiseFeedForward.t)
        (sh : list nat) (d : nat) (xd : list R) (g : Rng) :
  PositionWiseFeedForward.init theta d_model d_ff p = Ok ffn ->
  d <> Z.to_nat d_model ->
  PositionWiseFeedForward.forward ffn (mkT (sh ++ [d]) xd) g
  = (Raise (RuntimeError "mat1 and mat2 shapes cannot be multiplied"), g).
Proof.
  intros Hi Hd. apply init_inv_ffn in Hi. destruct Hi as (H1 & _).
  unfold PositionWiseFeedForward.forward, bind, lift.
  rewrite Linear_forward_wrong_width by congruence. reflexivity.
Qed.

Lemma feed_forward_wrong_width_witness :
  exists ffn,
    PositionWiseFeedForward.init (fun _ _ => 1%R) 2 4 0 = Ok ffn
    /\ PositionWiseFeedForward.forward ffn (mkT ([1] ++ [3]) [1; 2; 3]%R)
         (mkRng 0 (fun _ => 0%Q))
       = (Raise (RuntimeError "mat1 and mat2 shapes cannot be multiplied"),
          mkRng 0 (fun _ => 0%Q)).
Proof.
  eexists. split; [reflexivity|].
  apply (@feed_forward_wrong_width (fun _ _ => 1%R) 2 4 0 _ [1] 3 [1; 2; 3]%R
           (mkRng 0 (fun _ => 0%Q)) eq_refl).
  simpl. lia.
Defined.

(* ================================================================== *)
(** * The static method [attention] called directly *)
(* ================================================================== *)

Section AttentionDirect.

Import MultiHeadAttentionBlock.
Local Open Scope R_scope.

Lemma Rsum_map_div (z : R) (l : list R) :
  Rsum (map (fun x => x / z) l) = Rsum l / z.
Proof.
  induction l as [|x l IH]; simpl; [unfold Rdiv; ring|].
  fold (Rsum (map (fun x => x / z) l)). fold (Rsum l). rewrite IH.
  unfold Rdiv. ring.
Qed.

Lemma Rsum_exp_pos (row : list R) : row <> [] -> 0 < Rsum (map exp row).
Proof.
  destruct row as [|x row]; [contradiction|]. intros _.
  pose proof (@Rsum_exp_ge (x :: row) 0%nat ltac:(simpl; lia)) as H.
  simpl nth in H. pose proof (exp_pos x). lra.
Qed.

(** A softmax row is a probability distribution. *)
Lemma softmax_row_distribution (row : list R) :
  row <> [] ->
  Rsum (softmax_row row) = 1 /\ Forall (fun q => 0 < q) (softmax_row row).
Proof.
  intros Hne. pose proof (Rsum_exp_pos Hne) as Hz. unfold softmax_row.
  set (z := Rsum (map exp row)) in *. split.
  - rewrite <- (map_map exp (fun y => y / z)), Rsum_map_div. fold z.
    field. lra.
  - apply Forall_forall. intros q Hq. apply in_map_iff in Hq.
    destruct Hq as [x [<- _]]. apply Rdiv_lt_0_compat; [apply exp_pos | exact Hz].
Qed.

Lemma softmax_row_length (row : list R) : length (softmax_row row) = length row.
Proof. unfold softmax_row. apply length_map. Qed.

Lemma masked_scores_length (mask : option (list bool)) (sc : list R) (n : nat) :
  length sc = n -> (forall md, mask = Some md -> length md = n) ->
  length (masked_scores mask sc) = n.
Proof.
  intros Hs Hm. destruct mask as [md|]; [|exact Hs].
  cbn [masked_scores]. rewrite map2_length, Hs, (Hm md eq_refl). apply Nat.min_id.
Qed.

(** The scores of a stack of heads. *)
Lemma scaled_scores_heads (b hh sq sk dk : nat) (qd kd : list R) :
  exists sc,
    scaled_scores (mkT [b; hh; sq; dk] qd) (mkT [b; hh; sk; dk] kd)
    = Ok (mkT [b; hh; sq; sk] sc)
    /\ length sc = numel [b; hh; sq; sk].
Proof.
  unfold scaled_scores, size, transpose. cbn [shape data length].
  change (norm_dim 4 (-1)) with (Ok 3%nat).
  change (norm_dim 4 (-2)) with (Ok 2%nat).
  cbn [rbind nth].
  change (swap 2 3 [b; hh; sk; dk]) with [b; hh; dk; sk].
  destruct (torch_matmul_batched_wf b hh sq dk sk qd
              (flat_map
                 (fun k => match nth_error kd
                                   (ravel [b; hh; sk; dk] (swap 2 3 (unravel [b; hh; dk; sk] k)))
                           with Some a => [a] | None => [] end)
                 (seq 0 (numel [b; hh; dk; sk])))) as [cd [Hcd Hlen]].
  rewrite Hcd. cbn [rbind]. unfold tmap. cbn [shape data].
  eexists. split; [reflexivity|]. now rewrite length_map.
Qed.

(** [attention] begins with the scores. *)
Lemma attention_from_scores (query key value : Tensor)
      (mask : option PyObj) (drop : option Dropout) (g : Rng) (s : Tensor) :
  scaled_scores query key = Ok s ->
  attention query key value mask drop g
  = (sc <- match mask with
           | Some m => lift (masked_fill s (py_eq_zero m) (-1000000000))
           | None => ret s
           end ;;
     let probs := softmax_last sc in
     probs <- match drop with
              | Some d => Dropout_forward d probs
              | None => ret probs
              end ;;
     out <- lift (torch_matmul probs value) ;;
     ret (out, probs))%M g.
Proof.
  unfold scaled_scores, attention, bind, lift.
  destruct (size query (-1)) as [dk|]; cbn [rbind]; [|discriminate].
  destruct (transpose key (-2) (-1)) as [kt|]; cbn [rbind]; [|discriminate].
  destruct (torch_matmul query kt) as [qk|]; cbn [rbind]; [|discriminate].
  intros H. injection H as <-. reflexivity.
Qed.

(** Without dropout, [attention] on a stack of heads returns the attended
    values and the softmax of the (masked) scores. *)
Lemma attention_heads (b hh sq sk dk dv : nat) (qd kd vd sc : list R)
      (mask : option (list bool)) (g : Rng) :
  scaled_scores (mkT [b; hh; sq; dk] qd) (mkT [b; hh; sk; dk] kd)
  = Ok (mkT [b; hh; sq; sk] sc) ->
  length sc = numel [b; hh; sq; sk] ->
  (forall md, mask = Some md -> length md = numel [b; hh; sq; sk]) ->
  exists od,
    attention (mkT [b; hh; sq; dk] qd) (mkT [b; hh; sk; dk] kd) (mkT [b; hh; sk; dv] vd)
              (mask_argument [b; hh; sq; sk] mask) None g
    = (Ok (mkT [b; hh; sq; dv] od,
           mkT [b; hh; sq; sk]
               (flat_map softmax_row
                         (chunks sk (numel [b; hh; sq]) (masked_scores mask sc)))), g)
    /\ length od = numel [b; hh; sq; dv].
Proof.
  intros Hs Hlen Hm. rewrite (@attention_from_scores _ _ _ _ _ _ _ Hs).
  unfold bind, lift, ret.
  assert (Hfill : match mask_argument [b; hh; sq; sk] mask with
                  | Some m => masked_fill (mkT [b; hh; sq; sk] sc) (py_eq_zero m) (-1000000000)
                  | None => Ok (mkT [b; hh; sq; sk] sc)
                  end = Ok (mkT [b; hh; sq; sk] (masked_scores mask sc))).
  { destruct mask as [md|]; [|reflexivity]. cbn [mask_argument masked_scores].
    apply masked_fill_tensor; [exact Hlen | now apply Hm]. }
  destruct mask as [md|]; cbn [mask_argument] in *.
  - rewrite Hfill. unfold softmax_last, rows_of. cbn [shape data last_dim last removelast].
    destruct (torch_matmul_batched_wf b hh sq sk dv
                (flat_map softmax_row
                   (chunks sk (numel [b; hh; sq]) (masked_scores (Some md) sc))) vd)
      as [od [Hod Hol]].
    rewrite Hod. exists od. split; [reflexivity | exact Hol].
  - unfold softmax_last, rows_of. cbn [shape data last_dim last removelast].
    destruct (torch_matmul_batched_wf b hh sq sk dv
                (flat_map softmax_row
                   (chunks sk (numel [b; hh; sq]) (masked_scores None sc))) vd)
      as [od [Hod Hol]].
    cbn [masked_scores] in Hod. rewrite Hod. exists od. split; [reflexivity | exact Hol].
Qed.


Lemma nth_chunks (n k r u : nat) (l : list R) :
  (r < k)%nat -> (u < n)%nat -> length l = (k * n)%nat ->
  nth u (nth r (chunks n k l) []) 0 = nth (r * n + u) l 0.
Proof.
  revert r l; induction k as [|k IH]; intros r l Hr Hu Hl; [lia|].
  cbn [chunks]. destruct r as [|r]; cbn [nth].
  - cbn [Nat.mul Nat.add]. rewrite <- (firstn_skipn n l) at 2.
    rewrite app_nth1; [reflexivity|]. rewrite length_firstn. simpl in Hl. lia.
  - rewrite IH by (rewrite ?length_skipn; simpl in Hl; lia).
    rewrite <- (firstn_skipn n l) at 2.
    rewrite app_nth2 by (rewrite length_firstn; simpl; lia).
    f_equal. rewrite length_firstn. simpl in *. lia.
Qed.

Lemma nth_flat_map_chunks (g : list R -> list R) (n k r i : nat) (l : list R) :
  (forall row, length (g row) = length row) ->
  length l = (k * n)%nat -> (r < k)%nat -> (i < n)%nat ->
  nth (r * n + i) (flat_map g (chunks n k l)) 0
  = nth i (g (nth r (chunks n k l) [])) 0.
Proof.
  intros Hg. revert r l; induction k as [|k IH]; intros r l Hl Hr Hi; [lia|].
  cbn [chunks flat_map].
  assert (Hf : length (g (firstn n l)) = n).
  { rewrite Hg, length_firstn. simpl in Hl. lia. }
  destruct r as [|r]; cbn [nth].
  - cbn [Nat.mul Nat.add]. rewrite app_nth1 by lia. reflexivity.
  - rewrite app_nth2 by (simpl; lia). rewrite Hf.
    replace (S r * n + i - n)%nat with (r * n + i)%nat by (simpl; lia).
    apply IH; [rewrite length_skipn; simpl in Hl; lia | lia | exact Hi].
Qed.

Lemma numel_snoc (sh : list nat) (n : nat) : numel (sh ++ [n]) = (numel sh * n)%nat.
Proof. rewrite numel_app. simpl. lia. Qed.

(** X12: called directly on a stack of heads of positive width, with no
    mask or a boolean mask of the scores' shape and with no dropout,
    [attention] returns
    without touching the generator; the attended values have the shape of
    the queries with the width of the values, and every row of the
    returned probabilities is a distribution over the keys: positive
    entries that sum to 1. *)
Theorem attention_returns_distributions
        (b hh sq sk dk dv : nat) (qd kd vd : list R)
        (mask : option (list bool)) (g : Rng) :
  (0 < dk)%nat -> (0 < sk)%nat ->
  (forall md, mask = Some md -> length md = numel [b; hh; sq; sk]) ->
  exists out probs,
    attention (mkT [b; hh; sq; dk] qd) (mkT [b; hh; sk; dk] kd) (mkT [b; hh; sk; dv] vd)
              (mask_argument [b; hh; sq; sk] mask) None g
    = (Ok (out, probs), g)
    /\ shape out = [b; hh; sq; dv] /\ wf out
    /\ shape probs = [b; hh; sq; sk] /\ wf probs
    /\ Forall (fun row => length row = sk /\ Rsum row = 1 /\ Forall (fun q => 0 < q) row)
              (rows_of probs).
Proof.
  intros _ Hsk Hm.
  destruct (scaled_scores_heads b hh sq sk dk qd kd) as [sc [Hs Hlen]].
  destruct (@attention_heads b hh sq sk dk dv qd kd vd sc mask g Hs Hlen Hm)
    as [od [Hatt Hol]].
  rewrite Hatt. do 2 eexists. split; [reflexivity|].
  set (fd := masked_scores mask sc).
  assert (Hfd : length fd = (numel [b; hh; sq] * sk)%nat).
  { unfold fd. apply masked_scores_length; [|intros md E; rewrite (Hm md E)];
      [rewrite Hlen|]; change [b; hh; sq; sk] with ([b; hh; sq] ++ [sk]);
      apply numel_snoc. }
  pose proof (chunks_each sk (numel [b; hh; sq]) fd Hfd) as Hrows.
  assert (Hsm : Forall (fun c => length c = sk) (map softmax_row (chunks sk (numel [b; hh; sq]) fd))).
  { apply Forall_forall. intros c Hc. apply in_map_iff in Hc.
    destruct Hc as [row [<- Hin]]. rewrite softmax_row_length.
    revert row Hin. apply Forall_forall. exact Hrows. }
  split; [reflexivity|]. split; [exact Hol|]. split; [reflexivity|].
  split.
  - unfold wf. cbn [shape data]. rewrite flat_map_concat_map.
    rewrite (length_concat_rows Hsm), length_map, chunks_length.
    change [b; hh; sq; sk] with ([b; hh; sq] ++ [sk]). now rewrite numel_snoc.
  - unfold rows_of. cbn [shape data last_dim last removelast].
    rewrite flat_map_concat_map.
    rewrite <- (chunks_length sk (numel [b; hh; sq]) fd) at 1.
    rewrite <- (length_map softmax_row (chunks sk (numel [b; hh; sq]) fd)).
    rewrite (chunks_concat Hsm).
    apply Forall_forall. intros c Hc. apply in_map_iff in Hc.
    destruct Hc as [row [<- Hin]].
    assert (Hrow : length row = sk).
    { revert row Hin. apply Forall_forall. exact Hrows. }
    assert (Hne : row <> []) by (intros ->; simpl in Hrow; lia).
    destruct (softmax_row_distribution Hne) as [H1 H2].
    rewrite softmax_row_length. auto.
Qed.

Lemma attention_returns_distributions_witness :
  (0 < 1)%nat /\ (0 < 2)%nat
  /\ (forall md, Some [true; false] = Some md -> length md = numel [1; 1; 1; 2]%nat)
  /\ exists out probs,
    attention (mkT [1; 1; 1; 1]%nat [1]) (mkT [1; 1; 2; 1]%nat [1; 0])
              (mkT [1; 1; 2; 1]%nat [3; 4])
              (mask_argument [1; 1; 1; 2]%nat (Some [true; false])) None (mkRng 0 (fun _ => 0%Q))
    = (Ok (out, probs), mkRng 0 (fun _ => 0%Q))
    /\ shape out = [1; 1; 1; 1]%nat /\ wf out
    /\ shape probs = [1; 1; 1; 2]%nat /\ wf probs
    /\ Forall (fun row => length row = 2%nat /\ Rsum row = 1 /\ Forall (fun q => 0 < q) row)
              (rows_of probs).
Proof.
  assert (H0 : (0 < 1)%nat) by lia.
  assert (H1 : (0 < 2)%nat) by lia.
  assert (H2 : forall md, Some [true; false] = Some md -> length md = numel [1; 1; 1; 2]%nat).
  { intros md E. injection E as <-. reflexivity. }
  split; [exact H0|]. split; [exact H1|]. split; [exact H2|].
  exact (@attention_returns_distributions 1 1 1 2 1 1 [1] [1; 0] [3; 4]
           (Some [true; false]) (mkRng 0 (fun _ => 0%Q)) H0 H1 H2).
Defined.

(** X13: with a boolean mask of the scores' shape, a key position the
    mask hides from a query receives at most [exp(-1e9 - s)] of that
    query's attention, for the score [s] of any key the mask lets this
    query see. *)
Theorem attention_masked_position
        (b hh sq sk dk dv : nat) (qd kd vd : list R) (md : list bool) (g : Rng) :
  (0 < dk)%nat ->
  length md = numel [b; hh; sq; sk] ->
  exists sc out probs,
    scaled_scores (mkT [b; hh; sq; dk] qd) (mkT [b; hh; sk; dk] kd)
    = Ok (mkT [b; hh; sq; sk] sc)
    /\ attention (mkT [b; hh; sq; dk] qd) (mkT [b; hh; sk; dk] kd) (mkT [b; hh; sk; dv] vd)
                 (Some (PyBoolTensor (mkT [b; hh; sq; sk] md))) None g
       = (Ok (out, probs), g)
    /\ forall r j u : nat,
        (r < numel [b; hh; sq])%nat -> (j < sk)%nat -> (u < sk)%nat ->
        nth (r * sk + j) md true = false ->
        nth (r * sk + u) md true = true ->
        0 <= nth (r * sk + j) (data probs) 0
          <= exp (-1000000000 - nth (r * sk + u) sc 0).
Proof.
  intros _ Hm.
  destruct (scaled_scores_heads b hh sq sk dk qd kd) as [sc [Hs Hlen]].
  assert (Hm' : forall md', Some md = Some md' -> length md' = numel [b; hh; sq; sk]).
  { intros md' E. injection E as <-. exact Hm. }
  destruct (@attention_heads b hh sq sk dk dv qd kd vd sc (Some md) g Hs Hlen Hm')
    as [od [Hatt _]].
  cbn [mask_argument] in Hatt.
  exists sc. do 2 eexists. split; [exact Hs|]. split; [exact Hatt|].
  intros r j u Hr Hj Hu Hmj Hmu. cbn [data].
  set (N := numel [b; hh; sq]) in *.
  assert (HN : numel [b; hh; sq; sk] = (N * sk)%nat).
  { change [b; hh; sq; sk] with ([b; hh; sq] ++ [sk]). apply numel_snoc. }
  set (fd := masked_scores (Some md) sc).
  assert (Hfd : length fd = (N * sk)%nat).
  { unfold fd. apply masked_scores_length; [|intros md' E; rewrite (Hm' md' E)]; lia. }
  rewrite (@nth_flat_map_chunks softmax_row sk N r j fd softmax_row_length Hfd Hr Hj).
  set (row := nth r (chunks sk N fd) []).
  assert (Hrow : length row = sk).
  { pose proof (chunks_each sk N fd Hfd) as Hall.
    rewrite Forall_forall in Hall. apply Hall. unfold row. apply nth_In.
    now rewrite chunks_length. }
  destruct (@softmax_row_bound row j u) as [Hpos Hle]; [lia | lia |].
  assert (Hidx : forall v, (v < sk)%nat -> (r * sk + v < N * sk)%nat) by (intros; nia).
  assert (Hrj : nth j row 0 = -1000000000).
  { unfold row. rewrite (@nth_chunks sk N r j fd Hr Hj Hfd). unfold fd. cbn [masked_scores].
    rewrite (@nth_map2 _ _ _ _ sc md (r * sk + j)%nat 0 0 true)
      by (rewrite ?Hlen, ?Hm, HN; apply Hidx; assumption).
    now rewrite Hmj. }
  assert (Hru : nth u row 0 = nth (r * sk + u) sc 0).
  { unfold row. rewrite (@nth_chunks sk N r u fd Hr Hu Hfd). unfold fd. cbn [masked_scores].
    rewrite (@nth_map2 _ _ _ _ sc md (r * sk + u)%nat 0 0 true)
      by (rewrite ?Hlen, ?Hm, HN; apply Hidx; assumption).
    now rewrite Hmu. }
  rewrite Hrj, Hru in Hle. lra.
Qed.

Lemma attention_masked_position_witness :
  (0 < 1)%nat
  /\ length [true; false] = numel [1; 1; 1; 2]%nat
  /\ exists sc out probs,
    scaled_scores (mkT [1; 1; 1; 1]%nat [1]) (mkT [1; 1; 2; 1]%nat [1; 0])
    = Ok (mkT [1; 1; 1; 2]%nat sc)
    /\ attention (mkT [1; 1; 1; 1]%nat [1]) (mkT [1; 1; 2; 1]%nat [1; 0])
                 (mkT [1; 1; 2; 1]%nat [3; 4])
                 (Some (PyBoolTensor (mkT [1; 1; 1; 2]%nat [true; false]))) None
                 (mkRng 0 (fun _ => 0%Q))
       = (Ok (out, probs), mkRng 0 (fun _ => 0%Q))
    /\ forall r j u : nat,
        (r < numel [1; 1; 1]%nat)%nat -> (j < 2)%nat -> (u < 2)%nat ->
        nth (r * 2 + j) [true; false] true = false ->
        nth (r * 2 + u) [true; false] true = true ->
        0 <= nth (r * 2 + j) (data probs) 0
          <= exp (-1000000000 - nth (r * 2 + u) sc 0).
Proof.
  assert (H0 : (0 < 1)%nat) by lia.
  assert (H : length [true; false] = numel [1; 1; 1; 2]%nat) by reflexivity.
  split; [exact H0|]. split; [exact H|].
  exact (@attention_masked_position 1 1 1 2 1 1 [1] [1; 0] [3; 4] [true; false]
           (mkRng 0 (fun _ => 0%Q)) H0 H).
Defined.

(** X14: called directly, [attention] with an all-ones mask of the scores'
    shape returns what it returns with [mask=None], and both calls do
    return. *)
Theorem attention_all_ones_is_no_mask
        (b hh sq sk dk dv : nat) (qd kd vd : list R) (g : Rng) :
  (0 < dk)%nat ->
  exists out probs,
    attention (mkT [b; hh; sq; dk] qd) (mkT [b; hh; sk; dk] kd) (mkT [b; hh; sk; dv] vd)
              None None g
    = (Ok (out, probs), g)
    /\ attention (mkT [b; hh; sq; dk] qd) (mkT [b; hh; sk; dk] kd) (mkT [b; hh; sk; dv] vd)
                 (Some (PyBoolTensor
                          (mkT [b; hh; sq; sk] (repeat true (numel [b; hh; sq; sk])))))
                 None g
       = (Ok (out, probs), g).
Proof.
  intros _.
  destruct (scaled_scores_heads b hh sq sk dk qd kd) as [sc [Hs Hlen]].
  assert (Hn : forall md, @None (list bool) = Some md -> length md = numel [b; hh; sq; sk])
    by (intros md E; discriminate E).
  destruct (@attention_heads b hh sq sk dk dv qd kd vd sc None g Hs Hlen Hn)
    as [od [Hatt _]].
  cbn [mask_argument masked_scores] in Hatt.
  rewrite attention_all_ones. rewrite Hatt.
  do 2 eexists. split; reflexivity.
Qed.

Lemma attention_all_ones_is_no_mask_witness :
  (0 < 1)%nat
  /\ exists out probs,
    attention (mkT [1; 1; 1; 1]%nat [1]) (mkT [1; 1; 2; 1]%nat [1; 0])
              (mkT [1; 1; 2; 1]%nat [3; 4]) None None (mkRng 0 (fun _ => 0%Q))
    = (Ok (out, probs), mkRng 0 (fun _ => 0%Q))
    /\ attention (mkT [1; 1; 1; 1]%nat [1]) (mkT [1; 1; 2; 1]%nat [1; 0])
                 (mkT [1; 1; 2; 1]%nat [3; 4])
                 (Some (PyBoolTensor
                          (mkT [1; 1; 1; 2]%nat (repeat true (numel [1; 1; 1; 2]%nat)))))
                 None (mkRng 0 (fun _ => 0%Q))
       = (Ok (out, probs), mkRng 0 (fun _ => 0%Q)).
Proof.
  assert (H0 : (0 < 1)%nat) by lia.
  split; [exact H0|].
  exact (@attention_all_ones_is_no_mask 1 1 1 2 1 1 [1] [1; 0] [3; 4]
           (mkRng 0 (fun _ => 0%Q)) H0).
Defined.

End AttentionDirect.

(* ================================================================== *)
(** * Construction of a MultiHeadAttentionBlock *)
(* ================================================================== *)

Section AttentionConstruction.

Import MultiHeadAttentionBlock.

Lemma Linear_init_ok (w b : nat -> R) (i o : Z) (use_bias : bool) :
  (0 <= i)%Z -> (0 <= o)%Z ->
  Linear_init w b i o use_bias
  = Ok (mkLinear (Z.to_nat i) (Z.to_nat o) (tabulate [Z.to_nat o; Z.to_nat i] w)
                 (if use_bias then Some (tabulate [Z.to_nat o] b) else None)).
Proof.
  intros Hi Ho. unfold Linear_init, size_of_int.
  destruct (Z.ltb_spec i 0); [lia|]. destruct (Z.ltb_spec o 0); [lia|]. reflexivity.
Qed.

Lemma Linear_init_negative (w b : nat -> R) (i o : Z) (use_bias : bool) :
  (i < 0)%Z -> exists e, Linear_init w b i o use_bias = Raise e.
Proof.
  intros Hi. unfold Linear_init, size_of_int.
  destruct (Z.ltb_spec i 0); [|lia]. eexists. reflexivity.
Qed.

Lemma Dropout_init_ok (p : Q) :
  (0 <= p)%Q -> (p <= 1)%Q -> Dropout_init p = Ok (mkDropout p true).
Proof.
  intros H0 H1. unfold Dropout_init.
  apply Qle_bool_iff in H0. apply Qle_bool_iff in H1. now rewrite H0, H1.
Qed.

Lemma Dropout_init_inv (p : Q) (d : Dropout) :
  Dropout_init p = Ok d -> (0 <= p)%Q /\ (p <= 1)%Q.
Proof.
  unfold Dropout_init.
  destruct (Qle_bool 0 p) eqn:E0; [|discriminate].
  destruct (Qle_bool p 1) eqn:E1; [|discriminate].
  intros _. split; now apply Qle_bool_iff.
Qed.

Lemma tabulate_wf {A} (sh : list nat) (f : nat -> A) : wf (tabulate sh f).
Proof. unfold wf, tabulate. cbn [shape data]. now rewrite length_map, length_seq. Qed.

End AttentionConstruction.

(** X15: [MultiHeadAttentionBlock(d_model, h, dropout)] is built exactly
    when [h] is not 0, divides [d_model], [d_model] is not negative and
    the dropout probability lies in [0, 1].  A zero [h] stops the
    constructor at the modulo with ZeroDivisionError and an [h] that does
    not divide [d_model] at the assertion, whatever the other arguments
    are.  A block that is built has [h * d_k = d_model] and four square
    projections of size [d_model] without bias. *)
Theorem attention_block_construction (theta : ParamInit) (dm hh : Z) (p : Q) :
  (hh = 0%Z ->
   exists msg, MultiHeadAttentionBlock.init theta dm hh p = Raise (ZeroDivisionError msg))
  /\ (hh <> 0%Z -> (dm mod hh)%Z <> 0%Z ->
      MultiHeadAttentionBlock.init theta dm hh p
      = Raise (AssertionError "d_model is not divisible by h"))
  /\ ((exists blk, MultiHeadAttentionBlock.init theta dm hh p = Ok blk)
      <-> hh <> 0%Z /\ (dm mod hh)%Z = 0%Z /\ (0 <= dm)%Z /\ (0 <= p)%Q /\ (p <= 1)%Q)
  /\ (forall blk, MultiHeadAttentionBlock.init theta dm hh p = Ok blk ->
      MultiHeadAttentionBlock.d_model blk = dm
      /\ MultiHeadAttentionBlock.h blk = hh
      /\ (MultiHeadAttentionBlock.h blk * MultiHeadAttentionBlock.d_k blk)%Z = dm
      /\ Forall (fun l => in_features l = Z.to_nat dm /\ out_features l = Z.to_nat dm
                          /\ lbias l = None /\ wf (weight l))
                [MultiHeadAttentionBlock.wq blk; MultiHeadAttentionBlock.wk blk;
                 MultiHeadAttentionBlock.wv blk; MultiHeadAttentionBlock.wo blk]).
Proof.
  split; [|split; [|split]].
  - intros ->. unfold MultiHeadAttentionBlock.init. cbn [Z.eqb]. eexists. reflexivity.
  - intros Hh Hm. unfold MultiHeadAttentionBlock.init.
    destruct (Z.eqb_spec hh 0); [contradiction|].
    destruct (Z.eqb_spec (dm mod hh) 0); [contradiction|]. reflexivity.
  - split.
    + intros [blk Hb]. pose proof Hb as Hb'. apply init_inv in Hb'.
      destruct Hb' as (Hh & Hm & Hd & _).
      split; [exact Hh|]. split; [exact Hm|]. split; [exact Hd|].
      revert Hb. unfold MultiHeadAttentionBlock.init.
      destruct (Z.eqb_spec hh 0); [contradiction|].
      destruct (Z.eqb_spec (dm mod hh) 0); [|contradiction]. cbn [negb].
      rewrite !Linear_init_ok by assumption. cbn [rbind].
      destruct (Dropout_init p) as [dr|] eqn:Ed; [|discriminate].
      intros _. exact (Dropout_init_inv _ Ed).
    + intros (Hh & Hm & Hd & H0 & H1). unfold MultiHeadAttentionBlock.init.
      destruct (Z.eqb_spec hh 0); [contradiction|].
      destruct (Z.eqb_spec (dm mod hh) 0); [|contradiction]. cbn [negb].
      rewrite !Linear_init_ok by assumption. cbn [rbind].
      rewrite Dropout_init_ok by assumption. cbn [rbind]. eexists. reflexivity.
  - intros blk Hb. pose proof Hb as Hb'. apply init_inv in Hb'.
    destruct Hb' as (Hh & Hm & Hd & _).
    revert Hb. unfold MultiHeadAttentionBlock.init.
    destruct (Z.eqb_spec hh 0); [contradiction|].
    destruct (Z.eqb_spec (dm mod hh) 0); [|contradiction]. cbn [negb].
    rewrite !Linear_init_ok by assumption. cbn [rbind].
    destruct (Dropout_init p) as [dr|]; [|discriminate]. cbn [rbind].
    intros H. injection H as <-.
    cbn [MultiHeadAttentionBlock.d_model MultiHeadAttentionBlock.h MultiHeadAttentionBlock.d_k
         MultiHeadAttentionBlock.wq MultiHeadAttentionBlock.wk MultiHeadAttentionBlock.wv
         MultiHeadAttentionBlock.wo].
    split; [reflexivity|]. split; [reflexivity|]. split.
    + symmetry. apply Z_div_exact_full_2; assumption.
    + repeat constructor; cbn [in_features out_features lbias weight]; apply tabulate_wf.
Qed.

(* ================================================================== *)
(** * Encoder blocks that are assembled by hand *)
(* ================================================================== *)

Section EncoderRuns.

Lemma residual_sublayer_raises (rc : ResidualConnection.t) (x : Tensor)
      (sublayer : Tensor -> M Tensor) (g : Rng) :
  (forall n, exists e, sublayer n g = (Raise e, g)) ->
  exists e, ResidualConnection.forward rc x sublayer g = (Raise e, g).
Proof.
  intros Hs. unfold ResidualConnection.forward, bind, lift.
  destruct (LayerNormalization.forward (ResidualConnection.norm rc) x) as [n|e];
    [|now exists e].
  destruct (Hs n) as [e He]. rewrite He. now exists e.
Qed.

Lemma encoder_block_forward_raises (blk : EncoderBlock.t) (x : Tensor)
      (mask : option PyObj) (g : Rng) :
  exists e, EncoderBlock.forward blk x mask g = (Raise e, g).
Proof.
  unfold EncoderBlock.forward. unfold bind at 1. unfold lift at 1.
  destruct (getitem (EncoderBlock.res_con blk) 0) as [rc0|e]; [|now exists e].
  unfold bind at 1.
  destruct (@residual_sublayer_raises rc0 x
              (fun x0 => (r <- MultiHeadAttentionBlock.forward
                                 (EncoderBlock.selfattn_block blk) x0 x0 x0 mask ;;
                          ret (fst r))%M) g) as [e He].
  - intros n. unfold bind.
    destruct (forward_raises (EncoderBlock.selfattn_block blk) n n n mask g) as [e He].
    rewrite He. now exists e.
  - rewrite He. now exists e.
Qed.

Lemma Dropout_forward_shape (d : Dropout) (x : Tensor) (g : Rng) :
  exists y g', Dropout_forward d x g = (Ok y, g')
               /\ shape y = shape x /\ length (data y) = length (data x).
Proof.
  unfold Dropout_forward.
  destruct (negb (training d) || Qeq_bool (p d) 0 || (length (data x) =? 0)).
  - now exists x, g.
  - destruct (Qeq_bool (p d) 1).
    + do 2 eexists. split; [reflexivity|]. unfold tmap. cbn [shape data].
      now rewrite length_map.
    + do 2 eexists. split; [reflexivity|]. cbn [shape data].
      now rewrite imap_length.
Qed.

End EncoderRuns.

(** X16: [EncoderBlock.forward] never returns.  Whatever block it is called
    on (the constructor builds none, so it can only be one assembled by
    hand), whatever the input and the mask, the call ends in an exception
    and leaves the generator as it was: the first sublayer is the
    self-attention block, whose [forward] raises on every input. *)
Theorem encoder_block_forward_never_returns
        (blk : EncoderBlock.t) (x : Tensor) (mask : option PyObj) (g : Rng) :
  (exists e, EncoderBlock.forward blk x mask g = (Raise e, g))
  /\ (forall y g', EncoderBlock.forward blk x mask g <> (Ok y, g')).
Proof.
  destruct (encoder_block_forward_raises blk x mask g) as [e He].
  split; [now exists e|]. intros y g' H. rewrite He in H. discriminate H.
Qed.


(** X18: a ResidualConnection built by its constructor keeps the shape of
    its input: if the sublayer returns a tensor of the shape it is given,
    [forward] returns a tensor of the shape of [x], for every dropout
    probability and every state of the generator. *)
Theorem residual_keeps_shape
        (q : Q) (rc : ResidualConnection.t) (sublayer : Tensor -> M Tensor)
        (sh : list nat) (d : nat) (xd : list R) (g : Rng) :
  ResidualConnection.init (PyFloat q) = Ok rc ->
  wf (mkT (sh ++ [d]) xd) ->
  (forall n g0, shape n = sh ++ [d] -> wf n ->
     exists y g1, sublayer n g0 = (Ok y, g1) /\ shape y = sh ++ [d] /\ wf y) ->
  exists out g',
    ResidualConnection.forward rc (mkT (sh ++ [d]) xd) sublayer g = (Ok out, g')
    /\ shape out = sh ++ [d] /\ wf out.
Proof.
  intros Hrc Hx Hsub. unfold ResidualConnection.init in Hrc.
  destruct (Dropout_init (float_of (PyFloat q))) as [dr|]; [|discriminate].
  cbn [rbind] in Hrc. injection Hrc as <-.
  unfold ResidualConnection.forward, bind, lift.
  cbn [ResidualConnection.norm ResidualConnection.dropout].
  unfold LayerNormalization.init.
  pose proof Hx as Hx'. apply wf_rows in Hx'.
  rewrite forward_correct by exact Hx'.
  set (n := mkT (sh ++ [d]) _).
  assert (Hn : wf n).
  { unfold n. apply wf_rows. rewrite flat_map_concat_map.
    rewrite length_concat_rows with (n := d).
    - now rewrite length_map, chunks_length.
    - apply Forall_forall. intros r Hr. apply in_map_iff in Hr.
      destruct Hr as [row [<- Hin]]. rewrite normalized_row_length.
      revert row Hin. apply Forall_forall. apply chunks_each. exact Hx'. }
  destruct (Hsub n g eq_refl Hn) as (y & g1 & Hy & Hys & Hyw).
  rewrite Hy.
  destruct (Dropout_forward_shape dr y g1) as (z & g2 & Hz & Hzs & Hzl).
  rewrite Hz. destruct z as [zs zd]. cbn [shape data] in Hzs, Hzl.
  rewrite Hzs, Hys. 
  assert (Hzd : length zd = numel (sh ++ [d])).
  { rewrite Hzl. unfold wf in Hyw. now rewrite Hyw, Hys. }
  rewrite zip_with_same by assumption.
  do 2 eexists. split; [reflexivity|]. split; [reflexivity|].
  unfold wf. cbn [shape data]. rewrite map2_length, Hzd.
  unfold wf in Hx. cbn [shape data] in Hx. rewrite Hx. apply Nat.min_id.
Qed.

Lemma residual_keeps_shape_witness :
  exists out g',
    ResidualConnection.forward
      (ResidualConnection.mk (mkDropout (1 # 2) true)
         (LayerNormalization.init LayerNormalization.default_eps))
      (mkT ([1] ++ [2]) [1; 2]%R) (fun n => ret n) (mkRng 0 (fun _ => 0%Q))
    = (Ok out, g')
    /\ shape out = [1] ++ [2] /\ wf out.
Proof.
  apply (@residual_keeps_shape (1 # 2) _ (fun n => ret n) [1] 2 [1; 2]%R
           (mkRng 0 (fun _ => 0%Q))).
  - reflexivity.
  - reflexivity.
  - intros n g0 Hs Hw. exists n, g0. split; [reflexivity|]. split; assumption.
Defined.

(* ================================================================== *)
(** * Splitting into heads and concatenating them *)
(* ================================================================== *)

Section Heads.

Lemma unravel_bound (sh : list nat) (k : nat) :
  k < numel sh -> Forall2 lt (unravel sh k) sh.
Proof.
  revert k; induction sh as [|n sh IH]; intros k Hk; cbn [unravel]; constructor.
  - change (numel (n :: sh)) with (n * numel sh) in Hk.
    apply Nat.Div0.div_lt_upper_bound. lia.
  - apply IH. apply Nat.mod_upper_bound.
    change (numel (n :: sh)) with (n * numel sh) in Hk. lia.
Qed.

Lemma ravel_unravel (sh : list nat) (k : nat) :
  k < numel sh -> ravel sh (unravel sh k) = k.
Proof.
  revert k; induction sh as [|n sh IH]; intros k Hk.
  - cbn in *. lia.
  - change (numel (n :: sh)) with (n * numel sh) in Hk.
    cbn [unravel ravel].
    rewrite IH by (apply Nat.mod_upper_bound; lia).
    pose proof (Nat.div_mod_eq k (numel sh)). lia.
Qed.

Lemma ravel_bound (sh idx : list nat) :
  Forall2 lt idx sh -> ravel sh idx < numel sh.
Proof.
  induction 1 as [|i n idx sh Hi _ IH].
  - cbn. lia.
  - cbn [ravel]. change (numel (n :: sh)) with (n * numel sh). nia.
Qed.

Lemma unravel_ravel (sh idx : list nat) :
  Forall2 lt idx sh -> unravel sh (ravel sh idx) = idx.
Proof.
  induction 1 as [|i n idx sh Hi Hrest IH]; [reflexivity|].
  cbn [ravel unravel].
  pose proof (ravel_bound Hrest) as Hr.
  rewrite Nat.div_add_l by lia.
  rewrite Nat.div_small by exact Hr.
  rewrite (Nat.add_comm (i * numel sh)), Nat.Div0.mod_add, Nat.mod_small by exact Hr.
  now rewrite IH, Nat.add_0_r.
Qed.

Lemma Forall2_lt_4 (u : list nat) (n0 n1 n2 n3 : nat) :
  Forall2 lt u [n0; n1; n2; n3] ->
  exists i0 i1 i2 i3, u = [i0; i1; i2; i3] /\ i0 < n0 /\ i1 < n1 /\ i2 < n2 /\ i3 < n3.
Proof.
  intros H.
  inversion H as [|i0 ? u0 ? H0 H']; subst.
  inversion H' as [|i1 ? u1 ? H1 H'']; subst.
  inversion H'' as [|i2 ? u2 ? H2 H''']; subst.
  inversion H''' as [|i3 ? u3 ? H3 H4]; subst.
  inversion H4; subst.
  now exists i0, i1, i2, i3.
Qed.

Lemma transposed_from_bound (n0 n1 n2 n3 k : nat) :
  k < numel [n0; n2; n1; n3] -> transposed_from n0 n1 n2 n3 k < numel [n0; n1; n2; n3].
Proof.
  intros Hk. unfold transposed_from.
  destruct (Forall2_lt_4 (unravel_bound _ Hk)) as (i0 & i2 & i1 & i3 & -> & H0 & H2 & H1 & H3).
  change (swap 1 2 [i0; i2; i1; i3]) with [i0; i1; i2; i3].
  apply ravel_bound. repeat constructor; assumption.
Qed.

(** Exchanging the two middle axes twice leads back. *)
Lemma transposed_from_involutive (n0 n1 n2 n3 k : nat) :
  k < numel [n0; n1; n2; n3] ->
  transposed_from n0 n1 n2 n3 (transposed_from n0 n2 n1 n3 k) = k.
Proof.
  intros Hk. unfold transposed_from at 2.
  pose proof (ravel_unravel [n0; n1; n2; n3] Hk) as Hru.
  destruct (Forall2_lt_4 (unravel_bound _ Hk)) as (i0 & i1 & i2 & i3 & E & H0 & H1 & H2 & H3).
  rewrite E in *.
  change (swap 1 2 [i0; i1; i2; i3]) with [i0; i2; i1; i3].
  unfold transposed_from.
  rewrite unravel_ravel by (repeat constructor; assumption).
  change (swap 1 2 [i0; i2; i1; i3]) with [i0; i1; i2; i3].
  exact Hru.
Qed.

Lemma flat_map_lookup (l : list R) (f : nat -> nat) (ks : list nat) :
  Forall (fun k => f k < length l) ks ->
  flat_map (fun k => match nth_error l (f k) with Some a => [a] | None => [] end) ks
  = map (fun k => nth (f k) l 0%R) ks.
Proof.
  induction 1 as [|k ks Hk _ IH]; [reflexivity|].
  cbn [flat_map map]. rewrite IH.
  destruct (nth_error l (f k)) as [a|] eqn:E.
  - now rewrite (nth_error_nth _ _ _ E).
  - apply nth_error_None in E. lia.
Qed.

Lemma map_nth_all (l : list R) (n : nat) :
  length l = n -> map (fun k => nth k l 0%R) (seq 0 n) = l.
Proof.
  intros <-. apply nth_ext with (d := 0%R) (d' := 0%R).
  - now rewrite length_map, length_seq.
  - intros k Hk. rewrite length_map, length_seq in Hk.
    now rewrite nth_map_seq by exact Hk.
Qed.

(** [transpose(1, 2)] of a 4-dimensional tensor, element by element. *)
Lemma transpose_middle (n0 n1 n2 n3 : nat) (xd : list R) :
  length xd = numel [n0; n1; n2; n3] ->
  transpose (mkT [n0; n1; n2; n3] xd) 1 2
  = Ok (mkT [n0; n2; n1; n3]
            (map (fun k => nth (transposed_from n0 n1 n2 n3 k) xd 0%R)
                 (seq 0 (numel [n0; n2; n1; n3])))).
Proof.
  intros Hx. unfold transpose. cbn [shape data length].
  change (norm_dim 4 1) with (Ok 1). change (norm_dim 4 2) with (Ok 2).
  cbn [rbind]. change (swap 1 2 [n0; n1; n2; n3]) with [n0; n2; n1; n3].
  f_equal. f_equal.
  apply (@flat_map_lookup xd (transposed_from n0 n1 n2 n3)).
  apply Forall_forall. intros k Hk. apply in_seq in Hk.
  rewrite Hx. apply transposed_from_bound. lia.
Qed.

Lemma transpose_middle_twice (n0 n1 n2 n3 : nat) (xd : list R) :
  length xd = numel [n0; n1; n2; n3] ->
  (y <- transpose (mkT [n0; n1; n2; n3] xd) 1 2 ;; transpose y 1 2)%res
  = Ok (mkT [n0; n1; n2; n3] xd).
Proof.
  intros Hx. rewrite transpose_middle by exact Hx. cbn [rbind].
  rewrite transpose_middle by (now rewrite length_map, length_seq).
  f_equal. f_equal.
  transitivity (map (fun k => nth k xd 0%R) (seq 0 (numel [n0; n1; n2; n3])));
    [|now apply map_nth_all].
  apply map_ext_in. intros k Hk. apply in_seq in Hk.
  rewrite nth_map_seq by (apply transposed_from_bound; lia).
  f_equal. apply transposed_from_involutive. lia.
Qed.

(** [view(b, -1, w)] of a tensor of [b * s * w] elements. *)
Lemma view_infer_middle (t : Tensor) (b s : nat) (w : Z) :
  0 < b -> (0 < w)%Z ->
  Z.of_nat (numel (shape t)) = (Z.of_nat b * (Z.of_nat s * w))%Z ->
  view t [Z.of_nat b; (-1)%Z; w] = Ok (mkT [b; s; Z.to_nat w] (data t)).
Proof.
  intros Hb Hw Hn. unfold view. cbn [existsb].
  destruct (Z.ltb_spec (Z.of_nat b) (-1)); [lia|].
  destruct (Z.ltb_spec w (-1)); [lia|]. cbn [orb Z.ltb Z.compare].
  change (-1 <? -1)%Z with false. cbn [orb].
  cbn [count_occ remove].
  destruct (Z.eq_dec (Z.of_nat b) (-1)) as [E|_]; [lia|].
  destruct (Z.eq_dec (-1) (-1)) as [_|N]; [|contradiction].
  destruct (Z.eq_dec w (-1)) as [E|_]; [lia|].
  destruct (Z.eq_dec (-1) (Z.of_nat b)) as [E|_]; [lia|].
  destruct (Z.eq_dec (-1) w) as [E|_]; [lia|].
  cbn [Zprod fold_right]. rewrite Z.mul_1_r.
  destruct (Z.eqb_spec (Z.of_nat b * w) 0) as [E|_]; [nia|].
  rewrite Hn.
  replace (Z.of_nat b * (Z.of_nat s * w))%Z with (Z.of_nat s * (Z.of_nat b * w))%Z by ring.
  rewrite Z.mod_mul, Z.div_mul by nia. cbn [Z.eqb map].
  destruct (Z.eqb_spec (Z.of_nat b) (-1)); [lia|].
  destruct (Z.eqb_spec w (-1)); [lia|].
  change (1 =? 1)%positive with true. cbv iota.
  now rewrite !Nat2Z.id.
Qed.

End Heads.

(** X19: in [MultiHeadAttentionBlock.forward], splitting a
    (batch, seq_len, d_model) tensor into heads gives a
    (batch, h, seq_len, d_k) tensor in which head [a] holds, for every
    position, the columns [a * d_k] to [a * d_k + d_k - 1] of the input;
    and the concatenation of the heads applied after it gives the input
    back (for a block with [h > 0], a batch that is not empty and a
    positive [d_model]). *)
Theorem split_then_merge_heads
        (blk : MultiHeadAttentionBlock.t) (b s : nat) (xd : list R) :
  block_ready blk -> 0 < b -> (0 < MultiHeadAttentionBlock.d_model blk)%Z ->
  wf (mkT [b; s; Z.to_nat (MultiHeadAttentionBlock.d_model blk)] xd) ->
  exists hd,
    MultiHeadAttentionBlock.split_heads blk
      (mkT [b; s; Z.to_nat (MultiHeadAttentionBlock.d_model blk)] xd)
    = Ok (mkT [b; Z.to_nat (MultiHeadAttentionBlock.h blk); s;
               Z.to_nat (MultiHeadAttentionBlock.d_k blk)] hd)
    /\ wf (mkT [b; Z.to_nat (MultiHeadAttentionBlock.h blk); s;
                Z.to_nat (MultiHeadAttentionBlock.d_k blk)] hd)
    /\ (forall i a t j : nat,
          i < b -> a < Z.to_nat (MultiHeadAttentionBlock.h blk) -> t < s ->
          j < Z.to_nat (MultiHeadAttentionBlock.d_k blk) ->
          nth (ravel [b; Z.to_nat (MultiHeadAttentionBlock.h blk); s;
                      Z.to_nat (MultiHeadAttentionBlock.d_k blk)] [i; a; t; j]) hd 0%R
          = nth (ravel [b; s; Z.to_nat (MultiHeadAttentionBlock.d_model blk)]
                       [i; t; a * Z.to_nat (MultiHeadAttentionBlock.d_k blk) + j]) xd 0%R)
    /\ merge_heads blk
         (mkT [b; Z.to_nat (MultiHeadAttentionBlock.h blk); s;
               Z.to_nat (MultiHeadAttentionBlock.d_k blk)] hd)
       = Ok (mkT [b; s; Z.to_nat (MultiHeadAttentionBlock.d_model blk)] xd).
Proof.
  intros (Hh & Hk & Hm & _) Hb Hd Hx.
  set (hh := Z.to_nat (MultiHeadAttentionBlock.h blk)).
  set (dk := Z.to_nat (MultiHeadAttentionBlock.d_k blk)).
  set (dm := Z.to_nat (MultiHeadAttentionBlock.d_model blk)).
  assert (Hdm : dm = hh * dk).
  { unfold dm, hh, dk. rewrite <- Hm. apply Z2Nat.inj_mul; lia. }
  assert (Hlen : length xd = numel [b; s; hh; dk]).
  { unfold wf in Hx. cbn [shape data] in Hx. rewrite Hx. fold dm. rewrite Hdm.
    cbn [numel fold_right]. lia. }
  assert (Hsplit : MultiHeadAttentionBlock.split_heads blk (mkT [b; s; dm] xd)
                   = transpose (mkT [b; s; hh; dk] xd) 1 2).
  { unfold MultiHeadAttentionBlock.split_heads, shape_at. cbn [shape nth_error rbind].
    rewrite view_sizes.
    - cbn [rbind map data]. rewrite !Nat2Z.id. reflexivity.
    - repeat constructor; lia.
    - cbn [shape numel fold_right Zprod]. fold dm. rewrite Hdm. unfold hh, dk.
      rewrite !Nat2Z.inj_mul, !Z2Nat.id by lia. simpl. ring. }
  pose proof (@transpose_middle_twice b s hh dk xd Hlen) as Htwice.
  rewrite transpose_middle in Htwice by exact Hlen. cbn [rbind] in Htwice.
  rewrite Hsplit, transpose_middle by exact Hlen.
  eexists. split; [reflexivity|]. split; [|split].
  - unfold wf. cbn [shape data]. now rewrite length_map, length_seq.
  - intros i a t j Hi Ha Ht Hj.
    assert (Hin : Forall2 lt [i; a; t; j] [b; hh; s; dk]) by (repeat constructor; assumption).
    rewrite nth_map_seq by (apply (@ravel_bound _ _ Hin)).
    unfold transposed_from. rewrite (@unravel_ravel _ _ Hin).
    change (swap 1 2 [i; a; t; j]) with [i; t; a; j].
    f_equal. cbn [ravel numel fold_right]. rewrite Hdm. lia.
  - unfold merge_heads. rewrite Htwice. cbn [rbind]. unfold shape_at, contiguous.
    cbn [shape nth_error rbind].
    rewrite view_infer_middle with (s := s).
    + rewrite Hm. reflexivity.
    + exact Hb.
    + lia.
    + cbn [shape numel fold_right]. unfold hh, dk.
      rewrite !Nat2Z.inj_mul, !Z2Nat.id by lia. ring.
Qed.

Lemma split_then_merge_heads_witness :
  exists hd,
    MultiHeadAttentionBlock.split_heads
      (wide_block (fun _ _ => 0%R))
      (mkT [1; 1; Z.to_nat (MultiHeadAttentionBlock.d_model (wide_block (fun _ _ => 0%R)))]
           [1; 2; 3; 4; 5; 6; 7; 8]%R)
    = Ok (mkT [1; Z.to_nat (MultiHeadAttentionBlock.h (wide_block (fun _ _ => 0%R))); 1;
               Z.to_nat (MultiHeadAttentionBlock.d_k (wide_block (fun _ _ => 0%R)))] hd)
    /\ wf (mkT [1; Z.to_nat (MultiHeadAttentionBlock.h (wide_block (fun _ _ => 0%R))); 1;
                Z.to_nat (MultiHeadAttentionBlock.d_k (wide_block (fun _ _ => 0%R)))] hd)
    /\ (forall i a t j : nat,
          i < 1 -> a < Z.to_nat (MultiHeadAttentionBlock.h (wide_block (fun _ _ => 0%R))) ->
          t < 1 ->
          j < Z.to_nat (MultiHeadAttentionBlock.d_k (wide_block (fun _ _ => 0%R))) ->
          nth (ravel [1; Z.to_nat (MultiHeadAttentionBlock.h (wide_block (fun _ _ => 0%R))); 1;
                      Z.to_nat (MultiHeadAttentionBlock.d_k (wide_block (fun _ _ => 0%R)))]
                     [i; a; t; j]) hd 0%R
          = nth (ravel [1; 1; Z.to_nat (MultiHeadAttentionBlock.d_model
                                          (wide_block (fun _ _ => 0%R)))]
                       [i; t; a * Z.to_nat (MultiHeadAttentionBlock.d_k
                                              (wide_block (fun _ _ => 0%R))) + j])
                [1; 2; 3; 4; 5; 6; 7; 8]%R 0%R)
    /\ merge_heads (wide_block (fun _ _ => 0%R))
         (mkT [1; Z.to_nat (MultiHeadAttentionBlock.h (wide_block (fun _ _ => 0%R))); 1;
               Z.to_nat (MultiHeadAttentionBlock.d_k (wide_block (fun _ _ => 0%R)))] hd)
       = Ok (mkT [1; 1; Z.to_nat (MultiHeadAttentionBlock.d_model
                                    (wide_block (fun _ _ => 0%R)))]
                 [1; 2; 3; 4; 5; 6; 7; 8]%R).
Proof.
  apply (@split_then_merge_heads (wide_block (fun _ _ => 0%R)) 1 1
           [1; 2; 3; 4; 5; 6; 7; 8]%R).
  - unfold block_ready, wide_block. cbn. repeat split; try lia.
    repeat constructor.
  - lia.
  - reflexivity.
  - reflexivity.
Defined.
